(** * A shallow embedding of the fetch polyfill: Body, Request, Response,
      StreamBlobResponse and the Fetch transport engine.

    JavaScript objects with identity (ArrayBuffers, ReadableStreams,
    Headers, Requests) live in a store and are named by their address;
    a constructor or method is a function on the store.  A thrown
    exception leaves the store as it was at the throw, so the store is
    threaded outside the completion. *)

From Stdlib Require Import ZArith NArith Lia List Bool String Ascii.
From stdpp Require Import base option list.

Set Default Proof Using "Type".

(** ** Strings, bytes and errors *)

(** A JavaScript string is a sequence of UTF-16 code units. *)
Definition js_string := list N.

(** Bytes of an ArrayBuffer, a typed array or a stream chunk. *)
Definition bytes := list N.

(** The code units of an ASCII literal. *)
Definition js (s : string) : js_string :=
  map N_of_ascii (list_ascii_of_string s).

(** The error values the sources construct.  [NewError] is
    [new Error(msg)], [NewTypeError] is [new TypeError(msg)] (also what the
    engine raises for a call on [undefined]), [NewAbortError] is the
    engine's [AbortError] class; [InvalidHeaderName] belongs to the Headers
    class. *)
Inductive JsError :=
| NewError (msg : string)
| NewTypeError (msg : string)
| NewAbortError
| NewSyntaxError
| NewURIError
| InvalidHeaderName (name : string).

(** The error kinds of the specification, as predicates on error values:
    a second read is reported by an [Error] in the Body and by a
    [TypeError] in the Request constructor, with the same message. *)
Definition AlreadyReadError (e : JsError) : Prop :=
  e = NewError "Already read" \/ e = NewTypeError "Already read".


(** The state of a promise once the calls made so far have run. *)
Inductive Promise (A : Type) :=
| Fulfilled (a : A)
| Rejected (e : JsError)
| Pending.
Arguments Fulfilled {A} a.
Arguments Rejected {A} e.
Arguments Pending {A}.

(** The completion of synchronous code. *)
Inductive Completion (A : Type) :=
| Normal (a : A)
| Throw (e : JsError).
Arguments Normal {A} a.
Arguments Throw {A} e.

Definition then_ {A B} (p : Promise A) (f : A -> Promise B) : Promise B :=
  match p with
  | Fulfilled a => f a
  | Rejected e => Rejected e
  | Pending => Pending
  end.

(** ** TextEncoder: UTF-16 code units to UTF-8 bytes *)

Definition is_high_surrogate (u : N) : bool :=
  ((0xD800 <=? u) && (u <=? 0xDBFF))%N.

Definition is_low_surrogate (u : N) : bool :=
  ((0xDC00 <=? u) && (u <=? 0xDFFF))%N.

(** Conversion to scalar values: a surrogate pair is one code point, a lone
    surrogate becomes U+FFFD. *)
Fixpoint code_points (s : js_string) : list N :=
  match s with
  | [] => []
  | u :: rest =>
    if is_high_surrogate u then
      match rest with
      | l :: rest' =>
        if is_low_surrogate l
        then (0x10000 + (u - 0xD800) * 0x400 + (l - 0xDC00))%N :: code_points rest'
        else 0xFFFD%N :: code_points rest
      | [] => [0xFFFD%N]
      end
    else if is_low_surrogate u then 0xFFFD%N :: code_points rest
    else u :: code_points rest
  end.

Definition utf8_bytes (c : N) : bytes :=
  if (c <? 0x80)%N then [c]
  else if (c <? 0x800)%N then
    [N.lor 0xC0 (N.shiftr c 6); N.lor 0x80 (N.land c 0x3F)]
  else if (c <? 0x10000)%N then
    [N.lor 0xE0 (N.shiftr c 12);
     N.lor 0x80 (N.land (N.shiftr c 6) 0x3F);
     N.lor 0x80 (N.land c 0x3F)]
  else
    [N.lor 0xF0 (N.shiftr c 18);
     N.lor 0x80 (N.land (N.shiftr c 12) 0x3F);
     N.lor 0x80 (N.land (N.shiftr c 6) 0x3F);
     N.lor 0x80 (N.land c 0x3F)].

(** [new TextEncoder().encode(s)]; the encoder keeps no state between
    calls, whatever options it is given. *)
Definition TextEncoder_encode (s : js_string) : bytes :=
  flat_map utf8_bytes (code_points s).

(** A string every surrogate of which is paired: what a decoder of bytes
    produces. *)
Fixpoint well_formed (s : js_string) : bool :=
  match s with
  | [] => true
  | u :: rest =>
    if is_high_surrogate u then
      match rest with
      | l :: rest' => is_low_surrogate l && well_formed rest'
      | [] => false
      end
    else negb (is_low_surrogate u) && well_formed rest
  end.

(** [s.substring(start)] and [s.length]. *)
Definition substring (start : nat) (s : js_string) : js_string := drop start s.

(** A Blob: its bytes and its [type]. *)
Record Blob := NewBlob { blob_bytes : bytes; blob_type : string }.

(** ** The platform *)

(** Functions of the host the sources call and do not define. *)
Class Platform := {
  (** [new TextDecoder().decode(bytes)] *)
  TextDecoder_decode : bytes -> js_string;
  (** the values [JSON.parse] yields; [None] is a [SyntaxError] *)
  Json : Type;
  JSON_parse : js_string -> option Json;
  (** [decodeURIComponent]; [None] is a [URIError] *)
  decodeURIComponent : js_string -> option js_string;
  (** what the transport hands over at the end of a transfer: a base64
      string or a blob descriptor *)
  NativeData : Type;
  (** JavaScript truthiness of such a value *)
  truthy_data : NativeData -> bool;
  (** [toByteArray] of base64-js *)
  toByteArray : NativeData -> bytes;
  (** [BlobManager.createFromOptions] *)
  createFromOptions : NativeData -> Blob
}.

(** ** Form data, buffers and streams *)

(** A FormData object: its fields in order. *)
Definition FormData := list (js_string * js_string).

Inductive ViewKind := TypedArray | DataView.

(** An ArrayBufferView: a window on the ArrayBuffer at [view_buffer]. *)
Record View := {
  view_kind : ViewKind;
  view_buffer : nat;
  byteOffset : nat;
  byteLength : nat
}.

Inductive BufferSource :=
| IsArrayBuffer (a : nat)
| IsView (v : View).

Inductive StreamStatus :=
| Readable
| Closed
| Errored (e : JsError).

(** A ReadableStream with its controller's queue.  [Closed] with a
    non-empty queue is a stream whose close was requested and whose chunks
    are still to be read. *)
Record ReadableStream := {
  queue : list bytes;
  status : StreamStatus;
  locked : bool
}.

(** What a Body is built from. *)
Inductive BodyInit :=
| InitNull                          (* undefined, null or another falsy value *)
| InitString (s : js_string)
| InitBlob (b : Blob)
| InitFormData (f : FormData)
| InitURLSearchParams (str : js_string)   (* with its toString() *)
| InitArrayBuffer (a : nat)
| InitView (v : View)
| InitStream (s : nat)
| InitObject (str : js_string).     (* any other object, with its toString() *)

(** JavaScript truthiness of a body value. *)
Definition truthy (body : BodyInit) : bool :=
  match body with
  | InitNull => false
  | InitString [] => false
  | _ => true
  end.

Definition truthy_string (s : string) : bool :=
  negb (String.eqb s "").

(** The fields of a [Body] object ([src/Body.js]); a field the
    constructor leaves unset is [None]. *)
Record Body := {
  bodyUsed : bool;
  _bodyInit : BodyInit;
  _bodyText : option js_string;
  _bodyBlob : option Blob;
  _bodyFormData : option FormData;
  _bodyArrayBuffer : option BufferSource;
  _bodyReadableStream : option nat;
  _mimeType : option string
}.

Definition set_bodyUsed (u : bool) (this : Body) : Body :=
  {| bodyUsed := u;
     _bodyInit := _bodyInit this;
     _bodyText := _bodyText this;
     _bodyBlob := _bodyBlob this;
     _bodyFormData := _bodyFormData this;
     _bodyArrayBuffer := _bodyArrayBuffer this;
     _bodyReadableStream := _bodyReadableStream this;
     _mimeType := _mimeType this |}.

(** The object after [this.bodyUsed = false; this._bodyInit = body]. *)
Definition new_body (body : BodyInit) : Body :=
  {| bodyUsed := false;
     _bodyInit := body;
     _bodyText := None;
     _bodyBlob := None;
     _bodyFormData := None;
     _bodyArrayBuffer := None;
     _bodyReadableStream := None;
     _mimeType := None |}.

(** ** Headers *)

(** Modelled from the spec: the Headers class (the sources have its tests
    and its callers only).  A table is the ordered list of its entries,
    names folded to lower case; a name must be an HTTP token. *)
Definition HeaderTable := list (string * string).

(** [String.prototype.toLowerCase] and [toUpperCase] on ASCII letters. *)
Definition lower_ascii (c : ascii) : ascii :=
  let n := nat_of_ascii c in
  if (65 <=? n)%nat && (n <=? 90)%nat then ascii_of_nat (n + 32) else c.

Fixpoint toLowerCase (s : string) : string :=
  match s with
  | EmptyString => EmptyString
  | String c rest => String (lower_ascii c) (toLowerCase rest)
  end.

Definition upper_ascii (c : ascii) : ascii :=
  let n := nat_of_ascii c in
  if (97 <=? n)%nat && (n <=? 122)%nat then ascii_of_nat (n - 32) else c.

Fixpoint toUpperCase (s : string) : string :=
  match s with
  | EmptyString => EmptyString
  | String c rest => String (upper_ascii c) (toUpperCase rest)
  end.

(** Modelled from the spec: the characters of an HTTP token, which is
    what a header name must consist of. *)
Definition token_char (c : ascii) : bool :=
  let n := nat_of_ascii c in
  ((48 <=? n) && (n <=? 57) || (65 <=? n) && (n <=? 90)
   || (97 <=? n) && (n <=? 122)
   || existsb (Nat.eqb n) [33; 35; 36; 37; 38; 39; 42; 43; 45; 46; 94; 95; 96; 124; 126])%nat.

Fixpoint all_token_chars (s : string) : bool :=
  match s with
  | EmptyString => true
  | String c rest => token_char c && all_token_chars rest
  end.

(** Modelled from the spec: the validation of a header name (non-empty,
    token characters only). *)
Definition valid_header_name (name : string) : bool :=
  negb (String.eqb name "") && all_token_chars name.

Module Headers.

(** Modelled from the spec: the methods of the Headers class on a table.
    [has] and [get] fold the name to lower case; [set] and [append]
    validate the name, [set] replaces the value in place and [append]
    joins with ", ", both adding a new name at the end; [delete] removes
    the entry. *)
Definition has (name : string) (this : HeaderTable) : bool :=
  existsb (fun e => String.eqb (fst e) (toLowerCase name)) this.

Definition get (name : string) (this : HeaderTable) : option string :=
  snd <$> List.find (fun e => String.eqb (fst e) (toLowerCase name)) this.

Fixpoint replace (name value : string) (this : HeaderTable) : HeaderTable :=
  match this with
  | [] => []
  | (n, v) :: rest =>
    if String.eqb n name then (n, value) :: rest
    else (n, v) :: replace name value rest
  end.

Fixpoint extend (name value : string) (this : HeaderTable) : HeaderTable :=
  match this with
  | [] => []
  | (n, v) :: rest =>
    if String.eqb n name then (n, String.append v (String.append ", " value)) :: rest
    else (n, v) :: extend name value rest
  end.

Definition set (name value : string) (this : HeaderTable)
  : Completion HeaderTable :=
  if valid_header_name name then
    Normal (if has name this then replace (toLowerCase name) value this
            else this ++ [(toLowerCase name, value)])
  else Throw (InvalidHeaderName name).

Definition append (name value : string) (this : HeaderTable)
  : Completion HeaderTable :=
  if valid_header_name name then
    Normal (if has name this then extend (toLowerCase name) value this
            else this ++ [(toLowerCase name, value)])
  else Throw (InvalidHeaderName name).

Definition delete (name : string) (this : HeaderTable) : HeaderTable :=
  List.filter (fun e => negb (String.eqb (fst e) (toLowerCase name))) this.

(** Modelled from the spec: the table built from a sequence of pairs or
    a mapping; each pair is appended, with [append]'s validation. *)
Fixpoint of_pairs (pairs : list (string * string)) (acc : HeaderTable)
  : Completion HeaderTable :=
  match pairs with
  | [] => Normal acc
  | (n, v) :: rest =>
    match append n v acc with
    | Normal acc' => of_pairs rest acc'
    | Throw e => Throw e
    end
  end.

End Headers.

(** What [options.headers] may hold: a Headers object, or a plain mapping
    or sequence of pairs. *)
Inductive HeadersInit :=
| InitHeaders (h : nat)
| InitPairs (pairs : list (string * string)).

(** ** Requests and the store *)

(** The fields of a constructed [Request]; [headers] and [signal] are
    addresses. *)
Record Request := {
  url : string;
  method : string;
  credentials : string;
  headers : nat;
  signal : option nat;
  _body : Body
}.

Definition set_body (b : Body) (r : Request) : Request :=
  {| url := url r;
     method := method r;
     credentials := credentials r;
     headers := headers r;
     signal := signal r;
     _body := b |}.

(** The objects with identity.  An address is an index; allocation
    appends, so a new address differs from every address in use.  A
    signal is its [aborted] flag. *)
Record Store := {
  heap_buffers : list bytes;
  heap_streams : list ReadableStream;
  heap_headers : list HeaderTable;
  heap_requests : list Request;
  heap_signals : list bool
}.

Definition empty_store : Store :=
  {| heap_buffers := []; heap_streams := []; heap_headers := [];
     heap_requests := []; heap_signals := [] |}.

Definition set_buffers (bs : list bytes) (σ : Store) : Store :=
  {| heap_buffers := bs;
     heap_streams := heap_streams σ;
     heap_headers := heap_headers σ;
     heap_requests := heap_requests σ;
     heap_signals := heap_signals σ |}.

Definition set_streams (ss : list ReadableStream) (σ : Store) : Store :=
  {| heap_buffers := heap_buffers σ;
     heap_streams := ss;
     heap_headers := heap_headers σ;
     heap_requests := heap_requests σ;
     heap_signals := heap_signals σ |}.

Definition set_headers (hs : list HeaderTable) (σ : Store) : Store :=
  {| heap_buffers := heap_buffers σ;
     heap_streams := heap_streams σ;
     heap_headers := hs;
     heap_requests := heap_requests σ;
     heap_signals := heap_signals σ |}.

Definition set_requests (rs : list Request) (σ : Store) : Store :=
  {| heap_buffers := heap_buffers σ;
     heap_streams := heap_streams σ;
     heap_headers := heap_headers σ;
     heap_requests := rs;
     heap_signals := heap_signals σ |}.

(** Synchronous code: a function of the store that completes normally or
    throws. *)
Definition M (A : Type) : Type := Store -> Store * Completion A.

Definition ret {A} (a : A) : M A := fun σ => (σ, Normal a).

Definition throw {A} (e : JsError) : M A := fun σ => (σ, Throw e).

Definition bind {A B} (m : M A) (k : A -> M B) : M B :=
  fun σ =>
    match m σ with
    | (σ', Normal a) => k a σ'
    | (σ', Throw e) => (σ', Throw e)
    end.

Notation "'let*' x ':=' c 'in' k" := (bind c (fun x => k))
  (at level 10, x name, c at level 100, k at level 200).

(** *** ArrayBuffers *)

Definition buffer_bytes (σ : Store) (a : nat) : bytes :=
  default [] (heap_buffers σ !! a).

(** The bytes a view shows. *)
Definition window (σ : Store) (v : View) : bytes :=
  take (byteLength v) (drop (byteOffset v) (buffer_bytes σ (view_buffer v))).

Definition source_bytes (σ : Store) (src : BufferSource) : bytes :=
  match src with
  | IsArrayBuffer a => buffer_bytes σ a
  | IsView v => window σ v
  end.

(** A new ArrayBuffer holding [bs]. *)
Definition alloc_buffer (bs : bytes) : M nat :=
  fun σ => (set_buffers (heap_buffers σ ++ [bs]) σ, Normal (length (heap_buffers σ))).

(** [buffer.slice(begin, end)]: a new ArrayBuffer with a copy of the range. *)
Definition ArrayBuffer_slice (a : nat) (begin end_ : nat) : M nat :=
  fun σ => alloc_buffer (take (end_ - begin) (drop begin (buffer_bytes σ a))) σ.

(** [buffer.slice(0)]: a copy of the whole buffer. *)
Definition ArrayBuffer_slice0 (a : nat) : M nat :=
  fun σ => alloc_buffer (buffer_bytes σ a) σ.

(** [view.slice(0)]: for a typed array, a new typed array on a buffer of
    its own with a copy of the elements; a DataView has no [slice], and the
    call throws. *)
Definition View_slice0 (v : View) : M View :=
  fun σ =>
    match view_kind v with
    | TypedArray =>
      (let* a := alloc_buffer (window σ v) in
       ret {| view_kind := TypedArray; view_buffer := a;
              byteOffset := 0; byteLength := byteLength v |}) σ
    | DataView => throw (NewTypeError "body.slice is not a function") σ
    end.

(** The caller writes into an ArrayBuffer it holds. *)
Definition write_buffer (a : nat) (bs : bytes) (σ : Store) : Store :=
  set_buffers (<[a := bs]> (heap_buffers σ)) σ.

(** *** Streams *)

Definition alloc_stream (s : ReadableStream) : M nat :=
  fun σ => (set_streams (heap_streams σ ++ [s]) σ, Normal (length (heap_streams σ))).

(** [controller.enqueue(chunk)], [controller.close()] and
    [controller.error(e)] of the stream at address [s]. *)
Definition can_close_or_enqueue (st : ReadableStream) : bool :=
  match status st with Readable => true | _ => false end.

(** Whether the stream is in the state "readable": open, or closing
    with chunks still to be read. *)
Definition can_be_read (st : ReadableStream) : bool :=
  match status st, queue st with
  | Readable, _ => true
  | Closed, _ :: _ => true
  | _, _ => false
  end.

Definition enqueue (s : nat) (chunk : bytes) : M unit :=
  fun σ =>
    match heap_streams σ !! s with
    | Some st =>
      if can_close_or_enqueue st then
        (set_streams (<[s := {| queue := queue st ++ [chunk];
                                 status := Readable;
                                 locked := locked st |}]> (heap_streams σ)) σ,
         Normal ())
      else (σ, Throw (NewTypeError "The stream is not in a state that permits enqueue"))
    | None => (σ, Throw (NewTypeError "undefined is not an object"))
    end.

Definition close (s : nat) : M unit :=
  fun σ =>
    match heap_streams σ !! s with
    | Some st =>
      if can_close_or_enqueue st then
        (set_streams (<[s := {| queue := queue st;
                                 status := Closed;
                                 locked := locked st |}]> (heap_streams σ)) σ,
         Normal ())
      else (σ, Throw (NewTypeError "The stream is not in a state that permits close"))
    | None => (σ, Throw (NewTypeError "undefined is not an object"))
    end.

Definition error (s : nat) (e : JsError) : M unit :=
  fun σ =>
    match heap_streams σ !! s with
    | Some st =>
      match status st, queue st with
      | Errored _, _ | Closed, [] => (σ, Normal ())
      | _, _ =>
        (set_streams (<[s := {| queue := []; status := Errored e;
                                 locked := locked st |}]> (heap_streams σ)) σ,
         Normal ())
      end
    | None => (σ, Throw (NewTypeError "undefined is not an object"))
    end.

(** [readNextChunk] of [drainStream]: the chunks read so far are in
    [chunks]; [pending] is what the stream still holds. *)
Fixpoint readNextChunk (pending : list bytes) (st : StreamStatus)
    (chunks : list bytes) : Promise bytes :=
  match pending with
  | value :: rest => readNextChunk rest st (chunks ++ [value])
  | [] =>
    match st with
    | Closed =>
      Fulfilled (fold_left (fun byteArray chunk => byteArray ++ chunk) chunks [])
    | Errored e => Rejected e
    | Readable => Pending
    end
  end.

(** The conversion of an integer to an element of a [Uint8Array]. *)
Definition to_uint8 (n : N) : N := (n mod 256)%N.

(** [drainStream(stream)]: takes the stream's reader, reads to the end and
    makes a new [Uint8Array] from the array of the elements read, each
    converted to a byte.  A stream still open leaves the promise
    pending. *)
Definition drainStream (s : nat) (σ : Store) : Store * Promise View :=
  match heap_streams σ !! s with
  | Some st =>
    if locked st then
      (σ, Rejected (NewTypeError "ReadableStream is locked"))
    else
      let σ1 := set_streams (<[s := {| queue := []; status := status st;
                                        locked := true |}]> (heap_streams σ)) σ in
      match readNextChunk (queue st) (status st) [] with
      | Fulfilled byteArray =>
        (set_buffers (heap_buffers σ1 ++ [map to_uint8 byteArray]) σ1,
         Fulfilled {| view_kind := TypedArray;
                      view_buffer := length (heap_buffers σ1);
                      byteOffset := 0;
                      byteLength := length byteArray |})
      | Rejected e => (σ1, Rejected e)
      | Pending => (σ1, Pending)
      end
  | None => (σ, Rejected (NewTypeError "undefined is not an object"))
  end.

(** An [async] function turns a throw into a rejection. *)
Definition async {A} (m : M A) (σ : Store) : Store * Promise A :=
  match m σ with
  | (σ', Normal a) => (σ', Fulfilled a)
  | (σ', Throw e) => (σ', Rejected e)
  end.

(** ** String helpers of [formData()] *)

Definition is_space (c : N) : bool :=
  existsb (N.eqb c)
    [0x09; 0x0A; 0x0B; 0x0C; 0x0D; 0x20; 0xA0; 0x1680; 0x2028; 0x2029;
     0x202F; 0x205F; 0x3000; 0xFEFF]%N
  || ((0x2000 <=? c) && (c <=? 0x200A))%N.

Fixpoint trimStart (s : js_string) : js_string :=
  match s with
  | c :: rest => if is_space c then trimStart rest else s
  | [] => []
  end.

Definition trim (s : js_string) : js_string :=
  rev (trimStart (rev (trimStart s))).

(** [s.split(sep)] for a one-unit separator. *)
Fixpoint split (sep : N) (s : js_string) : list js_string :=
  match s with
  | [] => [[]]
  | c :: rest =>
    if (c =? sep)%N then [] :: split sep rest
    else match split sep rest with
         | cur :: more => (c :: cur) :: more
         | [] => [[c]]
         end
  end.

Fixpoint join (sep : N) (parts : list js_string) : js_string :=
  match parts with
  | [] => []
  | [p] => p
  | p :: rest => p ++ sep :: join sep rest
  end.

(** [s.replace(/\+/g, " ")] *)
Definition plus_to_space (s : js_string) : js_string :=
  map (fun c => if (c =? 43)%N then 32%N else c) s.

(** ** Body ([src/Body.js]) *)

Module Body.

Definition set_text (s : js_string) (this : Body) : Body :=
  {| bodyUsed := bodyUsed this;
     _bodyInit := _bodyInit this;
     _bodyText := Some s;
     _bodyBlob := _bodyBlob this;
     _bodyFormData := _bodyFormData this;
     _bodyArrayBuffer := _bodyArrayBuffer this;
     _bodyReadableStream := _bodyReadableStream this;
     _mimeType := _mimeType this |}.

Definition set_blob (b : Blob) (this : Body) : Body :=
  {| bodyUsed := bodyUsed this;
     _bodyInit := _bodyInit this;
     _bodyText := _bodyText this;
     _bodyBlob := Some b;
     _bodyFormData := _bodyFormData this;
     _bodyArrayBuffer := _bodyArrayBuffer this;
     _bodyReadableStream := _bodyReadableStream this;
     _mimeType := _mimeType this |}.

Definition set_formData (f : FormData) (this : Body) : Body :=
  {| bodyUsed := bodyUsed this;
     _bodyInit := _bodyInit this;
     _bodyText := _bodyText this;
     _bodyBlob := _bodyBlob this;
     _bodyFormData := Some f;
     _bodyArrayBuffer := _bodyArrayBuffer this;
     _bodyReadableStream := _bodyReadableStream this;
     _mimeType := _mimeType this |}.

Definition set_arrayBuffer (src : BufferSource) (this : Body) : Body :=
  {| bodyUsed := bodyUsed this;
     _bodyInit := _bodyInit this;
     _bodyText := _bodyText this;
     _bodyBlob := _bodyBlob this;
     _bodyFormData := _bodyFormData this;
     _bodyArrayBuffer := Some src;
     _bodyReadableStream := _bodyReadableStream this;
     _mimeType := _mimeType this |}.

Definition set_readableStream (s : nat) (this : Body) : Body :=
  {| bodyUsed := bodyUsed this;
     _bodyInit := _bodyInit this;
     _bodyText := _bodyText this;
     _bodyBlob := _bodyBlob this;
     _bodyFormData := _bodyFormData this;
     _bodyArrayBuffer := _bodyArrayBuffer this;
     _bodyReadableStream := Some s;
     _mimeType := _mimeType this |}.

Definition set_mimeType (m : string) (this : Body) : Body :=
  {| bodyUsed := bodyUsed this;
     _bodyInit := _bodyInit this;
     _bodyText := _bodyText this;
     _bodyBlob := _bodyBlob this;
     _bodyFormData := _bodyFormData this;
     _bodyArrayBuffer := _bodyArrayBuffer this;
     _bodyReadableStream := _bodyReadableStream this;
     _mimeType := Some m |}.

(** [new Body(body)] *)
Definition constructor (body : BodyInit) : M Body :=
  let this := new_body body in
  if negb (truthy body) then ret (set_text [] this)
  else
    match body with
    | InitBlob b => ret (set_mimeType (blob_type b) (set_blob b this))
    | InitFormData f =>
      ret (set_mimeType "multipart/form-data" (set_formData f this))
    | InitURLSearchParams str =>
      ret (set_mimeType "application/x-www-form-urlencoded;charset=UTF-8"
             (set_text str this))
    | InitArrayBuffer a =>
      let* copy := ArrayBuffer_slice0 a in
      ret (set_mimeType "application/octet-stream"
             (set_arrayBuffer (IsArrayBuffer copy) this))
    | InitView v =>
      let* copy := View_slice0 v in
      ret (set_mimeType "application/octet-stream"
             (set_arrayBuffer (IsView copy) this))
    | InitStream s =>
      ret (set_mimeType "application/octet-stream" (set_readableStream s this))
    | InitString str | InitObject str =>
      ret (set_mimeType "text/plain;charset=UTF-8" (set_text str this))
    | InitNull => ret (set_text [] this)
    end.

(** [__consumed()]: the rejection to return, if any, and the object
    afterwards. *)
Definition __consumed (this : Body) : Body * option JsError :=
  if bodyUsed this then (this, Some (NewError "Already read"))
  else (set_bodyUsed true this, None).

(** The result of a conversion method: the store and the object after
    the call, and the promise the call returned. *)
Definition Method (A : Type) : Type := Body -> Store -> Store * Body * Promise A.

Definition blob : Method Blob := fun this σ =>
  match __consumed this with
  | (this, Some alreadyConsumed) => (σ, this, Rejected alreadyConsumed)
  | (this, None) =>
    match _bodyBlob this with
    | Some b => (σ, this, Fulfilled b)
    | None =>
    match _bodyReadableStream this with
    | Some s =>
      let '(σ', typedArray) := drainStream s σ in
      (σ', this, then_ typedArray (fun a => Fulfilled (NewBlob (window σ' a) "")))
    | None =>
    match _bodyArrayBuffer this with
    | Some src => (σ, this, Fulfilled (NewBlob (source_bytes σ src) ""))
    | None =>
    match _bodyFormData this with
    | Some _ =>
      (σ, this, Rejected (NewError "Could not read FormData body as blob"))
    | None =>
      (σ, this,
       Fulfilled (NewBlob (TextEncoder_encode (default [] (_bodyText this))) ""))
    end end end end
  end.

(** [createBlobReader(blob).readAsArrayBuffer()]: the reader loads the
    blob into a new ArrayBuffer. *)
Definition readAsArrayBuffer (b : Blob) (σ : Store) : Store * Promise nat :=
  async (alloc_buffer (blob_bytes b)) σ.

Definition arrayBuffer : Method nat := fun this σ =>
  match __consumed this with
  | (this, Some alreadyConsumed) => (σ, this, Rejected alreadyConsumed)
  | (this, None) =>
    match _bodyReadableStream this with
    | Some s =>
      let '(σ', typedArray) := drainStream s σ in
      (σ', this, then_ typedArray (fun a => Fulfilled (view_buffer a)))
    | None =>
    match _bodyArrayBuffer this with
    | Some (IsView v) =>
      let '(σ', p) :=
        async (ArrayBuffer_slice (view_buffer v) (byteOffset v)
                 (byteOffset v + byteLength v)) σ in
      (σ', this, p)
    | Some (IsArrayBuffer a) => (σ, this, Fulfilled a)
    | None =>
      let '(σ1, this, blob_) := blob this σ in
      match blob_ with
      | Fulfilled b =>
        let '(σ2, p) := readAsArrayBuffer b σ1 in (σ2, this, p)
      | Rejected e => (σ1, this, Rejected e)
      | Pending => (σ1, this, Pending)
      end
    end end
  end.

Section WithPlatform.
Context {platform : Platform}.

(** [readArrayAsText(array)] *)
Definition readArrayAsText (array : bytes) : js_string :=
  TextDecoder_decode array.

(** [createBlobReader(blob).readAsText()] *)
Definition readAsText (b : Blob) : Promise js_string :=
  Fulfilled (TextDecoder_decode (blob_bytes b)).

Definition text : Method js_string := fun this σ =>
  match __consumed this with
  | (this, Some alreadyConsumed) => (σ, this, Rejected alreadyConsumed)
  | (this, None) =>
    match _bodyReadableStream this with
    | Some s =>
      let '(σ', typedArray) := drainStream s σ in
      (σ', this,
       then_ typedArray (fun a => Fulfilled (readArrayAsText (window σ' a))))
    | None =>
    match _bodyBlob this with
    | Some b => (σ, this, readAsText b)
    | None =>
    match _bodyArrayBuffer this with
    | Some src => (σ, this, Fulfilled (readArrayAsText (source_bytes σ src)))
    | None =>
    match _bodyFormData this with
    | Some _ =>
      (σ, this, Rejected (NewError "Could not read FormData body as text"))
    | None => (σ, this, Fulfilled (default [] (_bodyText this)))
    end end end end
  end.

Definition json : Method Json := fun this σ =>
  let '(σ', this, text_) := text this σ in
  (σ', this,
   then_ text_ (fun t =>
     match JSON_parse t with
     | Some v => Fulfilled v
     | None => Rejected NewSyntaxError
     end)).

(** The body of the [forEach] callback of [formData()]: the pair to
    append, if any. *)
Definition parse_pair (pairs : js_string)
  : Completion (option (js_string * js_string)) :=
  match pairs with
  | [] => Normal None
  | _ =>
    let split_ := split 61 pairs in
    let name := plus_to_space (hd [] split_) in
    let value := plus_to_space (join 61 (tl split_)) in
    match decodeURIComponent name, decodeURIComponent value with
    | Some n, Some v => Normal (Some (n, v))
    | _, _ => Throw NewURIError
    end
  end.

Fixpoint parse_pairs (segments : list js_string) (formData : FormData)
  : Promise FormData :=
  match segments with
  | [] => Fulfilled formData
  | pairs :: rest =>
    match parse_pair pairs with
    | Normal (Some entry) => parse_pairs rest (formData ++ [entry])
    | Normal None => parse_pairs rest formData
    | Throw e => Rejected e
    end
  end.

Definition formData : Method FormData := fun this σ =>
  let '(σ', this, text_) := text this σ in
  (σ', this, then_ text_ (fun t => parse_pairs (split 38 (trim t)) [])).

End WithPlatform.

(** [get body()] *)
Definition body (this : Body) : option nat := _bodyReadableStream this.

(** The five conversion methods by name, and what became of the promise
    a call returned. *)
Inductive Conversion := text_ | arrayBuffer_ | blob_ | json_ | formData_.

Inductive Outcome :=
| Succeeded
| Failed (e : JsError)
| Unsettled.

Definition outcome {A} (p : Promise A) : Outcome :=
  match p with
  | Fulfilled _ => Succeeded
  | Rejected e => Failed e
  | Pending => Unsettled
  end.

Definition observe {A} (r : Store * Body * Promise A) : Store * Body * Outcome :=
  let '(σ, this, p) := r in (σ, this, outcome p).

Section Calls.
Context {platform : Platform}.

Definition call (c : Conversion) (this : Body) (σ : Store)
  : Store * Body * Outcome :=
  match c with
  | text_ => observe (text this σ)
  | arrayBuffer_ => observe (arrayBuffer this σ)
  | blob_ => observe (blob this σ)
  | json_ => observe (json this σ)
  | formData_ => observe (formData this σ)
  end.

(** The calls of [cs] made one after the other on the same object. *)
Fixpoint calls (cs : list Conversion) (this : Body) (σ : Store)
  : Store * Body * list Outcome :=
  match cs with
  | [] => (σ, this, [])
  | c :: rest =>
    let '(σ1, this1, o) := call c this σ in
    let '(σ2, this2, os) := calls rest this1 σ1 in
    (σ2, this2, o :: os)
  end.
End Calls.

End Body.

(** Modelled from the spec: [new Headers(init)], the constructor of the
    Headers class.  It allocates a table of its own: empty, a copy of
    another table, or the pairs given, validated as by [append]. *)
Definition new_Headers (init : option HeadersInit) : M nat :=
  fun σ =>
    let table :=
      match init with
      | None => Normal []
      | Some (InitHeaders h) => Normal (default [] (heap_headers σ !! h))
      | Some (InitPairs pairs) => Headers.of_pairs pairs []
      end in
    match table with
    | Normal t =>
      (set_headers (heap_headers σ ++ [t]) σ, Normal (length (heap_headers σ)))
    | Throw e => (σ, Throw e)
    end.

(** Modelled from the spec: [headers.has(name)] and
    [headers.set(name, value)] on the Headers object at address [h]. *)
Definition headers_has (h : nat) (name : string) : M bool :=
  fun σ =>
    match heap_headers σ !! h with
    | Some t => (σ, Normal (Headers.has name t))
    | None => (σ, Throw (NewTypeError "undefined is not an object"))
    end.

Definition headers_set (h : nat) (name value : string) : M unit :=
  fun σ =>
    match heap_headers σ !! h with
    | Some t =>
      match Headers.set name value t with
      | Normal t' => (set_headers (<[h := t']> (heap_headers σ)) σ, Normal ())
      | Throw e => (σ, Throw e)
      end
    | None => (σ, Throw (NewTypeError "undefined is not an object"))
    end.

(** ** Request ([Request.js]) *)

(** The [options] argument; an absent property is [None] ([InitNull] for
    the body). *)
Record Options := {
  opt_method : option string;
  opt_headers : option HeadersInit;
  opt_body : BodyInit;
  opt_credentials : option string;
  opt_signal : option nat
}.

Definition no_options : Options :=
  {| opt_method := None; opt_headers := None; opt_body := InitNull;
     opt_credentials := None; opt_signal := None |}.

(** The [input] argument: the address of a Request, or anything else
    (kept as the url). *)
Inductive Input :=
| InputRequest (r : nat)
| InputOther (url : string).

Module Request.

(** The fields of [this] while the constructor runs; [this_headers] may
    hold the caller's [options.headers] as it was passed. *)
Record Partial := {
  this_url : string;
  this_credentials : option string;
  this_method : option string;
  this_signal : option nat;
  this_headers : option HeadersInit;
  this_body : option Body
}.

Definition mark_used (r : nat) : M unit :=
  fun σ =>
    match heap_requests σ !! r with
    | Some request =>
      (set_requests
         (<[r := set_body (set_bodyUsed true (_body request)) request]>
            (heap_requests σ)) σ,
       Normal ())
    | None => (σ, Throw (NewTypeError "undefined is not an object"))
    end.

(** [__handleRequestInput(request, options)], [request] being the object
    at address [r]. *)
Definition __handleRequestInput (r : nat) (request : Request)
    (options : Options) : M Partial :=
  let* headers_ :=
    match opt_headers options with
    | Some given => ret given
    | None => let* h := new_Headers (Some (InitHeaders (headers request))) in
              ret (InitHeaders h)
    end in
  let this :=
    {| this_url := url request;
       this_credentials := Some (credentials request);
       this_method := Some (method request);
       this_signal := signal request;
       this_headers := Some headers_;
       this_body := None |} in
  if negb (truthy (opt_body options)) && truthy (_bodyInit (_body request))
  then
    let* b := Body.constructor (_bodyInit (_body request)) in
    let* _ := mark_used r in
    ret {| this_url := this_url this;
           this_credentials := this_credentials this;
           this_method := this_method this;
           this_signal := this_signal this;
           this_headers := this_headers this;
           this_body := Some b |}
  else ret this.

Definition alloc (request : Request) : M nat :=
  fun σ =>
    (set_requests (heap_requests σ ++ [request]) σ,
     Normal (length (heap_requests σ))).

(** [this] once [_body] and [method] are assigned. *)
Record Assembled := {
  as_this : Partial;
  as_body : Body;
  as_method : string
}.

(** The first part of the constructor, to the assignment of
    [this.method]: the input is taken over, the body and the method are
    settled. *)
Definition assemble (input : Input) (options : Options) : M Assembled :=
  let* this :=
    match input with
    | InputRequest r =>
      fun σ =>
        match heap_requests σ !! r with
        | Some request =>
          if bodyUsed (_body request)
          then throw (NewTypeError "Already read") σ
          else __handleRequestInput r request options σ
        | None => throw (NewTypeError "undefined is not an object") σ
        end
    | InputOther u =>
      ret {| this_url := u; this_credentials := None; this_method := None;
             this_signal := None; this_headers := None; this_body := None |}
    end in
  let* body_ :=
    match this_body this with
    | Some b => ret b
    | None => Body.constructor (opt_body options)
    end in
  ret {| as_this := this;
         as_body := body_;
         as_method :=
           default (default "GET"%string (this_method this))
             (opt_method options) |}.

(** [new Request(input, options)]: the address of the new object. *)
Definition constructor (input : Input) (options : Options) : M nat :=
  let* assembled := assemble input options in
  let this := as_this assembled in
  let body_ := as_body assembled in
  let method_ := as_method assembled in
  if truthy (_bodyInit body_)
     && existsb (String.eqb method_) ["GET"; "HEAD"]%string
  then throw (NewTypeError "Body not allowed for GET or HEAD requests")
  else if bool_decide (is_Some (_bodyReadableStream body_))
  then throw (NewTypeError "Streaming request bodies is not supported")
  else
    let credentials_ :=
      default (default "same-origin"%string (this_credentials this))
        (opt_credentials options) in
    let* headers_ :=
      match this_headers this with
      | Some h => ret h
      | None => let* h := new_Headers (opt_headers options) in
                ret (InitHeaders h)
      end in
    let signal_ :=
      match opt_signal options with
      | Some s => Some s
      | None => this_signal this
      end in
    match headers_ with
    | InitPairs _ => throw (NewTypeError "this.headers.has is not a function")
    | InitHeaders h =>
      let* has_type := headers_has h "content-type" in
      let* _ :=
        match _mimeType body_ with
        | Some mime =>
          if negb has_type && truthy_string mime
          then headers_set h "content-type" mime
          else ret ()
        | None => ret ()
        end in
      alloc {| url := this_url this;
               method := method_;
               credentials := credentials_;
               headers := h;
               signal := signal_;
               _body := body_ |}
    end.

(** [get bodyUsed()] *)
Definition bodyUsed (r : nat) (σ : Store) : option bool :=
  (fun request => bodyUsed (_body request)) <$> heap_requests σ !! r.

(** [clone()] *)
Definition clone (r : nat) : M nat :=
  fun σ =>
    match heap_requests σ !! r with
    | Some this =>
      constructor (InputRequest r)
        {| opt_method := None; opt_headers := None;
           opt_body := _bodyInit (_body this);
           opt_credentials := None; opt_signal := None |} σ
    | None => throw (NewTypeError "undefined is not an object") σ
    end.

(** A conversion method of the Request at address [r]: the method of its
    [_body]. *)
Definition on_body {A} (m : Body.Method A) (r : nat) (σ : Store)
  : Store * Promise A :=
  match heap_requests σ !! r with
  | Some this =>
    let '(σ', b, p) := m (_body this) σ in
    (set_requests (<[r := set_body b this]> (heap_requests σ')) σ', p)
  | None => (σ, Rejected (NewTypeError "undefined is not an object"))
  end.

Definition blob := on_body Body.blob.
Definition arrayBuffer := on_body Body.arrayBuffer.

Section WithPlatform.
Context {platform : Platform}.
Definition text := on_body Body.text.
Definition json := on_body Body.json.
Definition formData := on_body Body.formData.

Definition call (c : Body.Conversion) (r : nat) (σ : Store)
  : Store * Body.Outcome :=
  match c with
  | Body.text_ => let '(σ', p) := text r σ in (σ', Body.outcome p)
  | Body.arrayBuffer_ => let '(σ', p) := arrayBuffer r σ in (σ', Body.outcome p)
  | Body.blob_ => let '(σ', p) := blob r σ in (σ', Body.outcome p)
  | Body.json_ => let '(σ', p) := json r σ in (σ', Body.outcome p)
  | Body.formData_ => let '(σ', p) := formData r σ in (σ', Body.outcome p)
  end.

Fixpoint calls (cs : list Body.Conversion) (r : nat) (σ : Store)
  : Store * list Body.Outcome :=
  match cs with
  | [] => (σ, [])
  | c :: rest =>
    let '(σ1, o) := call c r σ in
    let '(σ2, os) := calls rest r σ1 in
    (σ2, o :: os)
  end.
End WithPlatform.

End Request.

(** ** Response *)

(** Modelled from the spec: the [options] argument of
    [new Response(body, options)]. *)
Record ResponseInit := {
  init_status : option Z;
  init_statusText : option string;
  init_headers : option HeadersInit;
  init_url : option string
}.

Module Response.

(** Modelled from the spec: the Response class (the sources have its
    tests and its callers only).  A Response owns a Headers object and a
    Body built as for a Request, without the GET/HEAD and stream
    restrictions; its conversion methods are those of its Body. *)
Record t := {
  type : string;
  status : Z;
  ok : bool;
  statusText : string;
  headers : nat;
  url : string;
  _body : Body
}.

Definition set_body (b : Body) (this : t) : t :=
  {| type := type this;
     status := status this;
     ok := ok this;
     statusText := statusText this;
     headers := headers this;
     url := url this;
     _body := b |}.

(** Modelled from the spec: [new Response(body, options)]; status 200
    and an empty status text when omitted, [ok] for 200 to 299, the
    content type inferred from the body when no header gives it. *)
Definition constructor (body : BodyInit) (options : ResponseInit) : M t :=
  let* body_ := Body.constructor body in
  let* h := new_Headers (init_headers options) in
  let* has_type := headers_has h "content-type" in
  let* _ :=
    match _mimeType body_ with
    | Some mime =>
      if negb has_type && truthy_string mime
      then headers_set h "content-type" mime
      else ret ()
    | None => ret ()
    end in
  let status_ := default 200%Z (init_status options) in
  ret {| type := "default";
         status := status_;
         ok := ((200 <=? status_) && (status_ <? 300))%Z;
         statusText := default ""%string (init_statusText options);
         headers := h;
         url := default ""%string (init_url options);
         _body := body_ |}.

(** Modelled from the spec: [get bodyUsed()], the flag of the Body. *)
Definition bodyUsed (this : t) : bool := bodyUsed (_body this).

(** Modelled from the spec: [clone()] fails on a consumed body, and
    otherwise builds a Response from the same payload with a copy of
    the headers. *)
Definition clone (this : t) : M t :=
  if bodyUsed this then throw (NewTypeError "Already read")
  else
    constructor (_bodyInit (_body this))
      {| init_status := Some (status this);
         init_statusText := Some (statusText this);
         init_headers := Some (InitHeaders (headers this));
         init_url := Some (url this) |}.

(** Modelled from the spec: a conversion method of a Response is the
    method of its [_body], and [bodyUsed] is the flag of that Body. *)
Definition on_body {A} (m : Body.Method A) (this : t) (σ : Store)
  : Store * t * Promise A :=
  let '(σ', b, p) := m (_body this) σ in (σ', set_body b this, p).

Definition blob := on_body Body.blob.
Definition arrayBuffer := on_body Body.arrayBuffer.

Section WithPlatform.
Context {platform : Platform}.
Definition text := on_body Body.text.
Definition json := on_body Body.json.
Definition formData := on_body Body.formData.

Definition call (c : Body.Conversion) (this : t) (σ : Store)
  : Store * t * Body.Outcome :=
  let '(σ', b, o) := Body.call c (_body this) σ in (σ', set_body b this, o).

Fixpoint calls (cs : list Body.Conversion) (this : t) (σ : Store)
  : Store * t * list Body.Outcome :=
  match cs with
  | [] => (σ, this, [])
  | c :: rest =>
    let '(σ1, this1, o) := call c this σ in
    let '(σ2, this2, os) := calls rest this1 σ1 in
    (σ2, this2, o :: os)
  end.
End WithPlatform.

(** [get body()] *)
Definition body (this : t) : option nat := Body.body (_body this).

(** Modelled from the spec: a Response has no [slice] method (the
    public surface lists [clone] and the five conversions), so
    [response.slice(0)] is a call on [undefined]. *)
Definition slice (this : t) (start : nat) : M nat :=
  throw (NewTypeError "this._arrayBufferResponse.slice is not a function").

End Response.

(** ** StreamBlobResponse ([src/Body.js], second part) *)

Module StreamBlobResponse.

Section WithPlatform.
Context {platform : Platform}.

Record t := {
  _blobData : NativeData;
  _blobResponse : Response.t;
  _streamResponse : Response.t;
  _blobArrayBuffer : nat;
  _arrayBufferResponse : Response.t
}.

(** What [new StreamBlobResponse(...)] evaluates to: the object, when
    a buffer was passed; otherwise the promise of the blob reader,
    fulfilled with the object once the blob is loaded and the object
    completed, and rejected when completing it throws. *)
Inductive Constructed :=
| Object (this : t)
| Promised (p : Promise t).

(** The part of the constructor that runs once the buffer is there. *)
Definition complete (blobData : NativeData) (blobResponse streamResponse : Response.t)
    (streamController : nat) (options : ResponseInit) (arrayBuffer_ : nat)
  : M t :=
  let* arrayBufferResponse :=
    Response.constructor (InitArrayBuffer arrayBuffer_) options in
  let* _ :=
    (fun σ => enqueue streamController (buffer_bytes σ arrayBuffer_) σ) in
  ret {| _blobData := blobData;
         _blobResponse := blobResponse;
         _streamResponse := streamResponse;
         _blobArrayBuffer := arrayBuffer_;
         _arrayBufferResponse := arrayBufferResponse |}.

(** [new StreamBlobResponse(blobData, stream, streamController, options,
    blobArrayBuffer)] *)
Definition constructor (blobData : NativeData)
    (stream streamController : nat) (options : ResponseInit)
    (blobArrayBuffer : option nat) : M Constructed :=
  let blob := createFromOptions blobData in
  let* blobResponse := Response.constructor (InitBlob blob) options in
  let* streamResponse := Response.constructor (InitStream stream) options in
  match blobArrayBuffer with
  | Some a =>
    let* this :=
      complete blobData blobResponse streamResponse streamController options a in
    ret (Object this)
  | None =>
    fun σ =>
      let '(σ', p) :=
        async
          (let* arrayBuffer := alloc_buffer (blob_bytes blob) in
           complete blobData blobResponse streamResponse streamController
             options arrayBuffer) σ in
      (σ', Normal (Promised p))
  end.

(** [get bodyUsed()] *)
Definition bodyUsed (this : t) : bool :=
  Response.bodyUsed (_blobResponse this)
  || Response.bodyUsed (_streamResponse this)
  || Response.bodyUsed (_arrayBufferResponse this).

(** [clone()] *)
Definition clone (this : t) : M Constructed :=
  let* stream :=
    alloc_stream {| queue := []; status := Readable; locked := false |} in
  let controller := stream in
  let* headers_ :=
    new_Headers (Some (InitHeaders (Response.headers (_blobResponse this)))) in
  let* blobArrayBuffer := Response.slice (_arrayBufferResponse this) 0 in
  constructor (_blobData this) stream controller
    {| init_status := Some (Response.status (_blobResponse this));
       init_statusText := Some (Response.statusText (_blobResponse this));
       init_headers := Some (InitHeaders headers_);
       init_url := Some (Response.url (_blobResponse this)) |}
    (Some blobArrayBuffer).

Definition set_blobResponse (r : Response.t) (this : t) : t :=
  {| _blobData := _blobData this;
     _blobResponse := r;
     _streamResponse := _streamResponse this;
     _blobArrayBuffer := _blobArrayBuffer this;
     _arrayBufferResponse := _arrayBufferResponse this |}.

Definition set_arrayBufferResponse (r : Response.t) (this : t) : t :=
  {| _blobData := _blobData this;
     _blobResponse := _blobResponse this;
     _streamResponse := _streamResponse this;
     _blobArrayBuffer := _blobArrayBuffer this;
     _arrayBufferResponse := r |}.

Definition blob (this : t) (σ : Store) : Store * t * Promise Blob :=
  let '(σ', r, p) := Response.blob (_blobResponse this) σ in
  (σ', set_blobResponse r this, p).

Definition arrayBuffer (this : t) (σ : Store) : Store * t * Promise nat :=
  let '(σ', r, p) := Response.arrayBuffer (_arrayBufferResponse this) σ in
  (σ', set_arrayBufferResponse r this, p).

Definition text (this : t) (σ : Store) : Store * t * Promise js_string :=
  let '(σ', r, p) := Response.text (_arrayBufferResponse this) σ in
  (σ', set_arrayBufferResponse r this, p).

Definition json (this : t) (σ : Store) : Store * t * Promise Json :=
  let '(σ', r, p) := Response.json (_arrayBufferResponse this) σ in
  (σ', set_arrayBufferResponse r this, p).

Definition formData (this : t) (σ : Store) : Store * t * Promise FormData :=
  let '(σ', r, p) := Response.formData (_arrayBufferResponse this) σ in
  (σ', set_arrayBufferResponse r this, p).

Definition call (c : Body.Conversion) (this : t) (σ : Store)
  : Store * t * Body.Outcome :=
  match c with
  | Body.text_ => let '(σ', this', p) := text this σ in (σ', this', Body.outcome p)
  | Body.arrayBuffer_ =>
    let '(σ', this', p) := arrayBuffer this σ in (σ', this', Body.outcome p)
  | Body.blob_ => let '(σ', this', p) := blob this σ in (σ', this', Body.outcome p)
  | Body.json_ => let '(σ', this', p) := json this σ in (σ', this', Body.outcome p)
  | Body.formData_ =>
    let '(σ', this', p) := formData this σ in (σ', this', Body.outcome p)
  end.

Fixpoint calls (cs : list Body.Conversion) (this : t) (σ : Store)
  : Store * t * list Body.Outcome :=
  match cs with
  | [] => (σ, this, [])
  | c :: rest =>
    let '(σ1, this1, o) := call c this σ in
    let '(σ2, this2, os) := calls rest this1 σ1 in
    (σ2, this2, o :: os)
  end.

(** The Response a conversion is passed to, and the object with that
    Response replaced. *)
Definition backing (c : Body.Conversion) (this : t) : Response.t :=
  match c with
  | Body.blob_ => _blobResponse this
  | _ => _arrayBufferResponse this
  end.

Definition put (c : Body.Conversion) (r : Response.t) (this : t) : t :=
  match c with
  | Body.blob_ => set_blobResponse r this
  | _ => set_arrayBufferResponse r this
  end.

(** [get body()], [get status()], [get headers()] *)
Definition body (this : t) : option nat :=
  Response.body (_streamResponse this).
Definition status (this : t) : Z := Response.status (_blobResponse this).
Definition headers (this : t) : nat := Response.headers (_blobResponse this).

End WithPlatform.

End StreamBlobResponse.

(** ** Fetch ([Fetch.js]) *)

(** What [Networking.sendRequest] was called with. *)
Record Submission := {
  sub_method : string;
  sub_trackingName : string;
  sub_url : string;
  sub_headers : list (string * string);
  sub_body : BodyInit;
  sub_responseType : string;
  sub_incrementalEvents : bool;
  sub_timeout : Z;
  sub_withCredentials : bool
}.

Module Fetch.

Section WithPlatform.
Context {platform : Platform}.

(** The fields of a [Fetch] object, then the part of its environment
    it acts on: whether [_abortFn] is registered on the request's
    signal, and the calls made on the transport.
    [_readableStreamController] is the property [__abort] reads; no
    code assigns it. *)
Record t := {
  _request : nat;
  _nativeNetworkSubscriptions : list string;
  _nativeResponseType : string;
  _nativeRequestHeaders : list (string * string);
  _nativeResponse : option NativeData;
  _responseTextOffset : nat;
  _requestId : option nat;
  _response : option Response.t;
  _streamController : option nat;
  _readableStreamController : option nat;
  _deferredPromise : Promise Response.t;
  abort_listener : bool;
  sent : list Submission;
  abortRequest_calls : list (option nat)
}.

Definition set_subscriptions (l : list string) (this : t) : t :=
  {| _request := _request this;
     _nativeNetworkSubscriptions := l;
     _nativeResponseType := _nativeResponseType this;
     _nativeRequestHeaders := _nativeRequestHeaders this;
     _nativeResponse := _nativeResponse this;
     _responseTextOffset := _responseTextOffset this;
     _requestId := _requestId this;
     _response := _response this;
     _streamController := _streamController this;
     _readableStreamController := _readableStreamController this;
     _deferredPromise := _deferredPromise this;
     abort_listener := abort_listener this;
     sent := sent this;
     abortRequest_calls := abortRequest_calls this |}.

Definition set_nativeResponse (d : NativeData) (this : t) : t :=
  {| _request := _request this;
     _nativeNetworkSubscriptions := _nativeNetworkSubscriptions this;
     _nativeResponseType := _nativeResponseType this;
     _nativeRequestHeaders := _nativeRequestHeaders this;
     _nativeResponse := Some d;
     _responseTextOffset := _responseTextOffset this;
     _requestId := _requestId this;
     _response := _response this;
     _streamController := _streamController this;
     _readableStreamController := _readableStreamController this;
     _deferredPromise := _deferredPromise this;
     abort_listener := abort_listener this;
     sent := sent this;
     abortRequest_calls := abortRequest_calls this |}.

Definition set_responseTextOffset (n : nat) (this : t) : t :=
  {| _request := _request this;
     _nativeNetworkSubscriptions := _nativeNetworkSubscriptions this;
     _nativeResponseType := _nativeResponseType this;
     _nativeRequestHeaders := _nativeRequestHeaders this;
     _nativeResponse := _nativeResponse this;
     _responseTextOffset := n;
     _requestId := _requestId this;
     _response := _response this;
     _streamController := _streamController this;
     _readableStreamController := _readableStreamController this;
     _deferredPromise := _deferredPromise this;
     abort_listener := abort_listener this;
     sent := sent this;
     abortRequest_calls := abortRequest_calls this |}.

Definition set_requestId (id : nat) (this : t) : t :=
  {| _request := _request this;
     _nativeNetworkSubscriptions := _nativeNetworkSubscriptions this;
     _nativeResponseType := _nativeResponseType this;
     _nativeRequestHeaders := _nativeRequestHeaders this;
     _nativeResponse := _nativeResponse this;
     _responseTextOffset := _responseTextOffset this;
     _requestId := Some id;
     _response := _response this;
     _streamController := _streamController this;
     _readableStreamController := _readableStreamController this;
     _deferredPromise := _deferredPromise this;
     abort_listener := abort_listener this;
     sent := sent this;
     abortRequest_calls := abortRequest_calls this |}.

Definition set_response (r : Response.t) (this : t) : t :=
  {| _request := _request this;
     _nativeNetworkSubscriptions := _nativeNetworkSubscriptions this;
     _nativeResponseType := _nativeResponseType this;
     _nativeRequestHeaders := _nativeRequestHeaders this;
     _nativeResponse := _nativeResponse this;
     _responseTextOffset := _responseTextOffset this;
     _requestId := _requestId this;
     _response := Some r;
     _streamController := _streamController this;
     _readableStreamController := _readableStreamController this;
     _deferredPromise := _deferredPromise this;
     abort_listener := abort_listener this;
     sent := sent this;
     abortRequest_calls := abortRequest_calls this |}.

Definition set_streamController (c : nat) (this : t) : t :=
  {| _request := _request this;
     _nativeNetworkSubscriptions := _nativeNetworkSubscriptions this;
     _nativeResponseType := _nativeResponseType this;
     _nativeRequestHeaders := _nativeRequestHeaders this;
     _nativeResponse := _nativeResponse this;
     _responseTextOffset := _responseTextOffset this;
     _requestId := _requestId this;
     _response := _response this;
     _streamController := Some c;
     _readableStreamController := _readableStreamController this;
     _deferredPromise := _deferredPromise this;
     abort_listener := abort_listener this;
     sent := sent this;
     abortRequest_calls := abortRequest_calls this |}.

Definition set_deferredPromise (p : Promise Response.t) (this : t) : t :=
  {| _request := _request this;
     _nativeNetworkSubscriptions := _nativeNetworkSubscriptions this;
     _nativeResponseType := _nativeResponseType this;
     _nativeRequestHeaders := _nativeRequestHeaders this;
     _nativeResponse := _nativeResponse this;
     _responseTextOffset := _responseTextOffset this;
     _requestId := _requestId this;
     _response := _response this;
     _streamController := _streamController this;
     _readableStreamController := _readableStreamController this;
     _deferredPromise := p;
     abort_listener := abort_listener this;
     sent := sent this;
     abortRequest_calls := abortRequest_calls this |}.

Definition set_abort_listener (b : bool) (this : t) : t :=
  {| _request := _request this;
     _nativeNetworkSubscriptions := _nativeNetworkSubscriptions this;
     _nativeResponseType := _nativeResponseType this;
     _nativeRequestHeaders := _nativeRequestHeaders this;
     _nativeResponse := _nativeResponse this;
     _responseTextOffset := _responseTextOffset this;
     _requestId := _requestId this;
     _response := _response this;
     _streamController := _streamController this;
     _readableStreamController := _readableStreamController this;
     _deferredPromise := _deferredPromise this;
     abort_listener := b;
     sent := sent this;
     abortRequest_calls := abortRequest_calls this |}.

Definition set_sent (l : list Submission) (this : t) : t :=
  {| _request := _request this;
     _nativeNetworkSubscriptions := _nativeNetworkSubscriptions this;
     _nativeResponseType := _nativeResponseType this;
     _nativeRequestHeaders := _nativeRequestHeaders this;
     _nativeResponse := _nativeResponse this;
     _responseTextOffset := _responseTextOffset this;
     _requestId := _requestId this;
     _response := _response this;
     _streamController := _streamController this;
     _readableStreamController := _readableStreamController this;
     _deferredPromise := _deferredPromise this;
     abort_listener := abort_listener this;
     sent := l;
     abortRequest_calls := abortRequest_calls this |}.

Definition set_abortRequest_calls (l : list (option nat)) (this : t) : t :=
  {| _request := _request this;
     _nativeNetworkSubscriptions := _nativeNetworkSubscriptions this;
     _nativeResponseType := _nativeResponseType this;
     _nativeRequestHeaders := _nativeRequestHeaders this;
     _nativeResponse := _nativeResponse this;
     _responseTextOffset := _responseTextOffset this;
     _requestId := _requestId this;
     _response := _response this;
     _streamController := _streamController this;
     _readableStreamController := _readableStreamController this;
     _deferredPromise := _deferredPromise this;
     abort_listener := abort_listener this;
     sent := sent this;
     abortRequest_calls := l |}.

(** A handler runs on the object and the store; what it did before a
    throw stays done. *)
Definition Handler : Type := t -> Store -> t * Store * Completion unit.

Definition event_names : list string :=
  ["didReceiveNetworkResponse"; "didReceiveNetworkData";
   "didReceiveNetworkIncrementalData"; "didReceiveNetworkDataProgress";
   "didCompleteNetworkResponse"]%string.

Definition __subscribeToNetworkEvents (this : t) : t :=
  set_subscriptions (_nativeNetworkSubscriptions this ++ event_names) this.

Definition __clearNetworkSubscriptions (this : t) : t :=
  set_subscriptions [] this.

(** [_deferredPromise.resolve] and [_deferredPromise.reject]: a settled
    promise stays as it is. *)
Definition resolve (r : Response.t) (this : t) : t :=
  match _deferredPromise this with
  | Pending => set_deferredPromise (Fulfilled r) this
  | _ => this
  end.

Definition reject (e : JsError) (this : t) : t :=
  match _deferredPromise this with
  | Pending => set_deferredPromise (Rejected e) this
  | _ => this
  end.

(** [Networking.abortRequest(this._requestId)] *)
Definition abortRequest (this : t) : t :=
  set_abortRequest_calls (abortRequest_calls this ++ [_requestId this]) this.

Definition __abort : Handler := fun this σ =>
  let this := abortRequest this in
  let this := __clearNetworkSubscriptions this in
  match _readableStreamController this with
  | Some controller =>
    match error controller NewAbortError σ with
    | (σ', Normal _) => (reject NewAbortError this, σ', Normal ())
    | (σ', Throw e) => (this, σ', Throw e)
    end
  | None =>
    (this, σ,
     Throw (NewTypeError
              "undefined is not an object (evaluating 'this._readableStreamController.error')"))
  end.

Definition __doFetch (request : Request) (this : t) : t :=
  let this := __subscribeToNetworkEvents this in
  let this :=
    match signal request with
    | Some _ => set_abort_listener true this
    | None => this
    end in
  set_sent
    (sent this ++
     [{| sub_method := method request;
         sub_trackingName := url request;
         sub_url := url request;
         sub_headers := _nativeRequestHeaders this;
         sub_body := _bodyInit (_body request);
         sub_responseType := _nativeResponseType this;
         sub_incrementalEvents := String.eqb (_nativeResponseType this) "text";
         sub_timeout := 0;
         sub_withCredentials :=
           existsb (String.eqb (credentials request))
             ["include"; "same-origin"]%string |}])
    this.

(** The object with the values its class fields start with, its
    request and the headers copied from it. *)
Definition fields (request : nat)
    (nativeRequestHeaders : list (string * string)) : t :=
  {| _request := request;
     _nativeNetworkSubscriptions := [];
     _nativeResponseType := "blob";
     _nativeRequestHeaders := nativeRequestHeaders;
     _nativeResponse := None;
     _responseTextOffset := 0;
     _requestId := None;
     _response := None;
     _streamController := None;
     _readableStreamController := None;
     _deferredPromise := Pending;
     abort_listener := false;
     sent := [];
     abortRequest_calls := [] |}.

(** [new Fetch(resource, options)]: the object, whose
    [_deferredPromise] is what the caller gets. *)
Definition constructor (resource : Input) (options : Options) : M t :=
  let* r := Request.constructor resource options in
  fun σ =>
    match heap_requests σ !! r with
    | Some request =>
      let this :=
        fields r (default [] (heap_headers σ !! headers request)) in
      let aborted :=
        match signal request with
        | Some s => default false (heap_signals σ !! s)
        | None => false
        end in
      if aborted then (σ, Throw NewAbortError)
      else (σ, Normal (__doFetch request this))
    | None => (σ, Throw (NewTypeError "undefined is not an object"))
    end.

Definition same_request (requestId : nat) (this : t) : bool :=
  bool_decide (Some requestId = _requestId this).

Definition __didCreateRequest (requestId : nat) : Handler := fun this σ =>
  (set_requestId requestId this, σ, Normal ()).

Definition __didReceiveNetworkResponse (requestId : nat) (status : Z)
    (headers : list (string * string)) (url : string) : Handler :=
  fun this σ =>
    if negb (same_request requestId this) then (this, σ, Normal ())
    else
      match alloc_stream {| queue := []; status := Readable; locked := false |} σ with
      | (σ1, Normal streamController) =>
        let this := set_streamController streamController this in
        match Response.constructor (InitStream streamController)
                {| init_status := Some status;
                   init_statusText := None;
                   init_headers := Some (InitPairs headers);
                   init_url := Some url |} σ1 with
        | (σ2, Normal response) =>
          (resolve response (set_response response this), σ2, Normal ())
        | (σ2, Throw e) => (this, σ2, Throw e)
        end
      | (σ1, Throw e) => (this, σ1, Throw e)
      end.

Definition __didReceiveNetworkData (requestId : nat) (response : NativeData)
  : Handler := fun this σ =>
    if negb (same_request requestId this) then (this, σ, Normal ())
    else (set_nativeResponse response this, σ, Normal ()).

(** [this._streamController.enqueue(chunk)] and
    [this._streamController.close()] *)
Definition controller_enqueue (this : t) (chunk : bytes) : M unit :=
  match _streamController this with
  | Some c => enqueue c chunk
  | None => throw (NewTypeError "undefined is not an object (evaluating 'this._streamController.enqueue')")
  end.

Definition controller_close (this : t) : M unit :=
  match _streamController this with
  | Some c => close c
  | None => throw (NewTypeError "undefined is not an object (evaluating 'this._streamController.close')")
  end.

Definition __didReceiveNetworkIncrementalData (requestId : nat)
    (responseText : js_string) (progress total : Z) : Handler :=
  fun this σ =>
    if negb (same_request requestId this) then (this, σ, Normal ())
    else
      let newText := substring (_responseTextOffset this) responseText in
      let typedArray := TextEncoder_encode newText in
      let this := set_responseTextOffset (length responseText) this in
      let '(σ', c) := controller_enqueue this typedArray σ in
      (this, σ', c).

Definition __didReceiveNetworkDataProgress (requestId : nat)
    (loaded total : Z) : Handler := fun this σ => (this, σ, Normal ()).

(** [enqueueSingleChunk] of [__didCompleteNetworkResponse], the blob
    reader taken to load. *)
Definition enqueueSingleChunk (this : t) (nativeResponse : NativeData)
  : M unit :=
  let* _ :=
    if String.eqb (_nativeResponseType this) "base64"
    then controller_enqueue this (toByteArray nativeResponse)
    else ret () in
  let* _ :=
    if String.eqb (_nativeResponseType this) "blob"
    then
      let blob := createFromOptions nativeResponse in
      let* arrayBuffer := alloc_buffer (blob_bytes blob) in
      fun σ => controller_enqueue this (buffer_bytes σ arrayBuffer) σ
    else ret () in
  controller_close this.

Definition truthy_message (errorMessage : option string) : bool :=
  match errorMessage with
  | Some msg => truthy_string msg
  | None => false
  end.

Definition __didCompleteNetworkResponse (requestId : nat)
    (errorMessage : option string) (didTimeOut : bool) : Handler :=
  fun this σ =>
    if negb (same_request requestId this) then (this, σ, Normal ())
    else
      let this := __clearNetworkSubscriptions this in
      let this := set_abort_listener false this in
      if didTimeOut then
        (reject (NewError "Network request timed out") this, σ, Normal ())
      else if truthy_message errorMessage then
        (reject (NewError (String.append "Network request failed: "
                             (default ""%string errorMessage))) this,
         σ, Normal ())
      else
        match _nativeResponse this with
        | Some nativeResponse =>
          if truthy_data nativeResponse then
            (* the promise of the async function is dropped *)
            (this, fst (enqueueSingleChunk this nativeResponse σ), Normal ())
          else
            match _streamController this with
            | Some _ => let '(σ', c) := controller_close this σ in (this, σ', c)
            | None => (this, σ, Normal ())
            end
        | None =>
          match _streamController this with
          | Some _ => let '(σ', c) := controller_close this σ in (this, σ', c)
          | None => (this, σ, Normal ())
          end
        end.

(** A cancellation of the response stream by its reader.  A stream that
    is closed or errored is left alone and its source is not told; a
    stream that can still be read (open, or closing with chunks left) is
    closed, its chunks dropped, and the [cancel] callback given to
    [createStream] runs. *)
Definition stream_cancel : Handler := fun this σ =>
  match _streamController this with
  | Some s =>
    match heap_streams σ !! s with
    | Some st =>
      if can_be_read st then
        (abortRequest (__clearNetworkSubscriptions this),
         set_streams (<[s := {| queue := []; status := Closed;
                                 locked := locked st |}]> (heap_streams σ)) σ,
         Normal ())
      else (this, σ, Normal ())
    | None => (this, σ, Normal ())
    end
  | None => (this, σ, Normal ())
  end.

(** What reaches the object: the callback of [sendRequest], the five
    transport events, the [abort] event of the request's signal, and a
    cancellation of the response stream. *)
Inductive Event :=
| DidCreateRequest (requestId : nat)
| DidReceiveNetworkResponse (requestId : nat) (status : Z)
    (headers : list (string * string)) (url : string)
| DidReceiveNetworkData (requestId : nat) (response : NativeData)
| DidReceiveNetworkIncrementalData (requestId : nat)
    (responseText : js_string) (progress total : Z)
| DidReceiveNetworkDataProgress (requestId : nat) (loaded total : Z)
| DidCompleteNetworkResponse (requestId : nat)
    (errorMessage : option string) (didTimeOut : bool)
| Abort
| Cancel.

Definition subscribed (eventName : string) (this : t) : bool :=
  existsb (String.eqb eventName) (_nativeNetworkSubscriptions this).

(** An event runs its handler when the listener for it is still
    registered. *)
Definition deliver (ev : Event) : Handler := fun this σ =>
  match ev with
  | DidCreateRequest requestId => __didCreateRequest requestId this σ
  | DidReceiveNetworkResponse requestId status headers url =>
    if subscribed "didReceiveNetworkResponse" this
    then __didReceiveNetworkResponse requestId status headers url this σ
    else (this, σ, Normal ())
  | DidReceiveNetworkData requestId response =>
    if subscribed "didReceiveNetworkData" this
    then __didReceiveNetworkData requestId response this σ
    else (this, σ, Normal ())
  | DidReceiveNetworkIncrementalData requestId responseText progress total =>
    if subscribed "didReceiveNetworkIncrementalData" this
    then __didReceiveNetworkIncrementalData requestId responseText
           progress total this σ
    else (this, σ, Normal ())
  | DidReceiveNetworkDataProgress requestId loaded total =>
    if subscribed "didReceiveNetworkDataProgress" this
    then __didReceiveNetworkDataProgress requestId loaded total this σ
    else (this, σ, Normal ())
  | DidCompleteNetworkResponse requestId errorMessage didTimeOut =>
    if subscribed "didCompleteNetworkResponse" this
    then __didCompleteNetworkResponse requestId errorMessage didTimeOut this σ
    else (this, σ, Normal ())
  | Abort =>
    if abort_listener this then __abort this σ else (this, σ, Normal ())
  | Cancel => stream_cancel this σ
  end.

(** The incremental-data events of a transfer, one for each
    cumulative text with its progress counters. *)
Definition incremental_events (requestId : nat)
    (items : list (js_string * (Z * Z))) : list Event :=
  map (fun item =>
         DidReceiveNetworkIncrementalData requestId (fst item)
           (fst (snd item)) (snd (snd item))) items.

(** A sequence of events, each delivered in turn; a throw in a
    listener does not stop the later ones. *)
Fixpoint run (evs : list Event) (this : t) (σ : Store) : t * Store :=
  match evs with
  | [] => (this, σ)
  | ev :: rest =>
    let '(this', σ', _) := deliver ev this σ in run rest this' σ'
  end.

End WithPlatform.

End Fetch.


(** ** A host for the concrete runs *)

(** A platform whose decoder reads each byte as one code unit and whose
    parsers accept everything; the transport's payload is a blob. *)
Definition latin1_platform : Platform :=
  {| TextDecoder_decode := fun bs => bs;
     Json := js_string;
     JSON_parse := fun s => Some s;
     decodeURIComponent := fun s => Some s;
     NativeData := Blob;
     truthy_data := fun _ => true;
     toByteArray := blob_bytes;
     createFromOptions := fun b => b |}.

(** The part of the store the header operations leave alone. *)
Definition same_but_headers (σ σ' : Store) : Prop :=
  heap_buffers σ' = heap_buffers σ /\
  heap_streams σ' = heap_streams σ /\
  heap_requests σ' = heap_requests σ /\
  heap_signals σ' = heap_signals σ.




(** Two stores for the concrete runs: after
    [new Request(url, {method: "POST", body: "I work out"})] and after
    [new Request(url)], each from the empty store. *)
Definition post_options : Options :=
  {| opt_method := Some "POST"%string; opt_headers := None;
     opt_body := InitString (js "I work out");
     opt_credentials := None; opt_signal := None |}.

Definition store_with_post_request : Store :=
  Eval vm_compute in
    fst (Request.constructor (InputOther "https://fetch.spec.whatwg.org/")
           post_options empty_store).


(** A buffer or a view as a body value, and the ArrayBuffer the caller
    holds through it. *)
Definition init_of_source (src : BufferSource) : BodyInit :=
  match src with
  | IsArrayBuffer a => InitArrayBuffer a
  | IsView v => InitView v
  end.

Definition source_buffer (src : BufferSource) : nat :=
  match src with
  | IsArrayBuffer a => a
  | IsView v => view_buffer v
  end.

(** Texts each of which extends the one before, [previous] first. *)
Fixpoint cumulative (previous : js_string) (texts : list js_string) : Prop :=
  match texts with
  | [] => True
  | t :: rest => previous `prefix_of` t /\ cumulative t rest
  end.

(** What each text adds to the one before. *)
Fixpoint new_suffixes (previous : js_string) (texts : list js_string)
  : list js_string :=
  match texts with
  | [] => []
  | t :: rest => substring (length previous) t :: new_suffixes t rest
  end.

(** Two exchanges for the concrete runs.  [in_flight]: a fetch of a url
    with a signal that is not aborted, once the transport has named the
    request.  [streaming]: a fetch of a url whose response, of status
    500, has arrived. *)
Definition in_flight : @Fetch.t latin1_platform * Store :=
  Eval vm_compute in
    let σ0 := {| heap_buffers := []; heap_streams := []; heap_headers := [];
                 heap_requests := []; heap_signals := [false] |} in
    match @Fetch.constructor latin1_platform
            (InputOther "http://localhost:8082/slow")
            {| opt_method := None; opt_headers := None; opt_body := InitNull;
               opt_credentials := None; opt_signal := Some 0 |} σ0 with
    | (σ, Normal this) => Fetch.run [Fetch.DidCreateRequest 1] this σ
    | (σ, Throw _) => (Fetch.fields 0 [], σ)
    end.

Definition streaming : @Fetch.t latin1_platform * Store :=
  Eval vm_compute in
    match @Fetch.constructor latin1_platform
            (InputOther "http://localhost:8082/boom") no_options empty_store with
    | (σ, Normal this) =>
      Fetch.run [Fetch.DidCreateRequest 1;
                 Fetch.DidReceiveNetworkResponse 1 500
                   [("Content-Type", "text/plain")]%string
                   "http://localhost:8082/boom"] this σ
    | (σ, Throw _) => (Fetch.fields 0 [], σ)
    end.

(** What one event can do to the outcome: nothing, or settle a pending
    outcome, in one of four ways. *)
Definition settles {platform : Platform} (ev : Fetch.Event)
    (this this' : Fetch.t) : Prop :=
  Fetch._deferredPromise this = Pending /\
  ((exists requestId status headers url response,
       ev = Fetch.DidReceiveNetworkResponse requestId status headers url /\
       Fetch._deferredPromise this' = Fulfilled response /\
       Response.status response = status)
   \/ (exists requestId errorMessage,
          ev = Fetch.DidCompleteNetworkResponse requestId errorMessage true /\
          Fetch._deferredPromise this'
          = Rejected (NewError "Network request timed out"))
   \/ (exists requestId msg,
          ev = Fetch.DidCompleteNetworkResponse requestId (Some msg) false /\
          msg <> ""%string /\
          Fetch._deferredPromise this'
          = Rejected (NewError (String.append "Network request failed: " msg)))
   \/ (ev = Fetch.Abort /\
       Fetch._readableStreamController this <> None /\
       Fetch._deferredPromise this' = Rejected NewAbortError)).

(** A string in which the code unit [sep] does not occur. *)
Definition lacks (sep : N) (s : js_string) : Prop := Forall (fun c => c <> sep) s.

(** A segment of a form-encoded text: empty, or a name, "=" and a value. *)
Definition segment (field : option (js_string * js_string)) : js_string :=
  match field with
  | None => []
  | Some (name, value) => name ++ 61%N :: value
  end.

(** The fields a list of segments stands for, "+" read as a space and
    each half percent-decoded; [None] when a half cannot be decoded. *)
Fixpoint decode_fields {platform : Platform}
    (fields : list (option (js_string * js_string))) : option FormData :=
  match fields with
  | [] => Some []
  | None :: rest => decode_fields rest
  | Some (name, value) :: rest =>
    match decodeURIComponent (plus_to_space name),
          decodeURIComponent (plus_to_space value),
          decode_fields rest with
    | Some n, Some v, Some out => Some ((n, v) :: out)
    | _, _, _ => None
    end
  end.

(** A body value the Request constructor accepts: not a stream, and not a
    view without [slice]. *)
Definition acceptable_body (body : BodyInit) : Prop :=
  match body with
  | InitStream _ => False
  | InitView v => view_kind v = TypedArray
  | _ => True
  end.

(** What holds of a Request the constructor has built, in a store [σ]. *)
Definition well_formed_request (σ : Store) (request : Request) : Prop :=
  acceptable_body (_bodyInit (_body request)) /\
  _bodyReadableStream (_body request) = None /\
  truthy (_bodyInit (_body request))
  && existsb (String.eqb (method request)) ["GET"; "HEAD"]%string = false /\
  headers request < length (heap_headers σ).

(** The table of a new Request once the content type of its body is
    filled in: the entry is added when the table has none and the body has
    a non-empty type. *)
Definition with_content_type (mime : option string) (t : HeaderTable)
  : HeaderTable :=
  match mime with
  | Some m =>
    if negb (Headers.has "content-type" t) && truthy_string m
    then t ++ [("content-type"%string, m)]
    else t
  | None => t
  end.

(** The request id a transport event carries. *)
Definition transport_id {platform : Platform} (ev : Fetch.Event) : option nat :=
  match ev with
  | Fetch.DidReceiveNetworkResponse requestId _ _ _
  | Fetch.DidReceiveNetworkData requestId _
  | Fetch.DidReceiveNetworkIncrementalData requestId _ _ _
  | Fetch.DidReceiveNetworkDataProgress requestId _ _
  | Fetch.DidCompleteNetworkResponse requestId _ _ => Some requestId
  | _ => None
  end.

(** The chunks a completion without error enqueues when the response
    type is "blob": the bytes of the blob of the payload, if one came and
    is truthy. *)
Definition payload_chunks {platform : Platform} (data : option NativeData)
  : list bytes :=
  match data with
  | Some d => if truthy_data d then [blob_bytes (createFromOptions d)] else []
  | None => []
  end.

(** The data event of a payload, if there is one. *)
Definition data_events {platform : Platform} (requestId : nat)
    (data : option NativeData) : list Fetch.Event :=
  match data with
  | Some d => [Fetch.DidReceiveNetworkData requestId d]
  | None => []
  end.

(** * Properties *)

(** Both errors the sources raise for a second read are of the kind the
    specification calls AlreadyReadError: the one of [Body.__consumed] and
    the one of the Request constructor. *)
Lemma already_read_errors :
  AlreadyReadError (NewError "Already read")
  /\ AlreadyReadError (NewTypeError "Already read").
Proof. unfold AlreadyReadError; auto. Qed.

Ltac split_cases :=
  repeat match goal with
         | |- context [match ?x with _ => _ end] => destruct x; simpl
         end.

(** ** Body: the consumption guard *)

Section BodyGuard.
Context {platform : Platform}.


Lemma consumed_false (this : Body) :
  bodyUsed this = false ->
  Body.__consumed this = (set_bodyUsed true this, None).
Proof. intros Hu; unfold Body.__consumed; rewrite Hu; reflexivity. Qed.


Lemma text_unconsumed (this : Body) (σ : Store) :
  bodyUsed this = false ->
  exists σ1 p, Body.text this σ = (σ1, set_bodyUsed true this, p).
Proof.
  intros Hu; unfold Body.text; rewrite (consumed_false _ Hu); simpl.
  split_cases; eauto.
Qed.

(** A conversion on an unconsumed body sets the flag, and touches no
    other field. *)
Lemma call_unconsumed (c : Body.Conversion) (this : Body) (σ : Store) :
  bodyUsed this = false ->
  exists σ1 o, Body.call c this σ = (σ1, set_bodyUsed true this, o).
Proof.
  intros Hu; destruct c; unfold Body.call, Body.json, Body.formData.
  - destruct (text_unconsumed this σ Hu) as (σ1 & p & ->); simpl; eauto.
  - unfold Body.arrayBuffer, Body.blob; rewrite (consumed_false _ Hu); simpl.
    split_cases; eauto.
  - unfold Body.blob; rewrite (consumed_false _ Hu); simpl.
    split_cases; eauto.
  - destruct (text_unconsumed this σ Hu) as (σ1 & p & ->); simpl; eauto.
  - destruct (text_unconsumed this σ Hu) as (σ1 & p & ->); simpl; eauto.
Qed.


(** The conversions leave the requests of the store alone. *)
Lemma drainStream_requests (s : nat) (σ : Store) :
  heap_requests (fst (drainStream s σ)) = heap_requests σ.
Proof. unfold drainStream; split_cases; reflexivity. Qed.

Lemma call_requests (c : Body.Conversion) (this : Body) (σ : Store) :
  heap_requests (fst (fst (Body.call c this σ))) = heap_requests σ.
Proof.
  assert (Ht : heap_requests (fst (fst (Body.text this σ))) = heap_requests σ).
  { unfold Body.text; destruct (Body.__consumed this) as [b [e|]]; simpl;
      [reflexivity|].
    destruct (_bodyReadableStream b) as [s|]; simpl.
    - pose proof (drainStream_requests s σ) as Hd.
      destruct (drainStream s σ); exact Hd.
    - split_cases; reflexivity. }
  assert (Hb : forall b, heap_requests (fst (fst (Body.blob b σ))) = heap_requests σ).
  { intros b0; unfold Body.blob; destruct (Body.__consumed b0) as [b [e|]];
      simpl; [reflexivity|].
    destruct (_bodyBlob b); simpl; [reflexivity|].
    destruct (_bodyReadableStream b) as [s|]; simpl.
    - pose proof (drainStream_requests s σ) as Hd.
      destruct (drainStream s σ); exact Hd.
    - split_cases; reflexivity. }
  destruct c; unfold Body.call, Body.json, Body.formData.
  - destruct (Body.text this σ) as [[? ?] ?]; exact Ht.
  - unfold Body.arrayBuffer; destruct (Body.__consumed this) as [b [e|]];
      simpl; [reflexivity|].
    destruct (_bodyReadableStream b) as [s|]; simpl.
    + pose proof (drainStream_requests s σ) as Hd.
      destruct (drainStream s σ); exact Hd.
    + destruct (_bodyArrayBuffer b) as [[a|v]|]; simpl; try reflexivity.
      specialize (Hb b).
      destruct (Body.blob b σ) as [[σ1 b1] [bl| |]]; simpl in *; exact Hb.
  - specialize (Hb this). destruct (Body.blob this σ) as [[? ?] ?]; exact Hb.
  - destruct (Body.text this σ) as [[? ?] ?]; exact Ht.
  - destruct (Body.text this σ) as [[? ?] ?]; exact Ht.
Qed.







End BodyGuard.

(** ** Request: the conversions of its Body *)



Section RequestGuard.
Context {platform : Platform}.

Lemma Request_call_eq (c : Body.Conversion) (r : nat) (request : Request)
    (σ : Store) :
  heap_requests σ !! r = Some request ->
  Request.call c r σ
  = let '(σ1, b, o) := Body.call c (_body request) σ in
    (set_requests (<[r := set_body b request]> (heap_requests σ1)) σ1, o).
Proof.
  intros Hr; destruct c; unfold Request.call, Request.text, Request.json,
    Request.formData, Request.arrayBuffer, Request.blob, Request.on_body,
    Body.call, Body.observe; rewrite Hr.
  - destruct (Body.text (_body request) σ) as [[? ?] ?]; reflexivity.
  - destruct (Body.arrayBuffer (_body request) σ) as [[? ?] ?]; reflexivity.
  - destruct (Body.blob (_body request) σ) as [[? ?] ?]; reflexivity.
  - destruct (Body.json (_body request) σ) as [[? ?] ?]; reflexivity.
  - destruct (Body.formData (_body request) σ) as [[? ?] ?]; reflexivity.
Qed.



Lemma Request_call_unconsumed (c : Body.Conversion) (r : nat)
    (request : Request) (σ : Store) :
  heap_requests σ !! r = Some request ->
  bodyUsed (_body request) = false ->
  exists σ1 o,
    Request.call c r σ = (σ1, o) /\
    heap_requests σ1 !! r
    = Some (set_body (set_bodyUsed true (_body request)) request).
Proof.
  intros Hr Hu; rewrite (Request_call_eq c r request σ Hr).
  pose proof (call_requests c (_body request) σ) as Hq.
  destruct (call_unconsumed c (_body request) σ Hu) as (σ1 & o & Hc).
  rewrite Hc in *; simpl in *.
  eexists _, _; split; [reflexivity|]; simpl.
  apply list_lookup_insert_eq. rewrite Hq.
  apply lookup_lt_Some in Hr; exact Hr.
Qed.


End RequestGuard.

(** ** Response and StreamBlobResponse: the conversions of their Bodies *)

Section ResponseGuard.
Context {platform : Platform}.




Lemma Response_call_unconsumed (c : Body.Conversion) (r : Response.t)
    (σ : Store) :
  Response.bodyUsed r = false ->
  exists σ1 o,
    Response.call c r σ
    = (σ1, Response.set_body (set_bodyUsed true (Response._body r)) r, o).
Proof.
  intros Hu; unfold Response.call.
  destruct (call_unconsumed c _ σ Hu) as (σ1 & o & ->); eauto.
Qed.

Lemma StreamBlobResponse_call_eq (c : Body.Conversion)
    (this : StreamBlobResponse.t) (σ : Store) :
  StreamBlobResponse.call c this σ
  = let '(σ1, r, o) := Response.call c (StreamBlobResponse.backing c this) σ in
    (σ1, StreamBlobResponse.put c r this, o).
Proof.
  destruct c; unfold StreamBlobResponse.call, StreamBlobResponse.text,
    StreamBlobResponse.arrayBuffer, StreamBlobResponse.blob,
    StreamBlobResponse.json, StreamBlobResponse.formData,
    Response.call, Response.text, Response.arrayBuffer, Response.blob,
    Response.json, Response.formData, Response.on_body,
    Body.call, Body.observe; simpl.
  - destruct (Body.text _ σ) as [[? ?] ?]; reflexivity.
  - destruct (Body.arrayBuffer _ σ) as [[? ?] ?]; reflexivity.
  - destruct (Body.blob _ σ) as [[? ?] ?]; reflexivity.
  - destruct (Body.json _ σ) as [[? ?] ?]; reflexivity.
  - destruct (Body.formData _ σ) as [[? ?] ?]; reflexivity.
Qed.




Lemma bodyUsed_put (c : Body.Conversion) (r : Response.t)
    (this : StreamBlobResponse.t) :
  Response.bodyUsed r = true ->
  StreamBlobResponse.bodyUsed (StreamBlobResponse.put c r this) = true.
Proof.
  intros Hu; destruct c; unfold StreamBlobResponse.bodyUsed; simpl;
    rewrite Hu; rewrite ?orb_true_r; reflexivity.
Qed.

End ResponseGuard.

(** ** C1: single consumption *)


(** The body of [new Body("Hello world!")]. *)
Lemma hello_body_constructed :
  Body.constructor (InitString (js "Hello world!")) empty_store
  = (empty_store,
     Normal (Body.set_mimeType "text/plain;charset=UTF-8"
               (Body.set_text (js "Hello world!")
                  (new_body (InitString (js "Hello world!")))))).
Proof. reflexivity. Qed.



(** On a StreamBlobResponse whose three Responses are unconsumed, [blob()]
    and then [text()] both pass the guard: they go to different Bodies. *)
Lemma StreamBlobResponse_blob_then_text {platform : Platform}
    (this : StreamBlobResponse.t) (σ : Store) :
  Response.bodyUsed (StreamBlobResponse._blobResponse this) = false ->
  Response.bodyUsed (StreamBlobResponse._arrayBufferResponse this) = false ->
  exists σ1 this1 o1 σ2 this2 o2,
    StreamBlobResponse.call Body.blob_ this σ = (σ1, this1, o1) /\
    StreamBlobResponse.bodyUsed this1 = true /\
    StreamBlobResponse.call Body.text_ this1 σ1 = (σ2, this2, o2) /\
    Response._body (StreamBlobResponse._arrayBufferResponse this2)
    = set_bodyUsed true (Response._body (StreamBlobResponse._arrayBufferResponse this)).
Proof.
  intros Hb Ha.
  destruct (Response_call_unconsumed Body.blob_ _ σ Hb) as (σ1 & o1 & Hc1).
  destruct (Response_call_unconsumed Body.text_ _ σ1 Ha) as (σ2 & o2 & Hc2).
  eexists σ1, _, o1, σ2, _, o2; repeat apply conj.
  - rewrite StreamBlobResponse_call_eq; simpl StreamBlobResponse.backing.
    rewrite Hc1; reflexivity.
  - apply bodyUsed_put; reflexivity.
  - rewrite StreamBlobResponse_call_eq; simpl StreamBlobResponse.backing.
    rewrite Hc2; reflexivity.
  - reflexivity.
Qed.

(** ** C7: text and arrayBuffer of a body built from a string *)

(** C7 on the code: for a body built from any string, [text()] is
    fulfilled with that string, and [arrayBuffer()], called first on a
    body built the same way, is rejected with "Already read": it marks the
    body consumed and then calls [blob()], whose guard sees the mark. *)
Theorem arrayBuffer_of_text_is_rejected {platform : Platform}
    (s : js_string) (σ : Store) :
  exists this,
    Body.constructor (InitString s) σ = (σ, Normal this) /\
    bodyUsed this = false /\
    Body.text this σ = (σ, set_bodyUsed true this, Fulfilled s) /\
    Body.arrayBuffer this σ
    = (σ, set_bodyUsed true this, Rejected (NewError "Already read")).
Proof.
  destruct s as [|u s]; eexists; repeat apply conj; reflexivity.
Qed.

Lemma arrayBuffer_of_hello_world :
  let this := Body.set_mimeType "text/plain;charset=UTF-8"
                (Body.set_text (js "Hello world!")
                   (new_body (InitString (js "Hello world!")))) in
  Body.constructor (InitString (js "Hello world!")) empty_store
  = (empty_store, Normal this) /\
  Body.arrayBuffer this empty_store
  = (empty_store, set_bodyUsed true this, Rejected (NewError "Already read")).
Proof. split; reflexivity. Qed.

(** ** Request: the shape of a construction *)

Lemma bind_Normal {A B} (m : M A) (k : A -> M B) (σ σ' : Store) (b : B) :
  bind m k σ = (σ', Normal b) ->
  exists σ1 a, m σ = (σ1, Normal a) /\ k a σ1 = (σ', Normal b).
Proof.
  unfold bind; destruct (m σ) as [σ1 [a|e]]; [eauto | discriminate].
Qed.


Lemma bind_step {A B} (m : M A) (k : A -> M B) (σ σ1 : Store) (a : A) :
  m σ = (σ1, Normal a) -> bind m k σ = k a σ1.
Proof. intros Hm; unfold bind; rewrite Hm; reflexivity. Qed.

Lemma bind_stop {A B} (m : M A) (k : A -> M B) (σ σ1 : Store) (e : JsError) :
  m σ = (σ1, Throw e) -> bind m k σ = (σ1, Throw e).
Proof. intros Hm; unfold bind; rewrite Hm; reflexivity. Qed.

Lemma same_but_headers_refl (σ : Store) : same_but_headers σ σ.
Proof. repeat split. Qed.

Lemma same_but_headers_trans (σ1 σ2 σ3 : Store) :
  same_but_headers σ1 σ2 -> same_but_headers σ2 σ3 -> same_but_headers σ1 σ3.
Proof.
  unfold same_but_headers; intros (? & ? & ? & ?) (? & ? & ? & ?);
    repeat split; congruence.
Qed.

Lemma new_Headers_frame (init : option HeadersInit) (σ σ' : Store)
    (c : Completion nat) :
  new_Headers init σ = (σ', c) -> same_but_headers σ σ'.
Proof.
  unfold new_Headers; intros Heq.
  destruct (match init with
            | Some (InitHeaders h) => _ | Some (InitPairs pairs) => _
            | None => _ end); inversion Heq; subst; repeat split.
Qed.

Lemma new_Headers_Normal (init : option HeadersInit) (σ σ' : Store) (h : nat) :
  new_Headers init σ = (σ', Normal h) ->
  h = length (heap_headers σ) /\
  exists table, heap_headers σ' = heap_headers σ ++ [table] /\
    match init with
    | None => table = []
    | Some (InitHeaders h0) => table = default [] (heap_headers σ !! h0)
    | Some (InitPairs pairs) => Headers.of_pairs pairs [] = Normal table
    end.
Proof.
  unfold new_Headers; intros Heq.
  destruct init as [[h0|pairs]|].
  - inversion Heq; subst; split; [reflexivity|]; eexists; split; reflexivity.
  - destruct (Headers.of_pairs pairs []) as [table|e]; inversion Heq; subst.
    split; [reflexivity|]; eexists; split; reflexivity.
  - inversion Heq; subst; split; [reflexivity|]; eexists; split; reflexivity.
Qed.

Lemma headers_has_frame (h : nat) (name : string) (σ σ' : Store)
    (c : Completion bool) :
  headers_has h name σ = (σ', c) -> σ' = σ.
Proof.
  unfold headers_has; destruct (heap_headers σ !! h); intros Heq;
    inversion Heq; reflexivity.
Qed.

Lemma headers_set_frame (h : nat) (name value : string) (σ σ' : Store)
    (c : Completion unit) :
  headers_set h name value σ = (σ', c) ->
  same_but_headers σ σ' /\
  length (heap_headers σ') = length (heap_headers σ) /\
  forall h', h' <> h -> heap_headers σ' !! h' = heap_headers σ !! h'.
Proof.
  unfold headers_set; destruct (heap_headers σ !! h) as [t|];
    [destruct (Headers.set name value t)|]; intros Heq; inversion Heq; subst;
    simpl; repeat split; auto.
  - apply length_insert.
  - intros h' Hne; apply list_lookup_insert_ne; auto.
Qed.

(** A construction that returns went through the assembly, passed the two
    checks, touched only headers from there on and allocated the object
    last. *)
Lemma constructor_Normal (input : Input) (options : Options) (σ σ' : Store)
    (r : nat) :
  Request.constructor input options σ = (σ', Normal r) ->
  exists a σ1 σ2 h,
    Request.assemble input options σ = (σ1, Normal a) /\
    truthy (_bodyInit (Request.as_body a))
    && existsb (String.eqb (Request.as_method a)) ["GET"; "HEAD"]%string = false /\
    _bodyReadableStream (Request.as_body a) = None /\
    same_but_headers σ1 σ2 /\
    match Request.this_headers (Request.as_this a) with
    | Some given => given = InitHeaders h /\ length (heap_headers σ2) = length (heap_headers σ1)
    | None => h = length (heap_headers σ1) /\ length (heap_headers σ2) = S h
    end /\
    (forall h', h' <> h -> h' < length (heap_headers σ1) ->
       heap_headers σ2 !! h' = heap_headers σ1 !! h') /\
    r = length (heap_requests σ1) /\
    σ' = set_requests
           (heap_requests σ2 ++
            [{| url := Request.this_url (Request.as_this a);
                method := Request.as_method a;
                credentials :=
                  default (default "same-origin"%string
                             (Request.this_credentials (Request.as_this a)))
                    (opt_credentials options);
                headers := h;
                signal := match opt_signal options with
                          | Some s => Some s
                          | None => Request.this_signal (Request.as_this a)
                          end;
                _body := Request.as_body a |}]) σ2.
Proof.
  unfold Request.constructor; intros Hc.
  apply bind_Normal in Hc as (σ1 & a & Ha & Hc).
  exists a, σ1.
  destruct (truthy _ && existsb _ _) eqn:Hcheck; [discriminate Hc|].
  destruct (_bodyReadableStream (Request.as_body a)) as [s|] eqn:Hstream;
    [discriminate Hc|]; simpl in Hc.
  apply bind_Normal in Hc as (σh & hv & Hh & Hc).
  destruct hv as [h|pairs]; [|discriminate Hc].
  apply bind_Normal in Hc as (σ2' & has_type & Hhas & Hc).
  apply headers_has_frame in Hhas as Heq; subst σ2'.
  apply bind_Normal in Hc as (σ2 & [] & Hset & Hc).
  unfold Request.alloc in Hc; inversion Hc; subst; clear Hc.
  exists σ2, h.
  assert (Hset' : same_but_headers σh σ2 /\
                  length (heap_headers σ2) = length (heap_headers σh) /\
                  forall h', h' <> h -> heap_headers σ2 !! h' = heap_headers σh !! h').
  { destruct (_mimeType (Request.as_body a)) as [mime|];
      [destruct (negb has_type && truthy_string mime)|];
      try (inversion Hset; subst; repeat split; auto; fail).
    eapply headers_set_frame; eauto. }
  destruct Hset' as (Hf2 & Hlen2 & Hother2).
  split; [exact Ha|]. split; [reflexivity|]. split; [reflexivity|].
  destruct (Request.this_headers (Request.as_this a)) as [given|] eqn:Hgiven.
  - inversion Hh; subst.
    split; [exact Hf2|]. split; [auto|]. split; [intros h' Hne _; auto|].
    split; [|reflexivity].
    destruct Hf2 as (_ & _ & -> & _); reflexivity.
  - apply bind_Normal in Hh as (σn & h0 & Hnew & Hret).
    inversion Hret; subst; clear Hret.
    pose proof (new_Headers_frame _ _ _ _ Hnew) as Hf1.
    apply new_Headers_Normal in Hnew as (-> & table & Htable & _).
    split; [eapply same_but_headers_trans; eauto|].
    split; [split; [reflexivity|rewrite Hlen2, Htable, length_app; simpl; lia]|].
    split.
    + intros h' Hne Hlt; rewrite Hother2 by auto.
      rewrite Htable; apply lookup_app_l; auto.
    + split; [|reflexivity].
      destruct Hf1 as (_ & _ & Hr1 & _); destruct Hf2 as (_ & _ & Hr2 & _).
      congruence.
Qed.

(** What [new Body(body)] yields, and what it does to the store: it may
    allocate one ArrayBuffer and changes nothing else. *)
Lemma Body_constructor_Normal (body : BodyInit) (σ σ' : Store) (this : Body) :
  Body.constructor body σ = (σ', Normal this) ->
  bodyUsed this = false /\
  _bodyInit this = body /\
  heap_streams σ' = heap_streams σ /\
  heap_headers σ' = heap_headers σ /\
  heap_requests σ' = heap_requests σ /\
  heap_signals σ' = heap_signals σ /\
  (forall a, a < length (heap_buffers σ) ->
     heap_buffers σ' !! a = heap_buffers σ !! a).
Proof.
  unfold Body.constructor; destruct (negb (truthy body)).
  { intros Heq; inversion Heq; subst; repeat split. }
  destruct body as [|s|b|f|s|a|v|s|s]; simpl; intros Heq;
    try (inversion Heq; subst; repeat split; fail).
  - unfold bind, ArrayBuffer_slice0, alloc_buffer in Heq; simpl in Heq.
    inversion Heq; subst; simpl; repeat split.
    intros a' Hlt; apply lookup_app_l; exact Hlt.
  - unfold bind, View_slice0 in Heq; destruct (view_kind v); [|discriminate Heq].
    unfold bind, alloc_buffer in Heq; simpl in Heq.
    inversion Heq; subst; simpl; repeat split.
    intros a' Hlt; apply lookup_app_l; exact Hlt.
Qed.

Lemma Body_constructor_frame (body : BodyInit) (σ σ' : Store)
    (c : Completion Body) :
  Body.constructor body σ = (σ', c) ->
  heap_headers σ' = heap_headers σ /\ heap_requests σ' = heap_requests σ.
Proof.
  unfold Body.constructor; destruct (negb (truthy body)).
  { intros Heq; inversion Heq; subst; repeat split. }
  destruct body as [|s|b|f|s|a|v|s|s]; simpl; intros Heq;
    try (inversion Heq; subst; repeat split; fail).
  unfold bind, View_slice0 in Heq; destruct (view_kind v).
  - unfold bind, ret, alloc_buffer in Heq; simpl in Heq.
    inversion Heq; subst; simpl; repeat split.
  - inversion Heq; subst; repeat split.
Qed.

(** The assembly from an input that is not a Request. *)
Lemma assemble_other (u : string) (options : Options) (σ σ1 : Store)
    (a : Request.Assembled) :
  Request.assemble (InputOther u) options σ = (σ1, Normal a) ->
  Body.constructor (opt_body options) σ = (σ1, Normal (Request.as_body a)) /\
  Request.as_method a = default "GET"%string (opt_method options) /\
  Request.as_this a
  = {| Request.this_url := u; Request.this_credentials := None;
       Request.this_method := None; Request.this_signal := None;
       Request.this_headers := None; Request.this_body := None |}.
Proof.
  unfold Request.assemble; intros Ha.
  apply bind_Normal in Ha as (σ0 & this & Hthis & Ha).
  inversion Hthis; subst; clear Hthis.
  apply bind_Normal in Ha as (σ2 & b & Hb & Ha); simpl in Hb.
  inversion Ha; subst; simpl; auto.
Qed.

(** The assembly from a Request: the source is unconsumed; when the
    options bring no body and the source has one, a Body is built from the
    source's body value and the source is marked consumed; otherwise the
    source is left as it is and the Body is built from the options. *)
Lemma assemble_request (r1 : nat) (options : Options) (σ σ1 : Store)
    (a : Request.Assembled) :
  Request.assemble (InputRequest r1) options σ = (σ1, Normal a) ->
  exists request σh σb,
    heap_requests σ !! r1 = Some request /\
    bodyUsed (_body request) = false /\
    Request.as_method a = default (method request) (opt_method options) /\
    same_but_headers σ σh /\
    (forall h, h < length (heap_headers σ) ->
       heap_headers σh !! h = heap_headers σ !! h) /\
    match Request.this_headers (Request.as_this a) with
    | Some (InitHeaders h) =>
      match opt_headers options with
      | Some given => given = InitHeaders h /\ σh = σ
      | None => h = length (heap_headers σ) /\
                heap_headers σh
                = heap_headers σ ++ [default [] (heap_headers σ !! headers request)]
      end
    | Some (InitPairs pairs) => opt_headers options = Some (InitPairs pairs)
    | None => False
    end /\
    heap_headers σ1 = heap_headers σh /\
    if negb (truthy (opt_body options)) && truthy (_bodyInit (_body request))
    then
      Body.constructor (_bodyInit (_body request)) σh
      = (σb, Normal (Request.as_body a)) /\
      σ1 = set_requests
             (<[r1 := set_body (set_bodyUsed true (_body request)) request]>
                (heap_requests σb)) σb
    else
      Body.constructor (opt_body options) σh = (σ1, Normal (Request.as_body a)) /\
      σb = σh.
Proof.
  unfold Request.assemble; intros Ha.
  apply bind_Normal in Ha as (σ0 & this & Hthis & Ha).
  destruct (heap_requests σ !! r1) as [request|] eqn:Hr; [|discriminate Hthis].
  destruct (bodyUsed (_body request)) eqn:Hu; [discriminate Hthis|].
  unfold Request.__handleRequestInput in Hthis.
  apply bind_Normal in Hthis as (σh & headers_ & Hh & Hthis).
  assert (Hhead : same_but_headers σ σh /\
            (forall h, h < length (heap_headers σ) ->
               heap_headers σh !! h = heap_headers σ !! h) /\
            match headers_ with
            | InitHeaders h =>
              match opt_headers options with
              | Some given => given = InitHeaders h /\ σh = σ
              | None => h = length (heap_headers σ) /\
                        heap_headers σh
                        = heap_headers σ ++ [default [] (heap_headers σ !! headers request)]
              end
            | InitPairs pairs => opt_headers options = Some (InitPairs pairs)
            end).
  { destruct (opt_headers options) as [given|].
    - inversion Hh; subst; split; [apply same_but_headers_refl|].
      split; [auto|]. destruct headers_; auto.
    - apply bind_Normal in Hh as (σn & h & Hnew & Hret).
      inversion Hret; subst; clear Hret.
      pose proof (new_Headers_frame _ _ _ _ Hnew) as Hf.
      apply new_Headers_Normal in Hnew as (-> & table & Htable & ->).
      split; [exact Hf|]. split; [|auto].
      intros h Hlt; rewrite Htable; apply lookup_app_l; exact Hlt. }
  destruct Hhead as (Hf & Hold & Hhv).
  exists request, σh.
  destruct (negb (truthy (opt_body options)) && truthy (_bodyInit (_body request)))
    eqn:Hmove.
  - apply bind_Normal in Hthis as (σb & b & Hb & Hthis).
    apply bind_Normal in Hthis as (σm & [] & Hm & Hthis).
    inversion Hthis; subst; clear Hthis; simpl in Ha.
    inversion Ha; subst; clear Ha; simpl.
    exists σb.
    pose proof (Body_constructor_Normal _ _ _ _ Hb) as (_ & _ & _ & Hbh & Hbr & _).
    unfold Request.mark_used in Hm.
    assert (Hr' : heap_requests σb !! r1 = Some request).
    { rewrite Hbr. destruct Hf as (_ & _ & -> & _); exact Hr. }
    rewrite Hr' in Hm; inversion Hm; subst; clear Hm; simpl.
    repeat (split; [first [reflexivity | assumption]|]);
      first [reflexivity | assumption].
  - inversion Hthis; subst; clear Hthis; simpl in Ha.
    apply bind_Normal in Ha as (σb & b & Hb & Ha).
    inversion Ha; subst; clear Ha; simpl.
    eexists.
    pose proof (Body_constructor_Normal _ _ _ _ Hb) as (_ & _ & _ & Hbh & _).
    repeat (split; [first [reflexivity | assumption]|]);
      first [reflexivity | assumption].
Qed.

(** Where the new object is, once the constructor has returned. *)
Lemma constructor_lookup (input : Input) (options : Options) (σ σ' : Store)
    (r : nat) :
  Request.constructor input options σ = (σ', Normal r) ->
  exists a σ1 h request,
    Request.assemble input options σ = (σ1, Normal a) /\
    r = length (heap_requests σ1) /\
    heap_requests σ' = heap_requests σ1 ++ [request] /\
    heap_requests σ' !! r = Some request /\
    heap_buffers σ' = heap_buffers σ1 /\
    method request = Request.as_method a /\
    headers request = h /\
    _body request = Request.as_body a.
Proof.
  intros Hc.
  apply constructor_Normal in Hc
    as (a & σ1 & σ2 & h & Ha & _ & _ & (Hb & _ & Hr & _) & _ & _ & -> & ->).
  eexists a, σ1, h, _; split; [exact Ha|]; split; [reflexivity|]; simpl.
  rewrite Hr; split; [reflexivity|]; split.
  - rewrite lookup_app_r, Nat.sub_diag by lia; reflexivity.
  - repeat split; auto.
Qed.

(** The method the constructor settles on. *)
Lemma constructor_method (input : Input) (options : Options) (σ σ' : Store)
    (r : nat) :
  Request.constructor input options σ = (σ', Normal r) ->
  exists request,
    heap_requests σ' !! r = Some request /\
    method request
    = match opt_method options with
      | Some m => m
      | None =>
        match input with
        | InputRequest r1 => default "GET"%string (method <$> heap_requests σ !! r1)
        | InputOther _ => "GET"%string
        end
      end.
Proof.
  intros Hc.
  apply constructor_lookup in Hc
    as (a & σ1 & h & request & Ha & _ & _ & Hl & _ & Hm & _).
  exists request; split; [exact Hl|]; rewrite Hm.
  destruct input as [r1|u].
  - apply assemble_request in Ha as (source & σh & σb & Hs & _ & -> & _).
    rewrite Hs; destruct (opt_method options); reflexivity.
  - apply assemble_other in Ha as (_ & -> & _).
    destruct (opt_method options); reflexivity.
Qed.

(** ** C8: the method of a Request *)

(** C8, as the code has it.  The method of a constructed Request is the
    string [options.method] as it was given, with no change of case;
    without one it is the method of the source Request when the input is a
    Request, and "GET" otherwise. *)
Theorem method_as_given (input : Input) (options : Options) (σ σ' : Store)
    (r : nat) :
  Request.constructor input options σ = (σ', Normal r) ->
  exists request,
    heap_requests σ' !! r = Some request /\
    method request
    = match opt_method options with
      | Some m => m
      | None =>
        match input with
        | InputRequest r1 => default "GET"%string (method <$> heap_requests σ !! r1)
        | InputOther _ => "GET"%string
        end
      end.
Proof. exact (constructor_method input options σ σ' r). Qed.

Lemma method_as_given_witness :
  let options := {| opt_method := Some "post"%string; opt_headers := None;
                    opt_body := InitString (js "I work out");
                    opt_credentials := None; opt_signal := None |} in
  exists σ' request,
    Request.constructor (InputOther "https://fetch.spec.whatwg.org/") options
      empty_store = (σ', Normal 0) /\
    heap_requests σ' !! 0 = Some request /\
    method request = "post"%string.
Proof.
  intros options.
  destruct (Request.constructor (InputOther "https://fetch.spec.whatwg.org/")
              options empty_store) as [σ' c] eqn:Hc.
  assert (Hr : c = Normal 0) by (vm_compute in Hc; congruence).
  subst c.
  destruct (method_as_given _ options empty_store σ' 0 Hc) as (request & Hl & Hm).
  exists σ', request; auto.
Defined.

(** C8 as stated fails: a method given in lower case stays in lower case. *)
Lemma lowercase_method_is_kept :
  ~ (forall (u m : string) (options : Options) (σ σ' : Store) (r : nat)
            (request : Request),
        opt_method options = Some m ->
        Request.constructor (InputOther u) options σ = (σ', Normal r) ->
        heap_requests σ' !! r = Some request ->
        method request = toUpperCase m).
Proof.
  intros Hclaim.
  pose (options := {| opt_method := Some "post"%string; opt_headers := None;
                      opt_body := InitNull;
                      opt_credentials := None; opt_signal := None |}).
  destruct (Request.constructor (InputOther "u") options empty_store)
    as [σ' c] eqn:Hc.
  assert (Hr : c = Normal 0) by (vm_compute in Hc; congruence).
  subst c.
  destruct (constructor_method _ options empty_store σ' 0 Hc) as (request & Hl & Hm).
  specialize (Hclaim "u"%string "post"%string options empty_store σ' 0 request
                eq_refl Hc Hl).
  rewrite Hm in Hclaim; discriminate Hclaim.
Qed.

(** ** C9: no body on GET and HEAD *)

Lemma Body_constructor_falsy (body : BodyInit) (σ : Store) :
  truthy body = false ->
  Body.constructor body σ = (σ, Normal (Body.set_text [] (new_body body))).
Proof. intros Hf; unfold Body.constructor; rewrite Hf; reflexivity. Qed.








(** ** C3: a Request made from a Request *)






Section RequestFromRequest.
Context {platform : Platform}.

Lemma constructor_consumed_source (r1 : nat) (source : Request)
    (options : Options) (σ : Store) :
  heap_requests σ !! r1 = Some source ->
  bodyUsed (_body source) = true ->
  Request.constructor (InputRequest r1) options σ
  = (σ, Throw (NewTypeError "Already read")).
Proof.
  intros Hs Hu; unfold Request.constructor, Request.assemble, bind, throw.
  rewrite Hs, Hu; reflexivity.
Qed.




End RequestFromRequest.



(** ** C4: clone *)

(** [Request.clone()]: it throws "Already read" on a consumed body; when
    it returns, the original is as it was, and the clone is another object
    with a Body of its own built from the same body value and a Headers
    object of its own. *)
Lemma Request_clone_independent (r : nat) (this : Request) (σ : Store) :
  heap_requests σ !! r = Some this ->
  (bodyUsed (_body this) = true ->
   Request.clone r σ = (σ, Throw (NewTypeError "Already read")))
  /\ (forall σ' r',
         Request.clone r σ = (σ', Normal r') ->
         bodyUsed (_body this) = false /\
         r' <> r /\
         heap_requests σ' !! r = Some this /\
         exists clone,
           heap_requests σ' !! r' = Some clone /\
           bodyUsed (_body clone) = false /\
           _bodyInit (_body clone) = _bodyInit (_body this) /\
           method clone = method this /\
           headers clone = length (heap_headers σ) /\
           forall h, h < length (heap_headers σ) ->
             heap_headers σ' !! h = heap_headers σ !! h).
Proof.
  intros Hs; unfold Request.clone; rewrite Hs; split.
  - apply constructor_consumed_source; exact Hs.
  - intros σ' r' Hc.
    apply constructor_Normal in Hc
      as (a & σ1 & σ2 & h & Ha & _ & _ & Hsame & Hh & Hold2 & -> & ->).
    apply assemble_request in Ha
      as (source & σh & σb & Hs' & Hu & Hmeth & Hf & Hold & Hhv & Hhh & Hmove).
    rewrite Hs in Hs'; inversion Hs'; subst source; clear Hs'.
    simpl in Hmove, Hmeth, Hhv.
    replace (negb (truthy (_bodyInit (_body this)))
             && truthy (_bodyInit (_body this))) with false in Hmove
      by (destruct (truthy _); reflexivity).
    destruct Hmove as (Hb & ->).
    apply Body_constructor_Normal in Hb as (Hu2 & Hinit & _ & _ & Hbr & _).
    destruct Hf as (_ & _ & Hfr & _), Hsame as (_ & _ & Hr2 & _).
    pose proof (lookup_lt_Some _ _ _ Hs) as Hlt.
    assert (Hlen : length (heap_requests σ1) = length (heap_requests σ))
      by congruence.
    simpl; rewrite Hr2.
    split; [exact Hu|]. split; [lia|]. split.
    { rewrite lookup_app_l by lia. congruence. }
    eexists; split; [apply list_lookup_middle; reflexivity|]; simpl.
    split; [exact Hu2|]. split; [exact Hinit|]. split; [exact Hmeth|].
    destruct (Request.this_headers (Request.as_this a)) as [[h1|pairs]|];
      try discriminate Hhv; try contradiction.
    destruct Hhv as (-> & Htable), Hh as (Hgiven & Hlen2).
    inversion Hgiven; subst h.
    split; [reflexivity|].
    intros h' Hlt'.
    rewrite Hold2 by (rewrite ?Hhh, ?Htable, ?length_app; simpl; lia).
    rewrite Hhh; apply Hold; exact Hlt'.
Qed.

(** Consuming one Request of the store leaves every other Request as it
    was. *)
Lemma Request_call_other {platform : Platform} (c : Body.Conversion)
    (r r' : nat) (σ : Store) :
  r' <> r ->
  heap_requests (fst (Request.call c r σ)) !! r' = heap_requests σ !! r'.
Proof.
  intros Hne.
  destruct (heap_requests σ !! r) as [request|] eqn:Hr.
  - rewrite (Request_call_eq c r request σ Hr).
    pose proof (call_requests c (_body request) σ) as Hq.
    destruct (Body.call c (_body request) σ) as [[σ1 b] o]; simpl in *.
    rewrite list_lookup_insert_ne by auto. congruence.
  - destruct c; unfold Request.call, Request.text, Request.json,
      Request.formData, Request.arrayBuffer, Request.blob, Request.on_body;
      rewrite Hr; reflexivity.
Qed.

(** C4 on the code: [StreamBlobResponse.clone()] throws, whatever the state
    of the body.  It calls [slice] on the buffer-backed Response, which
    has no such method; the buffer to copy is in [_blobArrayBuffer]. *)
Theorem StreamBlobResponse_clone_throws {platform : Platform}
    (this : StreamBlobResponse.t) (σ : Store) :
  exists σ',
    StreamBlobResponse.clone this σ
    = (σ', Throw (NewTypeError "this._arrayBufferResponse.slice is not a function")).
Proof.
  unfold StreamBlobResponse.clone, bind, alloc_stream, new_Headers,
    Response.slice, throw; simpl; eauto.
Qed.

(** ** C10: a Body built from a buffer holds a copy *)

Lemma buffer_bytes_write_other (σ : Store) (a a' : nat) (bs : bytes) :
  a' <> a -> buffer_bytes (write_buffer a bs σ) a' = buffer_bytes σ a'.
Proof.
  intros Hne; unfold buffer_bytes, write_buffer; simpl.
  rewrite list_lookup_insert_ne by auto; reflexivity.
Qed.

Lemma buffer_bytes_alloc (σ : Store) (bs : bytes) :
  buffer_bytes (set_buffers (heap_buffers σ ++ [bs]) σ) (length (heap_buffers σ))
  = bs.
Proof.
  unfold buffer_bytes; simpl.
  rewrite list_lookup_middle by reflexivity; reflexivity.
Qed.

Lemma window_whole (σ : Store) (k : ViewKind) (a len : nat) :
  window σ {| view_kind := k; view_buffer := a; byteOffset := 0;
              byteLength := len |}
  = take len (buffer_bytes σ a).
Proof. reflexivity. Qed.

Lemma window_length (σ : Store) (v : View) : length (window σ v) <= byteLength v.
Proof. unfold window; rewrite length_take; lia. Qed.

(** A Body can be built from an ArrayBuffer and from a typed array; the
    constructor throws on a DataView, which has no [slice]. *)
Lemma Body_constructor_of_source (src : BufferSource) (σ : Store) :
  match src with
  | IsView {| view_kind := DataView |} =>
    Body.constructor (init_of_source src) σ
    = (σ, Throw (NewTypeError "body.slice is not a function"))
  | _ => exists σ1 this, Body.constructor (init_of_source src) σ = (σ1, Normal this)
  end.
Proof.
  destruct src as [a|[[|] a off len]]; simpl;
    unfold Body.constructor, bind, ArrayBuffer_slice0, View_slice0, bind;
    simpl; eauto.
Qed.

(** A Body that the constructor returns from an ArrayBuffer or from a
    view, which it does for ArrayBuffers and typed arrays, holds a copy
    made at construction: whatever the caller writes afterwards into the
    buffer it passed, [text()] decodes the bytes the value showed at
    construction, and [arrayBuffer()] yields an ArrayBuffer that is not
    the caller's and holds those same bytes, the caller's buffer keeping
    what the caller wrote. *)
Theorem body_copies_buffer {platform : Platform} (src : BufferSource)
    (σ σ1 : Store) (this : Body) (bs : bytes) :
  source_buffer src < length (heap_buffers σ) ->
  Body.constructor (init_of_source src) σ = (σ1, Normal this) ->
  let original := source_bytes σ src in
  let σ2 := write_buffer (source_buffer src) bs σ1 in
  Body.text this σ2
  = (σ2, set_bodyUsed true this, Fulfilled (TextDecoder_decode original))
  /\ exists σ3 a',
      Body.arrayBuffer this σ2 = (σ3, set_bodyUsed true this, Fulfilled a') /\
      a' <> source_buffer src /\
      buffer_bytes σ3 a' = original /\
      buffer_bytes σ3 (source_buffer src) = bs.
Proof.
  intros Hvalid Hc original σ2; subst original σ2.
  destruct src as [a|v]; simpl in *.
  - unfold Body.constructor, bind, ret, ArrayBuffer_slice0, alloc_buffer in Hc;
      simpl in Hc; inversion Hc; subst; clear Hc.
    unfold Body.text, Body.arrayBuffer; simpl.
    rewrite buffer_bytes_write_other by lia.
    rewrite buffer_bytes_alloc.
    split; [reflexivity|].
    eexists _, _; split; [reflexivity|]. split; [lia|]. split.
    + rewrite buffer_bytes_write_other by lia. apply buffer_bytes_alloc.
    + unfold buffer_bytes, write_buffer; simpl.
      rewrite list_lookup_insert_eq by (rewrite length_app; simpl; lia).
      reflexivity.
  - unfold Body.constructor, bind, View_slice0 in Hc; simpl in Hc.
    destruct (view_kind v); [|discriminate Hc].
    unfold bind, ret, alloc_buffer in Hc; simpl in Hc.
    inversion Hc; subst; clear Hc.
    unfold Body.text, Body.arrayBuffer; simpl.
    assert (Hw : forall σ',
               buffer_bytes σ' (length (heap_buffers σ)) = window σ v ->
               take (byteLength v) (buffer_bytes σ' (length (heap_buffers σ)))
               = window σ v).
    { intros σ' ->; apply take_ge, window_length. }
    assert (Hcopy : buffer_bytes
                      (write_buffer (view_buffer v) bs
                         (set_buffers (heap_buffers σ ++ [window σ v]) σ))
                      (length (heap_buffers σ)) = window σ v).
    { rewrite buffer_bytes_write_other by lia. apply buffer_bytes_alloc. }
    split.
    + rewrite window_whole, (Hw _ Hcopy); reflexivity.
    + unfold async, ArrayBuffer_slice, alloc_buffer; simpl.
      eexists _, _; split; [reflexivity|].
      rewrite length_insert, length_app; simpl.
      split; [lia|]. split.
      * unfold buffer_bytes at 1; simpl.
        rewrite list_lookup_middle
          by (rewrite length_insert, length_app; simpl; lia); simpl.
        replace (byteLength v - 0) with (byteLength v) by lia.
        apply Hw; exact Hcopy.
      * unfold buffer_bytes; simpl.
        rewrite lookup_app_l
          by (rewrite length_insert, length_app; simpl; lia).
        rewrite list_lookup_insert_eq by (rewrite length_app; simpl; lia).
        reflexivity.
Qed.

Lemma body_copies_buffer_witness :
  let σ := set_buffers [[72; 105]%N] empty_store in
  exists σ1 this,
    Body.constructor (InitArrayBuffer 0) σ = (σ1, Normal this) /\
    @Body.text latin1_platform this (write_buffer 0 [0; 0]%N σ1)
    = (write_buffer 0 [0; 0]%N σ1, set_bodyUsed true this, Fulfilled [72; 105]%N).
Proof.
  intros σ; eexists _, _; split; [reflexivity|].
  refine (proj1 (@body_copies_buffer latin1_platform (IsArrayBuffer 0) σ _ _
                   [0; 0]%N _ eq_refl)).
  simpl; lia.
Defined.

(** C10 on the code.  A DataView is an ArrayBufferView, and yet no copy
    of it is made and no Body: the constructor calls [body.slice(0)],
    which a DataView does not have, and throws a TypeError, whatever the
    view shows; so does the Request constructor given such a body,
    whatever the method.  The copy is made for ArrayBuffers and typed
    arrays only. *)
Theorem DataView_body_is_not_copied (v : View) (σ : Store) :
  view_kind v = DataView ->
  Body.constructor (InitView v) σ
  = (σ, Throw (NewTypeError "body.slice is not a function"))
  /\ (forall (u : string) (options : Options),
         opt_body options = InitView v ->
         Request.constructor (InputOther u) options σ
         = (σ, Throw (NewTypeError "body.slice is not a function")))
  /\ (forall (a : nat) (typedArray : View),
         view_kind typedArray = TypedArray ->
         (exists σ1 this,
             Body.constructor (InitArrayBuffer a) σ = (σ1, Normal this))
         /\ (exists σ1 this,
                Body.constructor (InitView typedArray) σ = (σ1, Normal this))).
Proof.
  intros Hkind.
  assert (Hb : Body.constructor (InitView v) σ
               = (σ, Throw (NewTypeError "body.slice is not a function"))).
  { unfold Body.constructor; simpl.
    unfold bind, View_slice0; rewrite Hkind; reflexivity. }
  split; [exact Hb|]. split.
  - intros u options Hv.
    unfold Request.constructor, Request.assemble.
    unfold bind at 1 2, ret at 1; simpl.
    rewrite Hv, (bind_stop _ _ _ _ _ Hb); reflexivity.
  - intros a typedArray Htyped; split.
    + exact (Body_constructor_of_source (IsArrayBuffer a) σ).
    + pose proof (Body_constructor_of_source (IsView typedArray) σ) as Hs.
      destruct typedArray as [k a' off len]; simpl in Htyped; subst k.
      exact Hs.
Qed.

Lemma DataView_body_is_not_copied_witness :
  let σ := set_buffers [js "name=Hubot"] empty_store in
  let body := {| view_kind := DataView; view_buffer := 0; byteOffset := 0;
                 byteLength := 10 |} in
  Request.constructor (InputOther "/request")
    {| opt_method := Some "POST"%string; opt_headers := None;
       opt_body := InitView body;
       opt_credentials := None; opt_signal := None |} σ
  = (σ, Throw (NewTypeError "body.slice is not a function")).
Proof.
  intros σ body.
  exact (proj1 (proj2 (DataView_body_is_not_copied body σ eq_refl))
           "/request"%string
           {| opt_method := Some "POST"%string; opt_headers := None;
              opt_body := InitView body;
              opt_credentials := None; opt_signal := None |} eq_refl).
Defined.

(** ** C6: incremental text *)

Lemma code_points_app_bounded (n : nat) :
  forall a b : js_string,
    length a <= n -> well_formed a = true ->
    code_points (a ++ b) = code_points a ++ code_points b.
Proof.
  induction n as [|n IH]; intros a b Hlen Hwf.
  - destruct a; [reflexivity | simpl in Hlen; lia].
  - destruct a as [|u rest]; [reflexivity|].
    simpl in Hlen, Hwf; simpl.
    destruct (is_high_surrogate u).
    + destruct rest as [|l rest']; [discriminate Hwf|].
      apply andb_true_iff in Hwf as [Hl Hwf]; simpl; rewrite Hl.
      simpl in Hlen; rewrite (IH rest' b) by (auto; lia); reflexivity.
    + apply andb_true_iff in Hwf as [Hl Hwf].
      apply negb_true_iff in Hl; rewrite Hl.
      rewrite (IH rest b) by (auto; lia); reflexivity.
Qed.

(** The encoder distributes over a concatenation whose first part pairs
    all its surrogates. *)
Lemma TextEncoder_encode_app (a b : js_string) :
  well_formed a = true ->
  TextEncoder_encode (a ++ b) = TextEncoder_encode a ++ TextEncoder_encode b.
Proof.
  intros Hwf; unfold TextEncoder_encode.
  rewrite (code_points_app_bounded (length a) a b) by auto.
  apply flat_map_app.
Qed.

Lemma encode_new_suffix (previous t : js_string) :
  previous `prefix_of` t -> well_formed previous = true ->
  TextEncoder_encode previous
  ++ TextEncoder_encode (substring (length previous) t)
  = TextEncoder_encode t.
Proof.
  intros [k ->] Hwf; unfold substring.
  rewrite drop_app_length, TextEncoder_encode_app by exact Hwf; reflexivity.
Qed.

Lemma last_cons {A} (x d : A) (l : list A) :
  List.last (x :: l) d = List.last l x.
Proof.
  revert x d; induction l as [|y l IH]; intros x d; [reflexivity|].
  change (List.last (x :: y :: l) d) with (List.last (y :: l) d).
  rewrite (IH y d), (IH y x); reflexivity.
Qed.

Lemma concat_new_suffixes (texts : list js_string) :
  forall previous,
    cumulative previous texts ->
    well_formed previous = true ->
    Forall (fun t => well_formed t = true) texts ->
    TextEncoder_encode previous
    ++ concat (map TextEncoder_encode (new_suffixes previous texts))
    = TextEncoder_encode (List.last texts previous).
Proof.
  induction texts as [|t rest IH]; intros previous Hcum Hwf Hall.
  - simpl; apply app_nil_r.
  - destruct Hcum as [Hpre Hcum]; inversion Hall as [|? ? Hwt Hrest]; subst.
    rewrite last_cons; cbn [new_suffixes map concat].
    rewrite app_assoc, (encode_new_suffix previous t Hpre Hwf).
    exact (IH t Hcum Hwt Hrest).
Qed.

Section IncrementalText.
Context {platform : Platform}.

(** One incremental-data event: the new suffix is encoded and enqueued,
    the offset moves to the end of the text. *)
Lemma incremental_step (this : Fetch.t) (σ : Store) (requestId c : nat)
    (st : ReadableStream) (responseText : js_string) (progress total : Z) :
  Fetch._requestId this = Some requestId ->
  Fetch.subscribed "didReceiveNetworkIncrementalData" this = true ->
  Fetch._streamController this = Some c ->
  heap_streams σ !! c = Some st ->
  status st = Readable ->
  Fetch.deliver
    (Fetch.DidReceiveNetworkIncrementalData requestId responseText progress total)
    this σ
  = (Fetch.set_responseTextOffset (length responseText) this,
     set_streams
       (<[c := {| queue := queue st ++
                           [TextEncoder_encode
                              (substring (Fetch._responseTextOffset this)
                                 responseText)];
                  status := Readable;
                  locked := locked st |}]> (heap_streams σ)) σ,
     Normal ()).
Proof.
  intros Hid Hsub Hc Hst Hread; simpl; rewrite Hsub.
  unfold Fetch.__didReceiveNetworkIncrementalData, Fetch.same_request.
  rewrite Hid, bool_decide_eq_true_2 by reflexivity; simpl.
  unfold Fetch.controller_enqueue; simpl; rewrite Hc.
  unfold enqueue, can_close_or_enqueue; rewrite Hst, Hread; reflexivity.
Qed.

Lemma run_incremental (items : list (js_string * (Z * Z))) :
  forall (this : Fetch.t) (σ : Store) (requestId c : nat) (st : ReadableStream),
    Fetch._requestId this = Some requestId ->
    Fetch.subscribed "didReceiveNetworkIncrementalData" this = true ->
    Fetch._streamController this = Some c ->
    heap_streams σ !! c = Some st ->
    status st = Readable ->
    forall previous,
      Fetch._responseTextOffset this = length previous ->
      exists this' σ' st',
        Fetch.run (Fetch.incremental_events requestId items) this σ = (this', σ') /\
        heap_streams σ' !! c = Some st' /\
        queue st'
        = queue st
          ++ map TextEncoder_encode (new_suffixes previous (map fst items)) /\
        Fetch._responseTextOffset this'
        = length (List.last (map fst items) previous).
Proof.
  induction items as [|[t [progress total]] rest IH];
    intros this σ requestId c st Hid Hsub Hc Hst Hread previous Hoff.
  - exists this, σ, st; simpl; rewrite app_nil_r; auto.
  - unfold Fetch.incremental_events; cbn [map fst snd Fetch.run].
    fold (Fetch.incremental_events requestId rest).
    rewrite (incremental_step this σ requestId c st t progress total
               Hid Hsub Hc Hst Hread).
    match goal with
    | |- context [Fetch.run _ ?this1 ?σ1] =>
      destruct (IH this1 σ1 requestId c
                  {| queue := queue st ++
                              [TextEncoder_encode
                                 (substring (Fetch._responseTextOffset this) t)];
                     status := Readable;
                     locked := locked st |}
                  Hid Hsub Hc
                  ltac:(simpl; apply list_lookup_insert_eq;
                        apply lookup_lt_Some in Hst; exact Hst)
                  eq_refl t eq_refl)
        as (this' & σ' & st' & Hrun & Hst' & Hq & Hoff')
    end.
    exists this', σ', st'; split; [exact Hrun|]. split; [exact Hst'|].
    split.
    + rewrite Hq; simpl; rewrite Hoff, <- app_assoc; reflexivity.
    + rewrite Hoff'; cbn [map fst]; rewrite last_cons; reflexivity.
Qed.

(** C6, as the code has it.  With the stream of the response open and
    the offset at the start, a run of incremental-data events for this
    request whose texts each extend the one before enqueues, at each
    event, the UTF-8 encoding of what the text adds; when each text pairs
    all its surrogates, the chunks put end to end are the UTF-8 encoding
    of the last text. *)
Theorem incremental_chunks_encode_final_text (this : Fetch.t) (σ : Store)
    (requestId c : nat) (st : ReadableStream)
    (items : list (js_string * (Z * Z))) :
  Fetch._requestId this = Some requestId ->
  Fetch.subscribed "didReceiveNetworkIncrementalData" this = true ->
  Fetch._streamController this = Some c ->
  heap_streams σ !! c = Some st ->
  status st = Readable ->
  Fetch._responseTextOffset this = 0 ->
  cumulative [] (map fst items) ->
  exists this' σ' st',
    Fetch.run (Fetch.incremental_events requestId items) this σ = (this', σ') /\
    heap_streams σ' !! c = Some st' /\
    queue st'
    = queue st ++ map TextEncoder_encode (new_suffixes [] (map fst items)) /\
    (Forall (fun t => well_formed t = true) (map fst items) ->
     concat (map TextEncoder_encode (new_suffixes [] (map fst items)))
     = TextEncoder_encode (List.last (map fst items) [])).
Proof.
  intros Hid Hsub Hc Hst Hread Hoff Hcum.
  destruct (run_incremental items this σ requestId c st Hid Hsub Hc Hst Hread
              [] Hoff) as (this' & σ' & st' & Hrun & Hst' & Hq & _).
  exists this', σ', st'; repeat (split; [assumption|]).
  intros Hall.
  exact (concat_new_suffixes (map fst items) [] Hcum eq_refl Hall).
Qed.

End IncrementalText.

(** A cut inside a surrogate pair: each half is encoded as U+FFFD, where
    the pair encodes as one code point of four bytes. *)
Lemma split_surrogate_pair :
  TextEncoder_encode [0xD83D]%N ++ TextEncoder_encode [0xDE00]%N
  = [239; 191; 189; 239; 191; 189]%N
  /\ TextEncoder_encode [0xD83D; 0xDE00]%N = [240; 159; 152; 128]%N.
Proof. split; reflexivity. Qed.

Lemma incremental_chunks_encode_final_text_witness :
  let items := [(js "he", (2, 5)%Z); (js "hello", (5, 5)%Z)] in
  exists this' σ' st',
    Fetch.run (Fetch.incremental_events 1 items) (fst streaming) (snd streaming)
    = (this', σ') /\
    heap_streams σ' !! 0 = Some st' /\
    queue st' = [js "he"; js "llo"].
Proof.
  intros items.
  destruct (@incremental_chunks_encode_final_text latin1_platform
              (fst streaming) (snd streaming) 1 0
              {| queue := []; status := Readable; locked := false |} items
              eq_refl eq_refl eq_refl eq_refl eq_refl eq_refl)
    as (this' & σ' & st' & Hrun & Hst & Hq & _).
  { simpl; split; [exists (js "he"); reflexivity|].
    split; [exists (js "llo"); reflexivity | exact I]. }
  exists this', σ', st'; split; [exact Hrun|]; split; [exact Hst|exact Hq].
Defined.

(** C6 as stated fails: when a cumulative text ends inside a surrogate
    pair, the two halves are encoded apart, each as U+FFFD, and the chunks
    put end to end are not the encoding of the last text. *)
Lemma cut_surrogate_pair_is_not_reassembled :
  ~ (forall (platform : Platform) (this : Fetch.t) (σ : Store)
            (requestId c : nat) (st : ReadableStream)
            (items : list (js_string * (Z * Z))),
        Fetch._requestId this = Some requestId ->
        Fetch.subscribed "didReceiveNetworkIncrementalData" this = true ->
        Fetch._streamController this = Some c ->
        heap_streams σ !! c = Some st ->
        status st = Readable ->
        Fetch._responseTextOffset this = 0 ->
        cumulative [] (map fst items) ->
        exists this' σ' st',
          Fetch.run (Fetch.incremental_events requestId items) this σ
          = (this', σ') /\
          heap_streams σ' !! c = Some st' /\
          concat (queue st')
          = concat (queue st)
            ++ TextEncoder_encode (List.last (map fst items) [])).
Proof.
  intros Hclaim.
  destruct (Hclaim latin1_platform (fst streaming) (snd streaming) 1 0
              {| queue := []; status := Readable; locked := false |}
              [([0xD83D]%N, (1, 2)%Z); ([0xD83D; 0xDE00]%N, (2, 2)%Z)]
              eq_refl eq_refl eq_refl eq_refl eq_refl eq_refl)
    as (this' & σ' & st' & Hrun & Hst & Hq).
  { simpl; split; [exists [0xD83D]%N; reflexivity|].
    split; [exists [0xDE00]%N; reflexivity | exact I]. }
  vm_compute in Hrun; inversion Hrun; subst this' σ'; clear Hrun.
  vm_compute in Hst; inversion Hst; subst st'; clear Hst.
  vm_compute in Hq; discriminate Hq.
Qed.

(** ** C2 and C5: the outcome of an exchange *)

Lemma Response_constructor_Normal (body : BodyInit) (options : ResponseInit)
    (σ σ' : Store) (response : Response.t) :
  Response.constructor body options σ = (σ', Normal response) ->
  Response.status response = default 200%Z (init_status options) /\
  Response.ok response
  = ((200 <=? Response.status response) && (Response.status response <? 300))%Z /\
  _bodyInit (Response._body response) = body /\
  bodyUsed (Response._body response) = false.
Proof.
  unfold Response.constructor; intros Hc.
  apply bind_Normal in Hc as (σ1 & b & Hb & Hc).
  apply bind_Normal in Hc as (σ2 & h & _ & Hc).
  apply bind_Normal in Hc as (σ3 & has_type & _ & Hc).
  apply bind_Normal in Hc as (σ4 & [] & _ & Hc).
  inversion Hc; subst; simpl.
  apply Body_constructor_Normal in Hb as (Hu & Hinit & _).
  auto.
Qed.

(** A Response on a stream, with headers whose names are tokens, is
    constructed whatever the status. *)
Lemma Response_constructor_stream (s : nat) (status : Z)
    (headers : list (string * string)) (url : string) (table : HeaderTable)
    (σ : Store) :
  Headers.of_pairs headers [] = Normal table ->
  exists σ' response,
    Response.constructor (InitStream s)
      {| init_status := Some status; init_statusText := None;
         init_headers := Some (InitPairs headers); init_url := Some url |} σ
    = (σ', Normal response).
Proof.
  intros Htable; unfold Response.constructor, bind; simpl.
  unfold new_Headers; rewrite Htable; simpl.
  unfold headers_has; simpl.
  rewrite list_lookup_middle by reflexivity; simpl.
  destruct (Headers.has "content-type" table) eqn:Hhas; simpl; [eauto|].
  unfold headers_set; simpl.
  rewrite list_lookup_middle by reflexivity.
  unfold Headers.set.
  replace (valid_header_name "content-type") with true by reflexivity.
  eauto.
Qed.

Section Outcome.
Context {platform : Platform}.

Lemma resolve_cases (r : Response.t) (this : Fetch.t) :
  Fetch._readableStreamController (Fetch.resolve r this)
  = Fetch._readableStreamController this /\
  (Fetch._deferredPromise (Fetch.resolve r this) = Fetch._deferredPromise this
   \/ Fetch._deferredPromise this = Pending /\
      Fetch._deferredPromise (Fetch.resolve r this) = Fulfilled r).
Proof.
  unfold Fetch.resolve; destruct (Fetch._deferredPromise this) eqn:Hp;
    simpl; auto.
Qed.

Lemma reject_cases (e : JsError) (this : Fetch.t) :
  Fetch._readableStreamController (Fetch.reject e this)
  = Fetch._readableStreamController this /\
  (Fetch._deferredPromise (Fetch.reject e this) = Fetch._deferredPromise this
   \/ Fetch._deferredPromise this = Pending /\
      Fetch._deferredPromise (Fetch.reject e this) = Rejected e).
Proof.
  unfold Fetch.reject; destruct (Fetch._deferredPromise this) eqn:Hp;
    simpl; auto.
Qed.

Lemma deliver_cases (ev : Fetch.Event) (this this' : Fetch.t) (σ σ' : Store)
    (c : Completion unit) :
  Fetch.deliver ev this σ = (this', σ', c) ->
  Fetch._readableStreamController this'
  = Fetch._readableStreamController this /\
  (Fetch._deferredPromise this' = Fetch._deferredPromise this
   \/ settles ev this this').
Proof.
  destruct ev as [id|id st hs u|id d|id t p tot|id l tot|id msg timeout| |];
    simpl; intros Hd.
  - inversion Hd; subst; simpl; auto.
  - destruct (Fetch.subscribed _ this); [|inversion Hd; subst; auto].
    unfold Fetch.__didReceiveNetworkResponse in Hd.
    destruct (negb (Fetch.same_request id this));
      [inversion Hd; subst; auto|].
    unfold alloc_stream in Hd; simpl in Hd.
    match type of Hd with
    | context [Response.constructor ?b ?o ?s] =>
      destruct (Response.constructor b o s) as [σ2 [response|e]] eqn:Hr
    end; inversion Hd; subst; clear Hd; [|simpl; auto].
    apply Response_constructor_Normal in Hr as (Hstatus & _).
    match goal with
    | |- context [Fetch.resolve ?r ?t] =>
      destruct (resolve_cases r t) as (Hc & [Hp | (Hp & Hp')])
    end; rewrite Hc; simpl in *; split; auto.
    right; split; [exact Hp|]; left.
    exists id, st, hs, u, response; auto.
  - destruct (Fetch.subscribed _ this); [|inversion Hd; subst; auto].
    unfold Fetch.__didReceiveNetworkData in Hd.
    destruct (negb (Fetch.same_request id this));
      inversion Hd; subst; simpl; auto.
  - destruct (Fetch.subscribed _ this); [|inversion Hd; subst; auto].
    unfold Fetch.__didReceiveNetworkIncrementalData in Hd.
    destruct (negb (Fetch.same_request id this));
      [inversion Hd; subst; auto|].
    destruct (Fetch.controller_enqueue _ _ σ) as [σ1 c1].
    inversion Hd; subst; simpl; auto.
  - destruct (Fetch.subscribed _ this); inversion Hd; subst; auto.
  - destruct (Fetch.subscribed _ this); [|inversion Hd; subst; auto].
    unfold Fetch.__didCompleteNetworkResponse in Hd.
    destruct (negb (Fetch.same_request id this));
      [inversion Hd; subst; auto|].
    destruct timeout.
    { inversion Hd; subst; clear Hd.
      match goal with
      | |- context [Fetch.reject ?e ?t] =>
        destruct (reject_cases e t) as (Hc & [Hp | (Hp & Hp')])
      end; rewrite Hc; simpl in *; split; auto.
      right; split; [exact Hp|]; right; left; eauto. }
    destruct (Fetch.truthy_message msg) eqn:Hmsg.
    { inversion Hd; subst; clear Hd.
      match goal with
      | |- context [Fetch.reject ?e ?t] =>
        destruct (reject_cases e t) as (Hc & [Hp | (Hp & Hp')])
      end; rewrite Hc; simpl in *; split; auto.
      right; split; [exact Hp|]; right; right; left.
      destruct msg as [m|]; [|discriminate Hmsg].
      exists id, m; split; [reflexivity|]; split; [|exact Hp'].
      intros ->; discriminate Hmsg. }
    simpl in Hd.
    destruct (Fetch._nativeResponse this) as [d|];
      [destruct (truthy_data d)|];
      try (inversion Hd; subst; simpl; auto; fail);
      destruct (Fetch._streamController this);
      try (inversion Hd; subst; simpl; auto; fail);
      destruct (Fetch.controller_close _ σ);
      inversion Hd; subst; simpl; auto.
  - destruct (Fetch.abort_listener this); [|inversion Hd; subst; auto].
    unfold Fetch.__abort in Hd; simpl in Hd.
    destruct (Fetch._readableStreamController this) as [controller|] eqn:Hctl;
      [|inversion Hd; subst; simpl; auto].
    destruct (error controller NewAbortError σ) as [σ1 [[]|e]];
      inversion Hd; subst; clear Hd; [|simpl; auto].
    match goal with
    | |- context [Fetch.reject ?e ?t] =>
      destruct (reject_cases e t) as (Hc & [Hp | (Hp & Hp')])
    end; rewrite Hc; simpl in *; split; auto.
    right; split; [exact Hp|]; right; right; right.
    split; [reflexivity|]; split; [congruence|exact Hp'].
  - unfold Fetch.stream_cancel in Hd.
    destruct (Fetch._streamController this) as [s|];
      [destruct (heap_streams σ !! s) as [st|];
       [destruct (can_be_read st)|]|];
      inversion Hd; subst; simpl; auto.
Qed.

End Outcome.

Section Exchange.
Context {platform : Platform}.



Lemma Fetch_constructor_Normal (resource : Input) (options : Options)
    (σ σ' : Store) (this : Fetch.t) :
  Fetch.constructor resource options σ = (σ', Normal this) ->
  Fetch._readableStreamController this = None /\
  Fetch._deferredPromise this = Pending.
Proof.
  unfold Fetch.constructor; intros Hc.
  apply bind_Normal in Hc as (σ1 & r & _ & Hc).
  destruct (heap_requests σ1 !! r) as [request|]; [|discriminate Hc].
  destruct (match signal request with Some s => _ | None => _ end);
    inversion Hc; subst.
  unfold Fetch.__doFetch; destruct (signal request); simpl; auto.
Qed.

Lemma run_keeps_abort_out (evs : list Fetch.Event) :
  forall (this this' : Fetch.t) (σ σ' : Store),
    Fetch._readableStreamController this = None ->
    Fetch._deferredPromise this <> Rejected NewAbortError ->
    Fetch.run evs this σ = (this', σ') ->
    Fetch._readableStreamController this' = None /\
    Fetch._deferredPromise this' <> Rejected NewAbortError.
Proof.
  induction evs as [|ev evs IH]; intros this this' σ σ' Hctl Hp Hrun.
  - inversion Hrun; subst; auto.
  - simpl in Hrun.
    destruct (Fetch.deliver ev this σ) as [[this1 σ1] c] eqn:Hd.
    apply deliver_cases in Hd as (Hctl1 & Hcases).
    apply (IH this1 this' σ1 σ'); [congruence| |exact Hrun].
    destruct Hcases as [Heq | (_ & [Hres | [Htime | [Hfail | Habort]]])].
    + congruence.
    + destruct Hres as (? & ? & ? & ? & ? & _ & -> & _); discriminate.
    + destruct Htime as (? & ? & _ & ->); discriminate.
    + destruct Hfail as (? & ? & _ & _ & ->); discriminate.
    + destruct Habort as (_ & Hsome & _); contradiction.
Qed.

Lemma abort_throws (this : Fetch.t) (σ : Store) :
  Fetch._readableStreamController this = None ->
  Fetch.abort_listener this = true ->
  exists this',
    Fetch.deliver Fetch.Abort this σ
    = (this', σ,
       Throw (NewTypeError
                "undefined is not an object (evaluating 'this._readableStreamController.error')")) /\
    Fetch._deferredPromise this' = Fetch._deferredPromise this /\
    Fetch._nativeNetworkSubscriptions this' = [] /\
    Fetch.abortRequest_calls this'
    = Fetch.abortRequest_calls this ++ [Fetch._requestId this].
Proof.
  intros Hctl Hl; simpl; rewrite Hl; unfold Fetch.__abort; simpl.
  rewrite Hctl; eexists; split; [reflexivity|]; simpl; auto.
Qed.


(** C5 on the code.  In every state an exchange can reach, the outcome
    is never rejected with the abort error, and the abort event of the
    signal, when its listener is still registered, makes [__abort]
    throw a TypeError after it has told the transport and dropped the
    subscriptions: it reads [_readableStreamController], which nothing
    assigns (the stream controller is in [_streamController]), so the
    stream is not errored, the outcome is left as it was, and the
    store is unchanged. *)
Theorem abort_throws_and_never_rejects (resource : Input) (options : Options)
    (σ0 σ1 σ : Store) (this0 this : Fetch.t) (evs : list Fetch.Event) :
  Fetch.constructor resource options σ0 = (σ1, Normal this0) ->
  Fetch.run evs this0 σ1 = (this, σ) ->
  Fetch._deferredPromise this <> Rejected NewAbortError
  /\ (Fetch.abort_listener this = true ->
      exists this',
        Fetch.deliver Fetch.Abort this σ
        = (this', σ,
           Throw (NewTypeError
                    "undefined is not an object (evaluating 'this._readableStreamController.error')")) /\
        Fetch._deferredPromise this' = Fetch._deferredPromise this).
Proof.
  intros Hc Hrun.
  apply Fetch_constructor_Normal in Hc as (Hctl0 & Hp0).
  destruct (run_keeps_abort_out evs this0 this σ1 σ Hctl0) as (Hctl & Hp);
    [congruence | exact Hrun |].
  split; [exact Hp|].
  intros Hl.
  destruct (abort_throws this σ Hctl Hl) as (this' & Hd & Hsame & _).
  exists this'; auto.
Qed.

End Exchange.


Lemma abort_throws_and_never_rejects_witness :
  Fetch.abort_listener (fst in_flight) = true /\
  exists this',
    Fetch.deliver Fetch.Abort (fst in_flight) (snd in_flight)
    = (this', snd in_flight,
       Throw (NewTypeError
                "undefined is not an object (evaluating 'this._readableStreamController.error')")) /\
    Fetch._deferredPromise this' = Pending.
Proof.
  split; [reflexivity|].
  refine (proj2 (@abort_throws_and_never_rejects latin1_platform
                   (InputOther "http://localhost:8082/slow")
                   {| opt_method := None; opt_headers := None;
                      opt_body := InitNull; opt_credentials := None;
                      opt_signal := Some 0 |}
                   {| heap_buffers := []; heap_streams := []; heap_headers := [];
                      heap_requests := []; heap_signals := [false] |}
                   _ (snd in_flight) _ (fst in_flight)
                   [Fetch.DidCreateRequest 1] eq_refl eq_refl) eq_refl).
Defined.

(** After the completion event of this request the listener on the signal
    is gone: an abort then runs no handler, throws nothing and leaves the
    outcome as it is. *)
Lemma abort_after_completion {platform : Platform} (this this1 : Fetch.t)
    (σ σ1 : Store) (requestId : nat) (errorMessage : option string)
    (didTimeOut : bool) (c : Completion unit) :
  Fetch.subscribed "didCompleteNetworkResponse" this = true ->
  Fetch._requestId this = Some requestId ->
  Fetch.deliver (Fetch.DidCompleteNetworkResponse requestId errorMessage didTimeOut)
    this σ = (this1, σ1, c) ->
  Fetch.deliver Fetch.Abort this1 σ1 = (this1, σ1, Normal ()).
Proof.
  intros Hsub Hid; simpl; rewrite Hsub.
  unfold Fetch.__didCompleteNetworkResponse, Fetch.same_request.
  rewrite Hid, bool_decide_eq_true_2 by reflexivity; simpl.
  assert (Hrej : forall e t, Fetch.abort_listener (Fetch.reject e t)
                             = Fetch.abort_listener t).
  { intros e t; unfold Fetch.reject; destruct (Fetch._deferredPromise t);
      reflexivity. }
  destruct didTimeOut; [|destruct (Fetch.truthy_message errorMessage)].
  - intros Hd; inversion Hd; subst; rewrite Hrej; reflexivity.
  - intros Hd; inversion Hd; subst; rewrite Hrej; reflexivity.
  - simpl.
    destruct (Fetch._nativeResponse this) as [d|];
      [destruct (truthy_data d)|];
      try (intros Hd; inversion Hd; subst; reflexivity);
      destruct (Fetch._streamController this);
      try (intros Hd; inversion Hd; subst; reflexivity);
      destruct (Fetch.controller_close _ σ);
      intros Hd; inversion Hd; subst; reflexivity.
Qed.

(** A StreamBlobResponse built from the blob of "hi" on an open stream,
    once the promise of the constructor is fulfilled: [blob()] then
    [text()] both succeed, a second [text()] is rejected, and [clone()]
    throws. *)
Lemma StreamBlobResponse_run :
  let σ0 := set_streams [{| queue := []; status := Readable; locked := false |}]
              empty_store in
  let options := {| init_status := Some 200%Z; init_statusText := None;
                    init_headers := None; init_url := None |} in
  exists σ this,
    @StreamBlobResponse.constructor latin1_platform
      (NewBlob [104; 105]%N "text/plain") 0 0 options None σ0
    = (σ, Normal (StreamBlobResponse.Promised (Fulfilled this))) /\
    snd (StreamBlobResponse.calls [Body.blob_; Body.text_; Body.text_] this σ)
    = [Body.Succeeded; Body.Succeeded; Body.Failed (NewError "Already read")] /\
    snd (StreamBlobResponse.clone this σ)
    = Throw (NewTypeError "this._arrayBufferResponse.slice is not a function").
Proof.
  intros σ0 options; eexists _, _; split; [reflexivity|].
  split; reflexivity.
Qed.

(** * Further properties of the sources *)

(** ** drainStream *)

Lemma fold_left_append (chunks : list bytes) (acc : bytes) :
  fold_left (fun byteArray chunk => byteArray ++ chunk) chunks acc
  = acc ++ concat chunks.
Proof.
  revert acc; induction chunks as [|chunk chunks IH]; intros acc; simpl.
  - rewrite app_nil_r; reflexivity.
  - rewrite IH, app_assoc; reflexivity.
Qed.

Lemma readNextChunk_result (pending : list bytes) (st : StreamStatus) :
  forall chunks,
    readNextChunk pending st chunks
    = match st with
      | Closed => Fulfilled (concat (chunks ++ pending))
      | Errored e => Rejected e
      | Readable => Pending
      end.
Proof.
  induction pending as [|value rest IH]; intros chunks; simpl.
  - destruct st; try reflexivity.
    rewrite fold_left_append, app_nil_r; reflexivity.
  - rewrite IH, <- app_assoc; reflexivity.
Qed.

Lemma drainStream_unlocked (s : nat) (st : ReadableStream) (σ : Store) :
  heap_streams σ !! s = Some st ->
  locked st = false ->
  drainStream s σ
  = let σ1 := set_streams (<[s := {| queue := []; status := status st;
                                      locked := true |}]> (heap_streams σ)) σ in
    match status st with
    | Closed =>
      (set_buffers (heap_buffers σ ++ [map to_uint8 (concat (queue st))]) σ1,
       Fulfilled {| view_kind := TypedArray;
                    view_buffer := length (heap_buffers σ);
                    byteOffset := 0;
                    byteLength := length (concat (queue st)) |})
    | Errored e => (σ1, Rejected e)
    | Readable => (σ1, Pending)
    end.
Proof.
  intros Hs Hl; unfold drainStream; rewrite Hs, Hl, readNextChunk_result.
  destruct (status st); reflexivity.
Qed.

Lemma drainStream_closed_result (s : nat) (st : ReadableStream) (σ : Store) :
  heap_streams σ !! s = Some st ->
  locked st = false ->
  status st = Closed ->
  exists σ' typedArray,
    drainStream s σ = (σ', Fulfilled typedArray) /\
    window σ' typedArray = map to_uint8 (concat (queue st)) /\
    view_buffer typedArray = length (heap_buffers σ) /\
    heap_streams σ' !! s
    = Some {| queue := []; status := Closed; locked := true |} /\
    (forall a, a < length (heap_buffers σ) ->
       heap_buffers σ' !! a = heap_buffers σ !! a) /\
    heap_requests σ' = heap_requests σ /\
    heap_headers σ' = heap_headers σ.
Proof.
  intros Hs Hl Hc; rewrite (drainStream_unlocked s st σ Hs Hl), Hc; simpl.
  eexists _, _; split; [reflexivity|]; simpl.
  split; [|split; [reflexivity|split; [|split; [|split; reflexivity]]]].
  - unfold window, buffer_bytes; simpl.
    rewrite list_lookup_middle by reflexivity; simpl.
    apply take_ge; rewrite length_map; lia.
  - apply list_lookup_insert_eq; apply lookup_lt_Some in Hs; exact Hs.
  - intros a Hlt; apply lookup_app_l; exact Hlt.
Qed.

(** X1.  Draining a closed stream that has no reader yields one typed
    array, on a buffer of its own, whose bytes are the elements of the
    chunks of the stream, put end to end in the order they were enqueued
    and each converted to a byte (unchanged when the chunks are
    [Uint8Array]s); the stream is left locked and empty, and nothing else
    in the store changes. *)
Theorem drainStream_closed (s : nat) (st : ReadableStream) (σ : Store) :
  heap_streams σ !! s = Some st ->
  locked st = false ->
  status st = Closed ->
  exists σ' typedArray,
    drainStream s σ = (σ', Fulfilled typedArray) /\
    window σ' typedArray = map to_uint8 (concat (queue st)) /\
    view_buffer typedArray = length (heap_buffers σ) /\
    heap_streams σ' !! s
    = Some {| queue := []; status := Closed; locked := true |} /\
    (forall a, a < length (heap_buffers σ) ->
       heap_buffers σ' !! a = heap_buffers σ !! a) /\
    heap_requests σ' = heap_requests σ /\
    heap_headers σ' = heap_headers σ.
Proof. exact (drainStream_closed_result s st σ). Qed.

Lemma drainStream_closed_witness :
  let σ := set_streams [{| queue := [[72; 357]; [108; 108; 111]]%N;
                           status := Closed; locked := false |}] empty_store in
  exists σ' typedArray,
    drainStream 0 σ = (σ', Fulfilled typedArray) /\
    window σ' typedArray = [72; 101; 108; 108; 111]%N.
Proof.
  intros σ.
  destruct (drainStream_closed 0 _ σ eq_refl eq_refl eq_refl)
    as (σ' & typedArray & Hd & Hw & _).
  exists σ', typedArray; split; [exact Hd | exact Hw].
Defined.

(** X2.  A stream is drained at most once: whatever its state, the first drain
    takes its reader, and a drain of the same stream afterwards is
    rejected and changes nothing. *)
Theorem drainStream_twice (s : nat) (st : ReadableStream) (σ : Store) :
  heap_streams σ !! s = Some st ->
  locked st = false ->
  exists σ1 p,
    drainStream s σ = (σ1, p) /\
    drainStream s σ1
    = (σ1, Rejected (NewTypeError "ReadableStream is locked")).
Proof.
  intros Hs Hl; rewrite (drainStream_unlocked s st σ Hs Hl).
  assert (Hlt : s < length (heap_streams σ)) by (apply lookup_lt_Some in Hs; exact Hs).
  destruct (status st); simpl; eexists _, _; (split; [reflexivity|]);
    unfold drainStream; simpl;
    rewrite list_lookup_insert_eq by exact Hlt; reflexivity.
Qed.

Lemma drainStream_twice_witness :
  let σ := set_streams [{| queue := [[104; 105]]%N; status := Readable;
                           locked := false |}] empty_store in
  exists σ1 p,
    drainStream 0 σ = (σ1, p) /\
    drainStream 0 σ1 = (σ1, Rejected (NewTypeError "ReadableStream is locked")).
Proof.
  intros σ; exact (drainStream_twice 0 _ σ eq_refl eq_refl).
Defined.

(** ** Body on a stream *)

Section StreamBody.
Context {platform : Platform}.

(** X3.  A Body built on a closed stream that has no reader: [text()]
    decodes the bytes of the drain, which are the elements of the chunks
    put end to end and each converted to a byte, and [arrayBuffer()]
    yields an ArrayBuffer with those bytes; each marks the body
    consumed. *)
Theorem stream_body_conversions (s : nat) (st : ReadableStream) (σ : Store) :
  heap_streams σ !! s = Some st ->
  locked st = false ->
  status st = Closed ->
  exists this,
    Body.constructor (InitStream s) σ = (σ, Normal this) /\
    (exists σ',
        Body.text this σ
        = (σ', set_bodyUsed true this,
           Fulfilled (TextDecoder_decode (map to_uint8 (concat (queue st)))))) /\
    (exists σ' a,
        Body.arrayBuffer this σ = (σ', set_bodyUsed true this, Fulfilled a) /\
        buffer_bytes σ' a = map to_uint8 (concat (queue st))).
Proof.
  intros Hs Hl Hc.
  destruct (drainStream_closed_result s st σ Hs Hl Hc)
    as (σ' & typedArray & Hd & Hw & Hb & _).
  eexists; split; [reflexivity|].
  unfold Body.text, Body.arrayBuffer; simpl; rewrite Hd; simpl.
  unfold Body.readArrayAsText; rewrite Hw.
  split; [eauto|].
  eexists _, _; split; [reflexivity|].
  rewrite (drainStream_unlocked s st σ Hs Hl), Hc in Hd.
  inversion Hd; subst; simpl.
  unfold buffer_bytes; simpl.
  rewrite list_lookup_middle by reflexivity; reflexivity.
Qed.

(** X4.  On a stream that has errored each conversion is rejected with the
    error of the stream; on a stream still open the promise of each stays
    pending.  The body is marked consumed all the same. *)
Theorem stream_body_not_closed (s : nat) (st : ReadableStream) (σ : Store)
    (c : Body.Conversion) :
  heap_streams σ !! s = Some st ->
  locked st = false ->
  status st <> Closed ->
  exists this σ',
    Body.constructor (InitStream s) σ = (σ, Normal this) /\
    Body.call c this σ
    = (σ', set_bodyUsed true this,
       match status st with
       | Errored e => Body.Failed e
       | _ => Body.Unsettled
       end).
Proof.
  intros Hs Hl Hc.
  pose proof (drainStream_unlocked s st σ Hs Hl) as Hd.
  destruct (status st) eqn:Hst; try contradiction;
    destruct c; eexists _, _; (split; [reflexivity|]);
    unfold Body.call, Body.json, Body.formData, Body.text,
      Body.arrayBuffer, Body.blob; simpl; rewrite Hd; reflexivity.
Qed.

End StreamBody.

Lemma stream_body_conversions_witness :
  let σ := set_streams [{| queue := [[72; 357]; [108; 108; 111]]%N;
                           status := Closed; locked := false |}] empty_store in
  exists this σ',
    Body.constructor (InitStream 0) σ = (σ, Normal this) /\
    @Body.text latin1_platform this σ
    = (σ', set_bodyUsed true this, Fulfilled [72; 101; 108; 108; 111]%N).
Proof.
  intros σ.
  destruct (@stream_body_conversions latin1_platform 0 _ σ eq_refl eq_refl eq_refl)
    as (this & Hc & (σ' & Ht) & _).
  exists this, σ'; split; [exact Hc | exact Ht].
Defined.

Lemma stream_body_not_closed_witness :
  let σ := set_streams [{| queue := []; status := Errored NewAbortError;
                           locked := false |}] empty_store in
  exists this σ',
    Body.constructor (InitStream 0) σ = (σ, Normal this) /\
    @Body.call latin1_platform Body.text_ this σ
    = (σ', set_bodyUsed true this, Body.Failed NewAbortError).
Proof.
  intros σ.
  refine (@stream_body_not_closed latin1_platform 0 _ σ Body.text_
            eq_refl eq_refl _).
  discriminate.
Defined.

(** ** formData() *)

Lemma split_lacks (sep : N) (s : js_string) : lacks sep s -> split sep s = [s].
Proof.
  induction 1 as [|c s Hc _ IH]; simpl; [reflexivity|].
  apply N.eqb_neq in Hc; rewrite Hc, IH; reflexivity.
Qed.

Lemma split_app (sep : N) (a b : js_string) :
  lacks sep a -> split sep (a ++ sep :: b) = a :: split sep b.
Proof.
  induction 1 as [|c a Hc _ IH]; simpl.
  - rewrite N.eqb_refl; reflexivity.
  - apply N.eqb_neq in Hc; rewrite Hc, IH; reflexivity.
Qed.

Lemma split_nonempty (sep : N) (s : js_string) : split sep s <> [].
Proof.
  destruct s as [|c s]; simpl; [discriminate|].
  destruct (c =? sep)%N; [discriminate|].
  destruct (split sep s); discriminate.
Qed.

(** Splitting a string and joining the pieces with the separator gives
    the string back. *)
Lemma join_split (sep : N) (s : js_string) : join sep (split sep s) = s.
Proof.
  induction s as [|c s IH]; simpl; [reflexivity|].
  pose proof (split_nonempty sep s) as Hne.
  destruct (c =? sep)%N eqn:Hc.
  - apply N.eqb_eq in Hc; subst c.
    destruct (split sep s) as [|p rest]; [congruence|].
    change (join sep ([] :: p :: rest)) with (sep :: join sep (p :: rest)).
    rewrite IH; reflexivity.
  - destruct (split sep s) as [|p [|q rest]]; [congruence| |].
    + simpl in *; congruence.
    + change (join sep ((c :: p) :: q :: rest))
        with (c :: (p ++ sep :: join sep (q :: rest))).
      change (join sep (p :: q :: rest))
        with (p ++ sep :: join sep (q :: rest)) in IH.
      rewrite IH; reflexivity.
Qed.

Lemma split_join (sep : N) (segments : list js_string) :
  segments <> [] ->
  Forall (lacks sep) segments ->
  split sep (join sep segments) = segments.
Proof.
  induction segments as [|p [|q rest] IH]; intros Hne Hall; [congruence| |].
  - inversion Hall; subst; simpl; apply split_lacks; assumption.
  - inversion Hall as [|? ? Hp Hrest]; subst.
    change (join sep (p :: q :: rest)) with (p ++ sep :: join sep (q :: rest)).
    rewrite split_app by exact Hp.
    rewrite IH by (auto; discriminate); reflexivity.
Qed.

Section FormData.
Context {platform : Platform}.

Lemma parse_pair_segment (name value : js_string) :
  lacks 61%N name ->
  Body.parse_pair (name ++ 61%N :: value)
  = match decodeURIComponent (plus_to_space name),
          decodeURIComponent (plus_to_space value) with
    | Some n, Some v => Normal (Some (n, v))
    | _, _ => Throw NewURIError
    end.
Proof.
  intros Hname; unfold Body.parse_pair.
  rewrite split_app by exact Hname; cbn [hd tl]; rewrite join_split.
  destruct name; reflexivity.
Qed.

Lemma parse_pairs_fields (fields : list (option (js_string * js_string))) :
  Forall (fun field => match field with
                       | Some (name, _) => lacks 61%N name
                       | None => True
                       end) fields ->
  forall acc,
    Body.parse_pairs (map segment fields) acc
    = match decode_fields fields with
      | Some out => Fulfilled (acc ++ out)
      | None => Rejected NewURIError
      end.
Proof.
  induction 1 as [|[[name value]|] fields Hname _ IH]; intros acc;
    cbn [map segment Body.parse_pairs decode_fields].
  - rewrite app_nil_r; reflexivity.
  - rewrite (parse_pair_segment name value Hname).
    destruct (decodeURIComponent (plus_to_space name)) as [n|]; [|reflexivity].
    destruct (decodeURIComponent (plus_to_space value)) as [v|]; [|reflexivity].
    rewrite IH; destruct (decode_fields fields); [|reflexivity].
    rewrite <- app_assoc; reflexivity.
  - simpl; apply IH.
Qed.

(** X5.  [formData()] of a text body that is a sequence of segments joined by
    "&", each empty or of the form name "=" value, with no "&" inside a
    segment and no "=" inside a name: the result holds one field for each
    non-empty segment, in order, the value being everything after the
    first "=", with "+" read as a space and both halves percent-decoded;
    empty segments are skipped, and the promise is rejected with a
    URIError when a half cannot be decoded. *)
Theorem formData_fields (fields : list (option (js_string * js_string)))
    (σ : Store) :
  fields <> [] ->
  Forall (fun field => match field with
                       | Some (name, value) =>
                         lacks 38%N name /\ lacks 61%N name /\ lacks 38%N value
                       | None => True
                       end) fields ->
  let text := join 38%N (map segment fields) in
  trim text = text ->
  exists this,
    Body.constructor (InitString text) σ = (σ, Normal this) /\
    Body.formData this σ
    = (σ, set_bodyUsed true this,
       match decode_fields fields with
       | Some out => Fulfilled out
       | None => Rejected NewURIError
       end).
Proof.
  intros Hne Hall text Htrim.
  assert (Hsplit : split 38%N text = map segment fields).
  { apply split_join; [destruct fields; [congruence|discriminate]|].
    apply List.Forall_map.
    eapply List.Forall_impl; [|exact Hall].
    intros [[name value]|]; simpl; [|intros _; constructor].
    intros (Hn & _ & Hv); apply List.Forall_app; split; [exact Hn|].
    constructor; [discriminate | exact Hv]. }
  assert (Hparse : Body.parse_pairs (split 38%N (trim text)) []
                   = match decode_fields fields with
                     | Some out => Fulfilled out
                     | None => Rejected NewURIError
                     end).
  { rewrite Htrim, Hsplit, parse_pairs_fields; [reflexivity|].
    eapply List.Forall_impl; [|exact Hall].
    intros [[name value]|]; simpl; tauto. }
  destruct text as [|u text'] eqn:Htext.
  - eexists; split; [reflexivity|].
    unfold Body.formData, Body.text; simpl.
    rewrite <- Hparse; reflexivity.
  - eexists; split; [reflexivity|].
    unfold Body.formData, Body.text; simpl.
    rewrite <- Hparse; reflexivity.
Qed.

End FormData.

Lemma formData_fields_witness :
  exists this,
    Body.constructor (InitString (js "a=1&&b=x=y+z")) empty_store
    = (empty_store, Normal this) /\
    @Body.formData latin1_platform this empty_store
    = (empty_store, set_bodyUsed true this,
       Fulfilled [(js "a", js "1"); (js "b", js "x=y z")]).
Proof.
  refine (@formData_fields latin1_platform
            [Some (js "a", js "1"); None; Some (js "b", js "x=y+z")]
            empty_store _ _ eq_refl).
  - discriminate.
  - unfold lacks; repeat constructor; discriminate.
Defined.

(** ** Request: what the constructor builds *)

(** A Body the constructor has built without a stream was built from an
    acceptable value. *)
Lemma Body_constructor_accepts (body : BodyInit) (σ σ' : Store) (b : Body) :
  Body.constructor body σ = (σ', Normal b) ->
  _bodyReadableStream b = None ->
  acceptable_body body.
Proof.
  unfold Body.constructor.
  destruct body as [|[|u s]|b0|f|s|a|v|s|s]; simpl; intros Heq Hs; try exact I.
  - unfold bind, View_slice0 in Heq.
    destruct (view_kind v); [reflexivity | discriminate Heq].
  - inversion Heq; subst; discriminate Hs.
Qed.

(** On an acceptable value the Body constructor returns, without a
    stream. *)
Lemma Body_constructor_returns (body : BodyInit) (σ : Store) :
  acceptable_body body ->
  exists σb b,
    Body.constructor body σ = (σb, Normal b) /\ _bodyReadableStream b = None.
Proof.
  unfold Body.constructor.
  destruct body as [|[|u s]|b0|f|s|a|v|s|s]; simpl; intros Hok;
    try (eexists _, _; split; reflexivity); try contradiction.
  unfold bind, View_slice0; rewrite Hok; simpl.
  eexists _, _; split; reflexivity.
Qed.

Lemma headers_has_lookup (h : nat) (name : string) (t : HeaderTable)
    (σ : Store) :
  heap_headers σ !! h = Some t ->
  headers_has h name σ = (σ, Normal (Headers.has name t)).
Proof. intros Hl; unfold headers_has; rewrite Hl; reflexivity. Qed.

Lemma headers_set_absent (h : nat) (value : string) (t : HeaderTable)
    (σ : Store) :
  heap_headers σ !! h = Some t ->
  Headers.has "content-type" t = false ->
  headers_set h "content-type" value σ
  = (set_headers (<[h := t ++ [("content-type"%string, value)]]> (heap_headers σ)) σ,
     Normal ()).
Proof.
  intros Hl Hhas; unfold headers_set, Headers.set; rewrite Hl, Hhas.
  reflexivity.
Qed.

(** The Headers object of a construction that returns: the table the
    headers step has made or was given, with the content type of the body
    filled in. *)
Lemma constructor_headers_table (input : Input) (options : Options)
    (σ σ' : Store) (r : nat) :
  Request.constructor input options σ = (σ', Normal r) ->
  exists a σ1 σh h t,
    Request.assemble input options σ = (σ1, Normal a) /\
    match Request.this_headers (Request.as_this a) with
    | Some given => given = InitHeaders h /\ σh = σ1
    | None => new_Headers (opt_headers options) σ1 = (σh, Normal h)
    end /\
    heap_headers σh !! h = Some t /\
    heap_headers σ'
    = <[h := with_content_type (_mimeType (Request.as_body a)) t]> (heap_headers σh) /\
    exists request,
      heap_requests σ' !! r = Some request /\
      headers request = h /\
      _body request = Request.as_body a.
Proof.
  unfold Request.constructor; intros Hc.
  apply bind_Normal in Hc as (σ1 & a & Ha & Hc).
  destruct (truthy _ && existsb _ _) eqn:Hcheck; [discriminate Hc|].
  destruct (_bodyReadableStream (Request.as_body a)) as [s|] eqn:Hstream;
    [discriminate Hc|]; simpl in Hc.
  apply bind_Normal in Hc as (σh & hv & Hh & Hc).
  destruct hv as [h|pairs]; [|discriminate Hc].
  apply bind_Normal in Hc as (σ2' & has_type & Hhas & Hc).
  unfold headers_has in Hhas.
  destruct (heap_headers σh !! h) as [t|] eqn:Ht; [|discriminate Hhas].
  inversion Hhas; subst σ2' has_type; clear Hhas.
  apply bind_Normal in Hc as (σ2 & [] & Hset & Hc).
  unfold Request.alloc in Hc; inversion Hc; subst; clear Hc.
  exists a, σ1, σh, h, t.
  split; [exact Ha|]. split.
  { destruct (Request.this_headers (Request.as_this a)) as [given|].
    - inversion Hh; subst; auto.
    - apply bind_Normal in Hh as (σn & h0 & Hnew & Hret).
      inversion Hret; subst; exact Hnew. }
  split; [exact Ht|]. simpl.
  split.
  - unfold with_content_type.
    destruct (_mimeType (Request.as_body a)) as [mime|].
    + destruct (Headers.has "content-type" t) eqn:Hhas; simpl in *.
      * inversion Hset; subst; symmetry; apply list_insert_id; exact Ht.
      * destruct (truthy_string mime).
        -- rewrite (headers_set_absent h mime t σh Ht Hhas) in Hset.
           inversion Hset; subst; reflexivity.
        -- inversion Hset; subst; symmetry; apply list_insert_id; exact Ht.
    + inversion Hset; subst; symmetry; apply list_insert_id; exact Ht.
  - eexists; split; [apply list_lookup_middle; reflexivity|].
    split; reflexivity.
Qed.

(** The Body of an assembly was built by the Body constructor. *)
Lemma assemble_body (input : Input) (options : Options) (σ σ1 : Store)
    (a : Request.Assembled) :
  Request.assemble input options σ = (σ1, Normal a) ->
  exists body σa σb,
    Body.constructor body σa = (σb, Normal (Request.as_body a)).
Proof.
  intros Ha; destruct input as [r1|u].
  - apply assemble_request in Ha
      as (source & σh & σb & _ & _ & _ & _ & _ & _ & _ & Hmove).
    destruct (negb _ && _); destruct Hmove as (Hb & _); eauto.
  - apply assemble_other in Ha as (Hb & _); eauto.
Qed.

Lemma constructed_well_formed (input : Input) (options : Options)
    (σ σ' : Store) (r : nat) :
  Request.constructor input options σ = (σ', Normal r) ->
  exists request,
    heap_requests σ' !! r = Some request /\
    bodyUsed (_body request) = false /\
    well_formed_request σ' request.
Proof.
  intros Hc.
  pose proof (constructor_headers_table _ _ _ _ _ Hc)
    as (a' & σ1' & σh & h' & t & Ha' & Hh' & Ht & Htable & _).
  apply constructor_Normal in Hc
    as (a & σ1 & σ2 & h & Ha & Hcheck & Hstream & (_ & _ & Hr2 & _) & Hh & _ & -> & Hσ').
  rewrite Ha in Ha'; inversion Ha'; subst a' σ1'; clear Ha'.
  assert (h' = h).
  { destruct (Request.this_headers (Request.as_this a)) as [given|].
    - destruct Hh as (-> & _), Hh' as (Heq & _); congruence.
    - destruct Hh as (-> & _).
      apply new_Headers_Normal in Hh' as (-> & _); reflexivity. }
  subst h'.
  destruct (assemble_body _ _ _ _ _ Ha) as (body & σa & σb & Hb).
  pose proof (Body_constructor_accepts _ _ _ _ Hb Hstream) as Hok.
  apply Body_constructor_Normal in Hb as (Hu & Hinit & _).
  assert (Hlt : h < length (heap_headers σ')).
  { rewrite Htable, length_insert; eapply lookup_lt_Some; exact Ht. }
  subst σ'; simpl in *; rewrite Hr2.
  eexists; split; [apply list_lookup_middle; reflexivity|]; simpl.
  split; [exact Hu|].
  unfold well_formed_request; simpl.
  rewrite Hinit in *; repeat (split; [assumption|]); assumption.
Qed.

(** X6.  What the Request constructor establishes.  Every Request it
    returns has an unconsumed body, built from a value that is neither a
    stream nor a DataView; it has no body when its method is "GET" or
    "HEAD"; and its [headers] field is a Headers object of the store. *)
Theorem constructed_request_well_formed (input : Input) (options : Options)
    (σ σ' : Store) (r : nat) :
  Request.constructor input options σ = (σ', Normal r) ->
  exists request,
    heap_requests σ' !! r = Some request /\
    bodyUsed (_body request) = false /\
    well_formed_request σ' request.
Proof. exact (constructed_well_formed input options σ σ' r). Qed.

Lemma constructed_request_well_formed_witness :
  exists request,
    heap_requests store_with_post_request !! 0 = Some request /\
    bodyUsed (_body request) = false /\
    well_formed_request store_with_post_request request.
Proof.
  exact (constructed_request_well_formed
           (InputOther "https://fetch.spec.whatwg.org/") post_options
           empty_store store_with_post_request 0 eq_refl).
Defined.

(** The assembly of [clone()]: a copy of the headers is made, a Body is
    built from the body value of [this], and [this] is left alone. *)
Lemma assemble_clone (r : nat) (this : Request) (σ σb : Store) (b : Body) :
  heap_requests σ !! r = Some this ->
  bodyUsed (_body this) = false ->
  Body.constructor (_bodyInit (_body this))
    (set_headers (heap_headers σ ++ [default [] (heap_headers σ !! headers this)]) σ)
  = (σb, Normal b) ->
  Request.assemble (InputRequest r)
    {| opt_method := None; opt_headers := None;
       opt_body := _bodyInit (_body this);
       opt_credentials := None; opt_signal := None |} σ
  = (σb,
     Normal {| Request.as_this :=
                 {| Request.this_url := url this;
                    Request.this_credentials := Some (credentials this);
                    Request.this_method := Some (method this);
                    Request.this_signal := signal this;
                    Request.this_headers := Some (InitHeaders (length (heap_headers σ)));
                    Request.this_body := None |};
               Request.as_body := b;
               Request.as_method := method this |}).
Proof.
  intros Hs Hu Hb.
  unfold Request.assemble, bind at 1 2; rewrite Hs, Hu.
  unfold Request.__handleRequestInput; simpl opt_headers; simpl opt_body.
  replace (negb (truthy (_bodyInit (_body this)))
           && truthy (_bodyInit (_body this))) with false
    by (destruct (truthy _); reflexivity).
  unfold bind, new_Headers, ret; simpl.
  rewrite Hb; reflexivity.
Qed.

Lemma clone_returns (r : nat) (this : Request) (σ : Store) :
  heap_requests σ !! r = Some this ->
  bodyUsed (_body this) = false ->
  well_formed_request σ this ->
  exists σ' r', Request.clone r σ = (σ', Normal r').
Proof.
  intros Hs Hu (Hok & Hstream & Hcheck & Hlt).
  unfold Request.clone; rewrite Hs.
  destruct (Body_constructor_returns (_bodyInit (_body this))
              (set_headers (heap_headers σ ++ [default [] (heap_headers σ !! headers this)]) σ)
              Hok) as (σb & b & Hb & Hnone).
  pose proof (Body_constructor_Normal _ _ _ _ Hb) as (_ & Hinit & _ & Hbh & _).
  simpl in Hbh.
  unfold Request.constructor.
  rewrite (bind_step _ _ _ _ _ (assemble_clone r this σ σb b Hs Hu Hb)).
  cbn [Request.as_body Request.as_method Request.as_this Request.this_headers
       Request.this_url Request.this_credentials Request.this_signal].
  rewrite Hinit, Hcheck, Hnone; simpl.
  assert (Hl : heap_headers σb !! length (heap_headers σ)
               = Some (default [] (heap_headers σ !! headers this))).
  { rewrite Hbh; apply list_lookup_middle; reflexivity. }
  rewrite (bind_step (ret _) _ σb σb _ eq_refl); cbv beta iota.
  rewrite (bind_step _ _ _ _ _ (headers_has_lookup _ "content-type" _ σb Hl)).
  destruct (_mimeType b) as [mime|].
  - destruct (Headers.has "content-type" _) eqn:Hhas; simpl.
    + unfold bind, ret, Request.alloc; eauto.
    + destruct (truthy_string mime).
      * rewrite (bind_step _ _ _ _ _ (headers_set_absent _ mime _ σb Hl Hhas)).
        unfold Request.alloc; eauto.
      * unfold bind, ret, Request.alloc; eauto.
  - unfold bind, ret, Request.alloc; eauto.
Qed.

(** X7.  [clone()] of a Request.  On every unconsumed Request the
    constructor has built, [clone()] returns: the clone is another
    Request, unconsumed and well formed in its turn, with the same body
    value and method and a Headers object of its own, and the original is
    as it was. *)
Theorem clone_of_constructed_request (r : nat) (this : Request) (σ : Store) :
  heap_requests σ !! r = Some this ->
  bodyUsed (_body this) = false ->
  well_formed_request σ this ->
  exists σ' r' clone,
    Request.clone r σ = (σ', Normal r') /\
    r' <> r /\
    heap_requests σ' !! r = Some this /\
    heap_requests σ' !! r' = Some clone /\
    bodyUsed (_body clone) = false /\
    well_formed_request σ' clone /\
    _bodyInit (_body clone) = _bodyInit (_body this) /\
    method clone = method this /\
    headers clone <> headers this.
Proof.
  intros Hs Hu Hwf.
  destruct (clone_returns r this σ Hs Hu Hwf) as (σ' & r' & Hc).
  exists σ', r'.
  destruct (Request_clone_independent r this σ Hs) as (_ & Hind).
  destruct (Hind σ' r' Hc)
    as (_ & Hne & Hkeep & clone & Hl & _ & Hinit & Hmeth & Hh & _).
  unfold Request.clone in Hc; rewrite Hs in Hc.
  destruct (constructed_well_formed _ _ _ _ _ Hc) as (clone' & Hl' & Hu' & Hwf').
  rewrite Hl in Hl'; inversion Hl'; subst clone'.
  exists clone; split; [unfold Request.clone; rewrite Hs; exact Hc|].
  repeat (split; [assumption|]).
  destruct Hwf as (_ & _ & _ & Hlt); lia.
Qed.

Lemma clone_of_constructed_request_witness :
  exists σ' r' clone,
    Request.clone 0 store_with_post_request = (σ', Normal r') /\
    r' <> 0 /\
    heap_requests σ' !! r' = Some clone /\
    _bodyInit (_body clone) = InitString (js "I work out").
Proof.
  destruct (clone_of_constructed_request 0 _ store_with_post_request eq_refl eq_refl)
    as (σ' & r' & clone & Hc & Hne & _ & Hl & _ & _ & Hinit & _).
  - repeat split; simpl; lia.
  - exists σ', r', clone; repeat split; assumption.
Defined.

(** ** Request: fields, headers and refusals *)

(** The fields an assembly takes from its source. *)
Lemma assemble_request_fields (r1 : nat) (options : Options) (σ σ1 : Store)
    (a : Request.Assembled) :
  Request.assemble (InputRequest r1) options σ = (σ1, Normal a) ->
  exists source,
    heap_requests σ !! r1 = Some source /\
    Request.this_url (Request.as_this a) = url source /\
    Request.this_credentials (Request.as_this a) = Some (credentials source) /\
    Request.this_signal (Request.as_this a) = signal source.
Proof.
  unfold Request.assemble; intros Ha.
  apply bind_Normal in Ha as (σ0 & this & Hthis & Ha).
  destruct (heap_requests σ !! r1) as [request|] eqn:Hr; [|discriminate Hthis].
  destruct (bodyUsed (_body request)) eqn:Hu; [discriminate Hthis|].
  unfold Request.__handleRequestInput in Hthis.
  apply bind_Normal in Hthis as (σh & headers_ & Hh & Hthis).
  exists request; split; [reflexivity|].
  destruct (negb (truthy (opt_body options)) && truthy (_bodyInit (_body request))).
  - apply bind_Normal in Hthis as (σb & b & Hb & Hthis).
    apply bind_Normal in Hthis as (σm & [] & Hm & Hthis).
    inversion Hthis; subst; clear Hthis; simpl in Ha.
    inversion Ha; subst; simpl; auto.
  - inversion Hthis; subst; clear Hthis; simpl in Ha.
    apply bind_Normal in Ha as (σb & b & Hb & Ha).
    inversion Ha; subst; simpl; auto.
Qed.

(** X8.  The url, credentials and signal of a Request.  From a url the
    credentials default to "same-origin" and the signal is the one of the
    options; from a Request the url is the source's, and the credentials
    and the signal are the source's unless the options give them. *)
Theorem fields_of_constructed_request (input : Input) (options : Options)
    (σ σ' : Store) (r : nat) :
  Request.constructor input options σ = (σ', Normal r) ->
  exists request,
    heap_requests σ' !! r = Some request /\
    match input with
    | InputOther u =>
      url request = u /\
      credentials request
      = default "same-origin"%string (opt_credentials options) /\
      signal request = opt_signal options
    | InputRequest r1 =>
      exists source,
        heap_requests σ !! r1 = Some source /\
        url request = url source /\
        credentials request
        = default (credentials source) (opt_credentials options) /\
        signal request
        = match opt_signal options with
          | Some s => Some s
          | None => signal source
          end
    end.
Proof.
  intros Hc.
  apply constructor_Normal in Hc
    as (a & σ1 & σ2 & h & Ha & _ & _ & (_ & _ & Hr2 & _) & _ & _ & -> & ->).
  simpl; rewrite Hr2.
  eexists; split; [apply list_lookup_middle; reflexivity|]; simpl.
  destruct input as [r1|u].
  - apply assemble_request_fields in Ha as (source & Hs & -> & -> & ->).
    exists source; auto.
  - apply assemble_other in Ha as (_ & _ & ->); simpl.
    destruct (opt_signal options); auto.
Qed.

Lemma fields_of_constructed_request_witness :
  exists request,
    heap_requests store_with_post_request !! 0 = Some request /\
    url request = "https://fetch.spec.whatwg.org/"%string /\
    credentials request = "same-origin"%string /\
    signal request = None.
Proof.
  exact (fields_of_constructed_request
           (InputOther "https://fetch.spec.whatwg.org/") post_options
           empty_store store_with_post_request 0 eq_refl).
Defined.

(** X9.  The Headers object of a Request.  From a url the constructor makes
    a Headers object of its own from [options.headers]; from a Request
    without [options.headers] it makes a copy of the source's headers; from
    a Request with a Headers object in [options.headers] it takes that very
    object, so that the caller's object is the one written to.  In each
    case the content type of the body is added when the table has none and
    the body has a non-empty type. *)
Theorem headers_of_constructed_request (input : Input) (options : Options)
    (σ σ' : Store) (r : nat) :
  Request.constructor input options σ = (σ', Normal r) ->
  exists request t,
    heap_requests σ' !! r = Some request /\
    heap_headers σ' !! headers request
    = Some (with_content_type (_mimeType (_body request)) t) /\
    match input, opt_headers options with
    | InputRequest _, Some given =>
      given = InitHeaders (headers request) /\
      heap_headers σ !! headers request = Some t
    | InputRequest r1, None =>
      headers request = length (heap_headers σ) /\
      exists source,
        heap_requests σ !! r1 = Some source /\
        t = default [] (heap_headers σ !! headers source)
    | InputOther _, init =>
      headers request = length (heap_headers σ) /\
      match init with
      | None => t = []
      | Some (InitHeaders h0) => t = default [] (heap_headers σ !! h0)
      | Some (InitPairs pairs) => Headers.of_pairs pairs [] = Normal t
      end
    end.
Proof.
  intros Hc.
  apply constructor_headers_table in Hc
    as (a & σ1 & σh & h & t & Ha & Hh & Ht & Htable & request & Hl & Hhr & Hb).
  exists request, t; split; [exact Hl|].
  rewrite Hhr, Hb; split.
  { rewrite Htable; apply list_lookup_insert_eq.
    eapply lookup_lt_Some; exact Ht. }
  destruct input as [r1|u].
  - apply assemble_request in Ha
      as (source & σa & σb & Hs & _ & _ & _ & _ & Hhv & Hhh & _).
    destruct (Request.this_headers (Request.as_this a)) as [[h1|pairs]|];
      [| |contradiction].
    + destruct Hh as (Heq & ->); inversion Heq; subst h1; clear Heq.
      destruct (opt_headers options) as [given|].
      * destruct Hhv as (-> & ->); split; [reflexivity|]. congruence.
      * destruct Hhv as (-> & Happ); split; [reflexivity|].
        exists source; split; [exact Hs|].
        rewrite Hhh, Happ, list_lookup_middle in Ht by reflexivity.
        congruence.
    + destruct Hh as (Heq & _); discriminate Heq.
  - apply assemble_other in Ha as (Hbody & _ & Hthis).
    rewrite Hthis in Hh; simpl in Hh.
    apply Body_constructor_Normal in Hbody as (_ & _ & _ & Hbh & _).
    apply new_Headers_Normal in Hh as (-> & table & Happ & Htab).
    rewrite Happ, list_lookup_middle in Ht by reflexivity.
    inversion Ht; subst table; clear Ht.
    rewrite Hbh in *; split; [reflexivity|].
    destruct (opt_headers options) as [[h0|pairs]|]; exact Htab.
Qed.

Lemma headers_of_constructed_request_witness :
  exists request,
    heap_requests store_with_post_request !! 0 = Some request /\
    heap_headers store_with_post_request !! headers request
    = Some [("content-type", "text/plain;charset=UTF-8")]%string.
Proof.
  destruct (headers_of_constructed_request
              (InputOther "https://fetch.spec.whatwg.org/") post_options
              empty_store store_with_post_request 0 eq_refl)
    as (request & t & Hl & Ht & _ & Hnil).
  simpl in Hnil; subst t.
  exists request; split; [exact Hl|].
  inversion Hl; subst request; exact Ht.
Defined.

(** X10.  A stream as the body of a Request.  The constructor refuses it,
    before any object is made: with "Body not allowed for GET or HEAD
    requests" when the method is "GET" (the default) or "HEAD", and with
    "Streaming request bodies is not supported" for every other method. *)
Theorem stream_body_is_refused (u : string) (options : Options) (s : nat)
    (σ : Store) :
  opt_body options = InitStream s ->
  Request.constructor (InputOther u) options σ
  = (σ,
     Throw (NewTypeError
              (if existsb (String.eqb (default "GET"%string (opt_method options)))
                    ["GET"; "HEAD"]%string
               then "Body not allowed for GET or HEAD requests"
               else "Streaming request bodies is not supported"))).
Proof.
  intros Hbody.
  unfold Request.constructor, Request.assemble, bind, ret; simpl.
  rewrite Hbody; simpl.
  destruct (opt_method options) as [m|]; simpl; [|reflexivity].
  destruct (String.eqb m "GET" || (String.eqb m "HEAD" || false)); reflexivity.
Qed.

Lemma stream_body_is_refused_witness :
  Request.constructor (InputOther "/upload")
    {| opt_method := Some "POST"%string; opt_headers := None;
       opt_body := InitStream 0;
       opt_credentials := None; opt_signal := None |} empty_store
  = (empty_store,
     Throw (NewTypeError "Streaming request bodies is not supported")).
Proof.
  exact (stream_body_is_refused "/upload"
           {| opt_method := Some "POST"%string; opt_headers := None;
              opt_body := InitStream 0;
              opt_credentials := None; opt_signal := None |} 0 empty_store
           eq_refl).
Defined.

(** The assembly from a Request whose body is taken over. *)
Lemma assemble_moves (r1 : nat) (source : Request) (options : Options)
    (σ σb : Store) (b : Body) :
  heap_requests σ !! r1 = Some source ->
  bodyUsed (_body source) = false ->
  truthy (opt_body options) = false ->
  truthy (_bodyInit (_body source)) = true ->
  let made :=
    match opt_headers options with
    | Some given => (σ, given)
    | None =>
      (set_headers
         (heap_headers σ ++ [default [] (heap_headers σ !! headers source)]) σ,
       InitHeaders (length (heap_headers σ)))
    end in
  Body.constructor (_bodyInit (_body source)) (fst made) = (σb, Normal b) ->
  Request.assemble (InputRequest r1) options σ
  = (set_requests
       (<[r1 := set_body (set_bodyUsed true (_body source)) source]>
          (heap_requests σb)) σb,
     Normal {| Request.as_this :=
                 {| Request.this_url := url source;
                    Request.this_credentials := Some (credentials source);
                    Request.this_method := Some (method source);
                    Request.this_signal := signal source;
                    Request.this_headers := Some (snd made);
                    Request.this_body := Some b |};
               Request.as_body := b;
               Request.as_method :=
                 default (method source) (opt_method options) |}).
Proof.
  intros Hs Hu Hfalsy Htruthy made Hb.
  assert (Hr : heap_requests σb !! r1 = Some source).
  { apply Body_constructor_Normal in Hb as (_ & _ & _ & _ & -> & _).
    subst made; destruct (opt_headers options); exact Hs. }
  unfold Request.assemble, bind at 1 2; rewrite Hs, Hu.
  unfold Request.__handleRequestInput; rewrite Hfalsy, Htruthy.
  subst made; destruct (opt_headers options) as [given|]; simpl in Hb |- *.
  - unfold bind, ret, Request.mark_used; simpl.
    rewrite Hb, Hr; reflexivity.
  - unfold bind, new_Headers, ret, Request.mark_used; simpl.
    rewrite Hb, Hr; reflexivity.
Qed.

(** X11.  A construction that fails after the body was taken over.  From an
    unconsumed Request with a body, options that change the method to
    "GET" or "HEAD" and bring no body make the constructor throw "Body not
    allowed for GET or HEAD requests"; no Request is made, and yet the
    source is left consumed. *)
Theorem refused_construction_consumes_source (r1 : nat) (source : Request)
    (options : Options) (m : string) (σ : Store) :
  heap_requests σ !! r1 = Some source ->
  bodyUsed (_body source) = false ->
  well_formed_request σ source ->
  truthy (_bodyInit (_body source)) = true ->
  truthy (opt_body options) = false ->
  opt_method options = Some m ->
  m = "GET"%string \/ m = "HEAD"%string ->
  exists σ',
    Request.constructor (InputRequest r1) options σ
    = (σ', Throw (NewTypeError "Body not allowed for GET or HEAD requests")) /\
    length (heap_requests σ') = length (heap_requests σ) /\
    Request.bodyUsed r1 σ' = Some true.
Proof.
  intros Hs Hu (Hok & _) Htruthy Hfalsy Hm Hget.
  set (made := match opt_headers options with
               | Some given => (σ, given)
               | None =>
                 (set_headers
                    (heap_headers σ
                     ++ [default [] (heap_headers σ !! headers source)]) σ,
                  InitHeaders (length (heap_headers σ)))
               end).
  destruct (Body_constructor_returns (_bodyInit (_body source)) (fst made) Hok)
    as (σb & b & Hb & _).
  pose proof (assemble_moves r1 source options σ σb b Hs Hu Hfalsy Htruthy Hb)
    as Ha.
  pose proof (Body_constructor_Normal _ _ _ _ Hb) as (_ & Hinit & _ & _ & Hbr & _).
  assert (Hreqs : heap_requests σb = heap_requests σ).
  { rewrite Hbr; subst made; destruct (opt_headers options); reflexivity. }
  eexists; split; [|split].
  - unfold Request.constructor.
    rewrite (bind_step _ _ _ _ _ Ha).
    cbn [Request.as_body Request.as_method].
    rewrite Hinit, Htruthy, Hm.
    destruct Hget as [-> | ->]; reflexivity.
  - simpl; rewrite length_insert, Hreqs; reflexivity.
  - unfold Request.bodyUsed; simpl.
    rewrite list_lookup_insert_eq
      by (rewrite Hreqs; eapply lookup_lt_Some; exact Hs).
    reflexivity.
Qed.

Lemma refused_construction_consumes_source_witness :
  exists σ',
    Request.constructor (InputRequest 0)
      {| opt_method := Some "GET"%string; opt_headers := None;
         opt_body := InitNull; opt_credentials := None; opt_signal := None |}
      store_with_post_request
    = (σ', Throw (NewTypeError "Body not allowed for GET or HEAD requests")) /\
    length (heap_requests σ') = 1 /\
    Request.bodyUsed 0 σ' = Some true.
Proof.
  refine (refused_construction_consumes_source 0 _
            {| opt_method := Some "GET"%string; opt_headers := None;
               opt_body := InitNull; opt_credentials := None;
               opt_signal := None |} "GET" store_with_post_request
            eq_refl eq_refl _ eq_refl eq_refl eq_refl (or_introl eq_refl)).
  repeat split; simpl; lia.
Defined.

(** X12.  [options.headers] as a plain mapping, the input being a Request.
    [__handleRequestInput] stores the mapping itself in [this.headers]
    (only an absent [options.headers] is replaced by a Headers object),
    and the constructor then calls [has] on it: it throws a TypeError
    whatever the mapping holds, after a body of the source was taken
    over. *)
Theorem plain_headers_with_request_input (r1 : nat) (source : Request)
    (options : Options) (pairs : list (string * string)) (σ : Store) :
  heap_requests σ !! r1 = Some source ->
  bodyUsed (_body source) = false ->
  well_formed_request σ source ->
  opt_headers options = Some (InitPairs pairs) ->
  truthy (opt_body options) = false ->
  opt_method options = None ->
  exists σ',
    Request.constructor (InputRequest r1) options σ
    = (σ', Throw (NewTypeError "this.headers.has is not a function")) /\
    Request.bodyUsed r1 σ' = Some (truthy (_bodyInit (_body source))).
Proof.
  intros Hs Hu (Hok & _ & Hcheck & _) Hh Hfalsy Hm.
  destruct (truthy (_bodyInit (_body source))) eqn:Htruthy.
  - destruct (Body_constructor_returns (_bodyInit (_body source)) σ Hok)
      as (σb & b & Hb & Hnone).
    pose proof (assemble_moves r1 source options σ σb b Hs Hu Hfalsy Htruthy)
      as Ha.
    rewrite Hh in Ha; specialize (Ha Hb).
    pose proof (Body_constructor_Normal _ _ _ _ Hb)
      as (_ & Hinit & _ & _ & Hbr & _).
    eexists; split.
    + unfold Request.constructor.
      rewrite (bind_step _ _ _ _ _ Ha).
      cbn [Request.as_body Request.as_method Request.as_this
           Request.this_headers snd].
      rewrite Hinit, Htruthy, Hm, Hnone; simpl in Hcheck |- *.
      rewrite Hcheck; reflexivity.
    + unfold Request.bodyUsed; simpl.
      rewrite list_lookup_insert_eq
        by (rewrite Hbr; eapply lookup_lt_Some; exact Hs).
      reflexivity.
  - exists σ; split.
    + unfold Request.constructor, Request.assemble, bind at 1 2 3.
      rewrite Hs, Hu.
      unfold Request.__handleRequestInput; rewrite Hh, Htruthy, andb_false_r.
      unfold bind, ret; simpl.
      rewrite (Body_constructor_falsy _ σ Hfalsy); simpl.
      rewrite Hfalsy; reflexivity.
    + unfold Request.bodyUsed; rewrite Hs; simpl; rewrite Hu; reflexivity.
Qed.

Lemma plain_headers_with_request_input_witness :
  exists σ',
    Request.constructor (InputRequest 0)
      {| opt_method := None;
         opt_headers := Some (InitPairs [("Accept", "text/plain")]%string);
         opt_body := InitNull; opt_credentials := None; opt_signal := None |}
      store_with_post_request
    = (σ', Throw (NewTypeError "this.headers.has is not a function")) /\
    Request.bodyUsed 0 σ' = Some true.
Proof.
  refine (plain_headers_with_request_input 0 _
            {| opt_method := None;
               opt_headers := Some (InitPairs [("Accept", "text/plain")]%string);
               opt_body := InitNull; opt_credentials := None;
               opt_signal := None |} _ store_with_post_request
            eq_refl eq_refl _ eq_refl eq_refl eq_refl).
  repeat split; simpl; lia.
Defined.

(** ** Fetch: the start of an exchange *)

Section FetchStart.
Context {platform : Platform}.

Lemma Fetch_constructor_of_request (resource : Input) (options : Options)
    (σ σ' : Store) (r : nat) (request : Request) :
  Request.constructor resource options σ = (σ', Normal r) ->
  heap_requests σ' !! r = Some request ->
  Fetch.constructor resource options σ
  = if match signal request with
       | Some s => default false (heap_signals σ' !! s)
       | None => false
       end
    then (σ', Throw NewAbortError)
    else (σ',
          Normal (Fetch.__doFetch request
                    (Fetch.fields r
                       (default [] (heap_headers σ' !! headers request))))).
Proof.
  intros Hr Hl; unfold Fetch.constructor.
  rewrite (bind_step _ _ _ _ _ Hr), Hl; reflexivity.
Qed.

Lemma Fetch_constructor_result (resource : Input) (options : Options)
    (σ σ' : Store) (this : Fetch.t) :
  Fetch.constructor resource options σ = (σ', Normal this) ->
  exists r request,
    Request.constructor resource options σ = (σ', Normal r) /\
    heap_requests σ' !! r = Some request /\
    this = Fetch.__doFetch request
             (Fetch.fields r (default [] (heap_headers σ' !! headers request))).
Proof.
  unfold Fetch.constructor; intros Hc.
  apply bind_Normal in Hc as (σ1 & r & Hr & Hc).
  destruct (heap_requests σ1 !! r) as [request|] eqn:Hl; [|discriminate Hc].
  destruct (match signal request with Some s => _ | None => _ end);
    inversion Hc; subst; eauto.
Qed.

(** X13.  What [new Fetch(resource, options)] does once the Request is
    built.  When the signal of the Request is already aborted it throws
    the abort error, and nothing is sent.  Otherwise it subscribes to the
    five transport events, registers the abort listener when there is a
    signal, and sends one request: the method, url, headers and body value
    of the Request, the response type "blob", no incremental events, no
    timeout, and credentials for "include" and "same-origin"; the outcome
    is pending and the request has no id yet. *)
Theorem fetch_starts_exchange (resource : Input) (options : Options)
    (σ σ' : Store) (r : nat) (request : Request) :
  Request.constructor resource options σ = (σ', Normal r) ->
  heap_requests σ' !! r = Some request ->
  if match signal request with
     | Some s => default false (heap_signals σ' !! s)
     | None => false
     end
  then Fetch.constructor resource options σ = (σ', Throw NewAbortError)
  else
    exists this,
      Fetch.constructor resource options σ = (σ', Normal this) /\
      Fetch._request this = r /\
      Fetch.sent this
      = [{| sub_method := method request;
            sub_trackingName := url request;
            sub_url := url request;
            sub_headers := default [] (heap_headers σ' !! headers request);
            sub_body := _bodyInit (_body request);
            sub_responseType := "blob";
            sub_incrementalEvents := false;
            sub_timeout := 0;
            sub_withCredentials :=
              existsb (String.eqb (credentials request))
                ["include"; "same-origin"]%string |}] /\
      Fetch._nativeNetworkSubscriptions this = Fetch.event_names /\
      Fetch.abort_listener this
      = match signal request with Some _ => true | None => false end /\
      Fetch._requestId this = None /\
      Fetch._deferredPromise this = Pending /\
      Fetch.abortRequest_calls this = [].
Proof.
  intros Hr Hl.
  rewrite (Fetch_constructor_of_request _ _ _ _ _ _ Hr Hl).
  destruct (match signal request with Some s => _ | None => _ end); [reflexivity|].
  eexists; split; [reflexivity|].
  unfold Fetch.__doFetch; destruct (signal request); simpl; auto 10.
Qed.

End FetchStart.

Lemma fetch_starts_exchange_witness :
  exists this,
    @Fetch.constructor latin1_platform
      (InputOther "https://fetch.spec.whatwg.org/") post_options empty_store
    = (store_with_post_request, Normal this) /\
    Fetch._request this = 0 /\
    map sub_method (Fetch.sent this) = ["POST"%string] /\
    map sub_headers (Fetch.sent this)
    = [[("content-type", "text/plain;charset=UTF-8")]%string].
Proof.
  destruct (@fetch_starts_exchange latin1_platform
              (InputOther "https://fetch.spec.whatwg.org/") post_options
              empty_store store_with_post_request 0 _ eq_refl eq_refl)
    as (this & Hc & Hr & Hsent & _).
  exists this; rewrite Hsent; repeat split; assumption.
Defined.

(** ** Fetch: the events of an exchange *)

Section FetchEvents.
Context {platform : Platform}.

Lemma same_request_true (requestId : nat) (this : Fetch.t) :
  Fetch._requestId this = Some requestId ->
  Fetch.same_request requestId this = true.
Proof.
  intros Hid; unfold Fetch.same_request; rewrite Hid.
  apply bool_decide_eq_true_2; reflexivity.
Qed.

Lemma same_request_false (requestId : nat) (this : Fetch.t) :
  Fetch._requestId this <> Some requestId ->
  Fetch.same_request requestId this = false.
Proof.
  intros Hid; unfold Fetch.same_request.
  apply bool_decide_eq_false_2; congruence.
Qed.

(** X14.  Events of another request.  A transport event whose request id is
    not the one the transport gave to this request changes nothing, in the
    object or in the store, and throws nothing; so does every transport
    event that arrives before the id is known. *)
Theorem events_of_other_requests_are_ignored (ev : Fetch.Event)
    (requestId : nat) (this : Fetch.t) (σ : Store) :
  transport_id ev = Some requestId ->
  Fetch._requestId this <> Some requestId ->
  Fetch.deliver ev this σ = (this, σ, Normal ()).
Proof.
  intros Hev Hid.
  destruct ev as [id|id st hs u|id d|id t p tot|id l tot|id msg timeout| |];
    try discriminate Hev; inversion Hev; subst id; simpl;
    destruct (Fetch.subscribed _ this); try reflexivity;
    unfold Fetch.__didReceiveNetworkResponse, Fetch.__didReceiveNetworkData,
      Fetch.__didReceiveNetworkIncrementalData,
      Fetch.__didCompleteNetworkResponse;
    rewrite (same_request_false _ _ Hid); reflexivity.
Qed.


(** Without subscriptions no transport event is heard, and without the
    abort listener no abort. *)
Lemma unheard_event (ev : Fetch.Event) (this : Fetch.t) (σ : Store) :
  Fetch._nativeNetworkSubscriptions this = [] ->
  is_Some (transport_id ev)
  \/ (ev = Fetch.Abort /\ Fetch.abort_listener this = false) ->
  Fetch.deliver ev this σ = (this, σ, Normal ()).
Proof.
  intros Hsubs [[id Hev] | (-> & Hl)].
  - destruct ev; try discriminate Hev; simpl; unfold Fetch.subscribed;
      rewrite Hsubs; reflexivity.
  - simpl; rewrite Hl; reflexivity.
Qed.

Lemma unheard_events (evs : list Fetch.Event) (this : Fetch.t) (σ : Store) :
  Fetch._nativeNetworkSubscriptions this = [] ->
  Forall (fun ev => is_Some (transport_id ev)
                    \/ (ev = Fetch.Abort /\ Fetch.abort_listener this = false))
    evs ->
  Fetch.run evs this σ = (this, σ).
Proof.
  intros Hsubs Hall; induction Hall as [|ev evs Hev _ IH]; [reflexivity|].
  simpl; rewrite (unheard_event ev this σ Hsubs Hev); exact IH.
Qed.

Lemma reject_fields (e : JsError) (this : Fetch.t) :
  Fetch._nativeNetworkSubscriptions (Fetch.reject e this)
  = Fetch._nativeNetworkSubscriptions this /\
  Fetch.abort_listener (Fetch.reject e this) = Fetch.abort_listener this /\
  Fetch.abortRequest_calls (Fetch.reject e this) = Fetch.abortRequest_calls this.
Proof.
  unfold Fetch.reject; destruct (Fetch._deferredPromise this); auto.
Qed.

(** The completion event of this request drops the subscriptions and the
    abort listener, whatever it reports. *)
Lemma completion_tears_down (this this1 : Fetch.t) (σ σ1 : Store)
    (requestId : nat) (errorMessage : option string) (didTimeOut : bool)
    (c : Completion unit) :
  Fetch.subscribed "didCompleteNetworkResponse" this = true ->
  Fetch._requestId this = Some requestId ->
  Fetch.deliver
    (Fetch.DidCompleteNetworkResponse requestId errorMessage didTimeOut) this σ
  = (this1, σ1, c) ->
  Fetch._nativeNetworkSubscriptions this1 = [] /\
  Fetch.abort_listener this1 = false /\
  Fetch.abortRequest_calls this1 = Fetch.abortRequest_calls this.
Proof.
  intros Hsub Hid; simpl; rewrite Hsub.
  unfold Fetch.__didCompleteNetworkResponse.
  rewrite (same_request_true _ _ Hid); simpl.
  destruct didTimeOut; [|destruct (Fetch.truthy_message errorMessage)].
  - intros Hd; inversion Hd; subst.
    destruct (reject_fields (NewError "Network request timed out")
                (Fetch.set_abort_listener false
                   (Fetch.__clearNetworkSubscriptions this)))
      as (-> & -> & ->); auto.
  - intros Hd; inversion Hd; subst.
    match goal with
    | |- context [Fetch.reject ?e ?t] =>
      destruct (reject_fields e t) as (-> & -> & ->)
    end; auto.
  - simpl.
    destruct (Fetch._nativeResponse this) as [d|];
      [destruct (truthy_data d)|];
      try (intros Hd; inversion Hd; subst; auto; fail);
      destruct (Fetch._streamController this);
      try (intros Hd; inversion Hd; subst; auto; fail);
      destruct (Fetch.controller_close _ σ);
      intros Hd; inversion Hd; subst; auto.
Qed.

(** X15.  The end of an exchange.  Once the completion event of this request
    has been handled, whatever it reported, the object hears nothing any
    more: every transport event and every abort of the signal that
    follows leaves the object and the store as they are, and the
    transport is never asked to abort. *)
Theorem nothing_is_heard_after_completion (this this1 : Fetch.t)
    (σ σ1 : Store) (requestId : nat) (errorMessage : option string)
    (didTimeOut : bool) (c : Completion unit) (evs : list Fetch.Event) :
  Fetch.subscribed "didCompleteNetworkResponse" this = true ->
  Fetch._requestId this = Some requestId ->
  Fetch.deliver
    (Fetch.DidCompleteNetworkResponse requestId errorMessage didTimeOut) this σ
  = (this1, σ1, c) ->
  Forall (fun ev => is_Some (transport_id ev) \/ ev = Fetch.Abort) evs ->
  Fetch.run evs this1 σ1 = (this1, σ1) /\
  Fetch.abortRequest_calls this1 = Fetch.abortRequest_calls this.
Proof.
  intros Hsub Hid Hd Hall.
  destruct (completion_tears_down _ _ _ _ _ _ _ _ Hsub Hid Hd)
    as (Hsubs & Hl & Hcalls).
  split; [|exact Hcalls].
  apply unheard_events; [exact Hsubs|].
  eapply List.Forall_impl; [|exact Hall].
  intros ev [Hev | ->]; auto.
Qed.

(** X16.  A cancellation of the response stream by its reader.  While
    the stream can still be read (it is open, or closing with chunks
    left), the callback given to [createStream] runs: it drops the
    subscriptions and asks the transport, once, to abort this request; the
    outcome is left as it is, nothing is thrown, and no transport event
    that follows is heard.  On a stream that is closed or errored the
    callback does not run: nothing changes, and the transport is not asked
    to abort. *)
Theorem cancel_stops_the_exchange (this : Fetch.t) (σ : Store) (c : nat)
    (st : ReadableStream) (evs : list Fetch.Event) :
  Fetch._streamController this = Some c ->
  heap_streams σ !! c = Some st ->
  Forall (fun ev => is_Some (transport_id ev)) evs ->
  if can_be_read st then
    exists this' σ',
      Fetch.deliver Fetch.Cancel this σ = (this', σ', Normal ()) /\
      Fetch.abortRequest_calls this'
      = Fetch.abortRequest_calls this ++ [Fetch._requestId this] /\
      Fetch._deferredPromise this' = Fetch._deferredPromise this /\
      Fetch.run evs this' σ' = (this', σ')
  else Fetch.deliver Fetch.Cancel this σ = (this, σ, Normal ()).
Proof.
  intros Hc Hst Hall; simpl; unfold Fetch.stream_cancel; rewrite Hc, Hst.
  destruct (can_be_read st); [|reflexivity].
  eexists _, _; split; [reflexivity|]; simpl.
  split; [reflexivity|]. split; [reflexivity|].
  apply unheard_events; [reflexivity|].
  eapply List.Forall_impl; [|exact Hall]; auto.
Qed.

(** X17.  A completion that reports a failure while the outcome is pending.
    A timeout rejects the outcome with "Network request timed out", also
    when an error message comes with it; an error message without a
    timeout rejects it with "Network request failed: " and the message.
    The store is not touched: no stream is closed or errored. *)
Theorem failed_completion_rejects (this : Fetch.t) (σ : Store)
    (requestId : nat) (errorMessage : option string) (didTimeOut : bool) :
  Fetch.subscribed "didCompleteNetworkResponse" this = true ->
  Fetch._requestId this = Some requestId ->
  Fetch._deferredPromise this = Pending ->
  didTimeOut = true \/ Fetch.truthy_message errorMessage = true ->
  exists this',
    Fetch.deliver
      (Fetch.DidCompleteNetworkResponse requestId errorMessage didTimeOut) this σ
    = (this', σ, Normal ()) /\
    Fetch._deferredPromise this'
    = Rejected
        (NewError
           (if didTimeOut then "Network request timed out"%string
            else String.append "Network request failed: "
                   (default ""%string errorMessage))).
Proof.
  intros Hsub Hid Hp Hfail; simpl; rewrite Hsub.
  unfold Fetch.__didCompleteNetworkResponse.
  rewrite (same_request_true _ _ Hid); simpl.
  destruct didTimeOut.
  - eexists; split; [reflexivity|].
    unfold Fetch.reject; simpl; rewrite Hp; reflexivity.
  - destruct Hfail as [Hf | Hmsg]; [discriminate Hf|]; rewrite Hmsg.
    eexists; split; [reflexivity|].
    unfold Fetch.reject; simpl; rewrite Hp; reflexivity.
Qed.

(** X18.  A failure reported after the response has arrived.  The outcome
    stays fulfilled with the Response and the store is not touched, so
    the stream of the Response is neither closed nor errored; as the
    subscriptions are gone nothing will close it, and a read of the body
    of the Response, whose stream is still open, stays pending. *)
Theorem failure_after_response_is_dropped (this : Fetch.t) (σ : Store)
    (requestId : nat) (errorMessage : option string) (didTimeOut : bool)
    (response : Response.t) (s : nat) (st : ReadableStream) :
  Fetch.subscribed "didCompleteNetworkResponse" this = true ->
  Fetch._requestId this = Some requestId ->
  Fetch._deferredPromise this = Fulfilled response ->
  didTimeOut = true \/ Fetch.truthy_message errorMessage = true ->
  _bodyReadableStream (Response._body response) = Some s ->
  bodyUsed (Response._body response) = false ->
  heap_streams σ !! s = Some st ->
  status st = Readable ->
  locked st = false ->
  exists this',
    Fetch.deliver
      (Fetch.DidCompleteNetworkResponse requestId errorMessage didTimeOut) this σ
    = (this', σ, Normal ()) /\
    Fetch._deferredPromise this' = Fulfilled response /\
    Fetch._nativeNetworkSubscriptions this' = [] /\
    snd (Response.text response σ) = Pending.
Proof.
  intros Hsub Hid Hp Hfail Hs Hu Hst Hopen Hl; simpl; rewrite Hsub.
  unfold Fetch.__didCompleteNetworkResponse.
  rewrite (same_request_true _ _ Hid); simpl.
  assert (Htext : snd (Response.text response σ) = Pending).
  { unfold Response.text, Response.on_body, Body.text, Body.__consumed.
    rewrite Hu; simpl; rewrite Hs.
    rewrite (drainStream_unlocked s st σ Hst Hl), Hopen; reflexivity. }
  destruct didTimeOut.
  - eexists; split; [reflexivity|].
    unfold Fetch.reject; simpl; rewrite Hp; auto.
  - destruct Hfail as [Hf | Hmsg]; [discriminate Hf|]; rewrite Hmsg.
    eexists; split; [reflexivity|].
    unfold Fetch.reject; simpl; rewrite Hp; auto.
Qed.

(** X19.  The outcome settles once.  Whatever events follow, in whatever
    order, an outcome that is fulfilled or rejected is never changed. *)
Theorem outcome_settles_once (evs : list Fetch.Event) (this : Fetch.t)
    (σ : Store) :
  Fetch._deferredPromise this <> Pending ->
  Fetch._deferredPromise (fst (Fetch.run evs this σ))
  = Fetch._deferredPromise this.
Proof.
  revert this σ; induction evs as [|ev evs IH]; intros this σ Hp;
    [reflexivity|].
  simpl.
  destruct (Fetch.deliver ev this σ) as [[this1 σ1] c] eqn:Hd.
  apply deliver_cases in Hd as (_ & [Heq | (Hpend & _)]); [|contradiction].
  rewrite IH by congruence; exact Heq.
Qed.

End FetchEvents.

Lemma events_of_other_requests_are_ignored_witness :
  Fetch.deliver (Fetch.DidCompleteNetworkResponse 2 None true)
    (fst in_flight) (snd in_flight)
  = (fst in_flight, snd in_flight, Normal ()).
Proof.
  refine (@events_of_other_requests_are_ignored latin1_platform
            (Fetch.DidCompleteNetworkResponse 2 None true) 2
            (fst in_flight) (snd in_flight) eq_refl _).
  discriminate.
Defined.

Lemma nothing_is_heard_after_completion_witness :
  exists this1 σ1,
    Fetch.deliver (Fetch.DidCompleteNetworkResponse 1 None false)
      (fst streaming) (snd streaming)
    = (this1, σ1, Normal ()) /\
    Fetch.run [@Fetch.DidReceiveNetworkData latin1_platform 1
                 (NewBlob [104; 105]%N "");
               Fetch.Abort;
               Fetch.DidCompleteNetworkResponse 1 (Some "late"%string) false]
      this1 σ1
    = (this1, σ1).
Proof.
  eexists _, _; split; [reflexivity|].
  refine (proj1 (@nothing_is_heard_after_completion latin1_platform
                   (fst streaming) _ (snd streaming) _ 1 None false (Normal ())
                   _ eq_refl eq_refl eq_refl _)).
  apply List.Forall_cons; [left; eexists; reflexivity|].
  apply List.Forall_cons; [right; reflexivity|].
  apply List.Forall_cons; [left; eexists; reflexivity|].
  apply List.Forall_nil.
Defined.

Lemma cancel_stops_the_exchange_witness :
  exists this' σ',
    Fetch.deliver Fetch.Cancel (fst streaming) (snd streaming)
    = (this', σ', Normal ()) /\
    Fetch.abortRequest_calls this' = [Some 1] /\
    Fetch.run [Fetch.DidCompleteNetworkResponse 1 None false] this' σ'
    = (this', σ').
Proof.
  destruct (@cancel_stops_the_exchange latin1_platform (fst streaming)
              (snd streaming) 0
              {| queue := []; status := Readable; locked := false |}
              [Fetch.DidCompleteNetworkResponse 1 None false] eq_refl eq_refl)
    as (this' & σ' & Hd & Hcalls & _ & Hrun).
  - apply List.Forall_cons; [eexists; reflexivity | apply List.Forall_nil].
  - exists this', σ'; repeat split; assumption.
Defined.

Lemma failed_completion_rejects_witness :
  exists this',
    Fetch.deliver
      (Fetch.DidCompleteNetworkResponse 1 (Some "offline"%string) true)
      (fst in_flight) (snd in_flight)
    = (this', snd in_flight, Normal ()) /\
    Fetch._deferredPromise this'
    = Rejected (NewError "Network request timed out").
Proof.
  exact (@failed_completion_rejects latin1_platform (fst in_flight)
           (snd in_flight) 1 (Some "offline"%string) true
           eq_refl eq_refl eq_refl (or_introl eq_refl)).
Defined.

Lemma failure_after_response_is_dropped_witness :
  exists this' response,
    Fetch.deliver
      (Fetch.DidCompleteNetworkResponse 1 (Some "reset"%string) false)
      (fst streaming) (snd streaming)
    = (this', snd streaming, Normal ()) /\
    Fetch._deferredPromise this' = Fulfilled response /\
    snd (@Response.text latin1_platform response (snd streaming)) = Pending.
Proof.
  destruct (Fetch._deferredPromise (fst streaming)) as [response| |] eqn:Hp;
    try discriminate Hp.
  destruct (@failure_after_response_is_dropped latin1_platform (fst streaming)
              (snd streaming) 1 (Some "reset"%string) false response 0
              {| queue := []; status := Readable; locked := false |}
              eq_refl eq_refl Hp (or_intror eq_refl))
    as (this' & Hd & Hf & _ & Ht);
    try (inversion Hp; subst response; reflexivity).
  exists this', response; repeat split; assumption.
Defined.

Lemma outcome_settles_once_witness :
  Fetch._deferredPromise
    (fst (Fetch.run [Fetch.DidCompleteNetworkResponse 1 None true; Fetch.Abort]
            (fst streaming) (snd streaming)))
  = Fetch._deferredPromise (fst streaming).
Proof.
  refine (@outcome_settles_once latin1_platform _ (fst streaming)
            (snd streaming) _).
  discriminate.
Defined.

(** ** Fetch: an exchange from the request to the body *)

(** A Response is its Body, as the Body constructor makes it, and
    headers. *)
Lemma Response_constructor_parts (body : BodyInit) (options : ResponseInit)
    (σ σ' : Store) (response : Response.t) :
  Response.constructor body options σ = (σ', Normal response) ->
  exists σb,
    Body.constructor body σ = (σb, Normal (Response._body response)) /\
    same_but_headers σb σ'.
Proof.
  unfold Response.constructor; intros Hc.
  apply bind_Normal in Hc as (σ1 & b & Hb & Hc).
  apply bind_Normal in Hc as (σ2 & h & Hnew & Hc).
  apply bind_Normal in Hc as (σ3 & has_type & Hhas & Hc).
  apply headers_has_frame in Hhas; subst σ3.
  apply bind_Normal in Hc as (σ4 & [] & Hset & Hc).
  inversion Hc; subst; clear Hc; simpl.
  exists σ1; split; [exact Hb|].
  apply new_Headers_frame in Hnew.
  eapply same_but_headers_trans; [exact Hnew|].
  destruct (_mimeType b) as [mime|];
    [destruct (negb has_type && truthy_string mime)|];
    try (inversion Hset; subst; apply same_but_headers_refl).
  apply headers_set_frame in Hset as (Hf & _); exact Hf.
Qed.

Section FetchAnswer.
Context {platform : Platform}.

Lemma response_step (this : Fetch.t) (σ : Store) (requestId : nat)
    (status : Z) (headers : list (string * string)) (url : string)
    (table : HeaderTable) :
  Fetch.subscribed "didReceiveNetworkResponse" this = true ->
  Fetch._requestId this = Some requestId ->
  Headers.of_pairs headers [] = Normal table ->
  exists σ1 response,
    Fetch.deliver (Fetch.DidReceiveNetworkResponse requestId status headers url)
      this σ
    = (Fetch.resolve response
         (Fetch.set_response response
            (Fetch.set_streamController (length (heap_streams σ)) this)),
       σ1, Normal ()) /\
    heap_streams σ1
    = heap_streams σ ++ [{| queue := []; status := Readable; locked := false |}] /\
    Response.status response = status /\
    _bodyReadableStream (Response._body response)
    = Some (length (heap_streams σ)) /\
    bodyUsed (Response._body response) = false.
Proof.
  intros Hsub Hid Htable; simpl; rewrite Hsub.
  unfold Fetch.__didReceiveNetworkResponse.
  rewrite (same_request_true _ _ Hid); simpl.
  match goal with
  | |- context [Response.constructor ?b ?o ?s] =>
    destruct (Response_constructor_stream (length (heap_streams σ)) status
                headers url table s Htable) as (σ1 & response & Hr)
  end.
  rewrite Hr.
  exists σ1, response; split; [reflexivity|].
  pose proof (Response_constructor_Normal _ _ _ _ _ Hr) as (Hstatus & _ & _ & Hu).
  apply Response_constructor_parts in Hr as (σb & Hb & (_ & Hs & _)).
  unfold Body.constructor, ret in Hb; simpl in Hb.
  injection Hb as Hσ Hbody; subst σb.
  split; [rewrite Hs; reflexivity|].
  split; [exact Hstatus|]. split; [rewrite <- Hbody; reflexivity | exact Hu].
Qed.

Lemma data_step (this : Fetch.t) (σ : Store) (requestId : nat)
    (d : NativeData) :
  Fetch.subscribed "didReceiveNetworkData" this = true ->
  Fetch._requestId this = Some requestId ->
  Fetch.deliver (Fetch.DidReceiveNetworkData requestId d) this σ
  = (Fetch.set_nativeResponse d this, σ, Normal ()).
Proof.
  intros Hsub Hid; simpl; rewrite Hsub.
  unfold Fetch.__didReceiveNetworkData.
  rewrite (same_request_true _ _ Hid); reflexivity.
Qed.

Lemma close_open (s : nat) (st : ReadableStream) (σ : Store) :
  heap_streams σ !! s = Some st ->
  status st = Readable ->
  close s σ
  = (set_streams (<[s := {| queue := queue st; status := Closed;
                             locked := locked st |}]> (heap_streams σ)) σ,
     Normal ()).
Proof.
  intros Hs Hopen; unfold close, can_close_or_enqueue; rewrite Hs, Hopen.
  reflexivity.
Qed.

Lemma enqueue_open (s : nat) (st : ReadableStream) (chunk : bytes) (σ : Store) :
  heap_streams σ !! s = Some st ->
  status st = Readable ->
  enqueue s chunk σ
  = (set_streams (<[s := {| queue := queue st ++ [chunk]; status := Readable;
                             locked := locked st |}]> (heap_streams σ)) σ,
     Normal ()).
Proof.
  intros Hs Hopen; unfold enqueue, can_close_or_enqueue; rewrite Hs, Hopen.
  reflexivity.
Qed.

(** A completion without error, the response type being "blob": the
    payload, if one came, is enqueued as one chunk, and the stream is
    closed. *)
Lemma complete_step (this : Fetch.t) (σ : Store) (requestId : nat)
    (errorMessage : option string) (c : nat) (st : ReadableStream) :
  Fetch.subscribed "didCompleteNetworkResponse" this = true ->
  Fetch._requestId this = Some requestId ->
  Fetch.truthy_message errorMessage = false ->
  Fetch._nativeResponseType this = "blob"%string ->
  Fetch._streamController this = Some c ->
  heap_streams σ !! c = Some st ->
  status st = Readable ->
  exists σ',
    Fetch.deliver
      (Fetch.DidCompleteNetworkResponse requestId errorMessage false) this σ
    = (Fetch.set_abort_listener false (Fetch.__clearNetworkSubscriptions this),
       σ', Normal ()) /\
    heap_streams σ'
    = <[c := {| queue := queue st ++ payload_chunks (Fetch._nativeResponse this);
                status := Closed;
                locked := locked st |}]> (heap_streams σ).
Proof.
  intros Hsub Hid Hmsg Htype Hc Hst Hopen; simpl; rewrite Hsub.
  unfold Fetch.__didCompleteNetworkResponse.
  rewrite (same_request_true _ _ Hid), Hmsg; simpl.
  assert (Hlt : c < length (heap_streams σ))
    by (eapply lookup_lt_Some; exact Hst).
  assert (Hclose : exists σ',
             (let '(σ', r) :=
                Fetch.controller_close
                  (Fetch.set_abort_listener false
                     (Fetch.__clearNetworkSubscriptions this)) σ in
              (Fetch.set_abort_listener false
                 (Fetch.__clearNetworkSubscriptions this), σ', r))
             = (Fetch.set_abort_listener false
                  (Fetch.__clearNetworkSubscriptions this), σ', Normal ()) /\
             heap_streams σ'
             = <[c := {| queue := queue st ++ []; status := Closed;
                         locked := locked st |}]> (heap_streams σ)).
  { unfold Fetch.controller_close; simpl; rewrite Hc.
    rewrite (close_open c st σ Hst Hopen), app_nil_r.
    eexists; split; reflexivity. }
  rewrite Hc.
  destruct (Fetch._nativeResponse this) as [d|]; simpl;
    [destruct (truthy_data d)|]; try exact Hclose.
  eexists; split; [reflexivity|].
  unfold Fetch.enqueueSingleChunk; simpl; rewrite Htype; simpl.
  unfold bind at 1, ret at 1.
  unfold bind at 1, bind at 1, alloc_buffer.
  unfold Fetch.controller_enqueue, Fetch.controller_close; simpl; rewrite Hc.
  rewrite buffer_bytes_alloc.
  rewrite (enqueue_open c st (blob_bytes (createFromOptions d))
             (set_buffers (heap_buffers σ ++ [blob_bytes (createFromOptions d)]) σ)
             Hst Hopen).
  erewrite close_open;
    [|simpl; apply list_lookup_insert_eq; exact Hlt | reflexivity].
  simpl; apply list_insert_insert_eq.
Qed.

Lemma run_step (ev : Fetch.Event) (rest : list Fetch.Event)
    (this this' : Fetch.t) (σ σ' : Store) (c : Completion unit) :
  Fetch.deliver ev this σ = (this', σ', c) ->
  Fetch.run (ev :: rest) this σ = Fetch.run rest this' σ'.
Proof. intros Hd; simpl; rewrite Hd; reflexivity. Qed.

Lemma subscribed_all (name : string) (this : Fetch.t) :
  Fetch._nativeNetworkSubscriptions this = Fetch.event_names ->
  In name Fetch.event_names ->
  Fetch.subscribed name this = true.
Proof.
  intros Hsubs Hin; unfold Fetch.subscribed; rewrite Hsubs.
  apply existsb_exists; exists name; split; [exact Hin | apply String.eqb_refl].
Qed.

(** An exchange that is answered, from the object the constructor
    returns. *)
Lemma answered_exchange (this : Fetch.t) (σ : Store) (requestId : nat)
    (status : Z) (headers : list (string * string)) (url : string)
    (table : HeaderTable) (data : option NativeData)
    (errorMessage : option string) :
  Fetch._nativeNetworkSubscriptions this = Fetch.event_names ->
  Fetch._nativeResponseType this = "blob"%string ->
  Fetch._nativeResponse this = None ->
  Fetch._deferredPromise this = Pending ->
  Headers.of_pairs headers [] = Normal table ->
  Fetch.truthy_message errorMessage = false ->
  exists this' σ' response s,
    Fetch.run
      (Fetch.DidCreateRequest requestId
       :: Fetch.DidReceiveNetworkResponse requestId status headers url
       :: data_events requestId data
       ++ [Fetch.DidCompleteNetworkResponse requestId errorMessage false])
      this σ
    = (this', σ') /\
    Fetch._deferredPromise this' = Fulfilled response /\
    Response.status response = status /\
    Fetch._nativeNetworkSubscriptions this' = [] /\
    _bodyReadableStream (Response._body response) = Some s /\
    bodyUsed (Response._body response) = false /\
    heap_streams σ' !! s
    = Some {| queue := payload_chunks data; status := Closed; locked := false |}.
Proof.
  intros Hsubs Htype Hnone Hp Htable Hmsg.
  set (this1 := Fetch.set_requestId requestId this).
  rewrite (run_step (Fetch.DidCreateRequest requestId) _ this this1 σ σ
             (Normal ()) eq_refl).
  assert (Hsub1 : forall name, In name Fetch.event_names ->
                               Fetch.subscribed name this1 = true).
  { intros name; apply subscribed_all; exact Hsubs. }
  destruct (response_step this1 σ requestId status headers url table)
    as (σ1 & response & Hd1 & Hs1 & Hstatus & Hstream & Hu);
    [apply Hsub1; simpl; auto | reflexivity | exact Htable |].
  rewrite (run_step _ _ _ _ _ _ _ Hd1).
  set (this2 := Fetch.resolve response
                  (Fetch.set_response response
                     (Fetch.set_streamController (length (heap_streams σ)) this1))).
  assert (Hthis2 : this2
                   = Fetch.set_deferredPromise (Fulfilled response)
                       (Fetch.set_response response
                          (Fetch.set_streamController (length (heap_streams σ))
                             this1))).
  { subst this2; unfold Fetch.resolve; simpl; rewrite Hp; reflexivity. }
  assert (Hst1 : heap_streams σ1 !! length (heap_streams σ)
                 = Some {| queue := []; status := Readable; locked := false |}).
  { rewrite Hs1; apply list_lookup_middle; reflexivity. }
  assert (Hfinal : forall this3 : Fetch.t,
             Fetch._nativeNetworkSubscriptions this3 = Fetch.event_names ->
             Fetch._requestId this3 = Some requestId ->
             Fetch._nativeResponseType this3 = "blob"%string ->
             Fetch._streamController this3 = Some (length (heap_streams σ)) ->
             Fetch._deferredPromise this3 = Fulfilled response ->
             Fetch._nativeResponse this3 = data ->
             exists this' σ',
               Fetch.run
                 [Fetch.DidCompleteNetworkResponse requestId errorMessage false]
                 this3 σ1
               = (this', σ') /\
               Fetch._deferredPromise this' = Fulfilled response /\
               Fetch._nativeNetworkSubscriptions this' = [] /\
               heap_streams σ' !! length (heap_streams σ)
               = Some {| queue := payload_chunks data; status := Closed;
                         locked := false |}).
  { intros this3 Hsubs3 Hid3 Htype3 Hc3 Hp3 Hdata3.
    destruct (complete_step this3 σ1 requestId errorMessage
                (length (heap_streams σ)) _
                (subscribed_all _ this3 Hsubs3
                   ltac:(simpl; auto 10))
                Hid3 Hmsg Htype3 Hc3 Hst1 eq_refl) as (σ' & Hd & Hs').
    rewrite (run_step _ _ _ _ _ _ _ Hd).
    eexists _, σ'; split; [reflexivity|]; simpl.
    split; [exact Hp3|]. split; [reflexivity|].
    rewrite Hs', Hdata3; simpl.
    apply list_lookup_insert_eq; eapply lookup_lt_Some; exact Hst1. }
  destruct data as [d|]; cbn [data_events app].
  - rewrite (run_step _ _ _ _ _ _ _
               (data_step this2 σ1 requestId d
                  ltac:(rewrite Hthis2;
                        apply (Hsub1 "didReceiveNetworkData"%string);
                        simpl; auto)
                  ltac:(rewrite Hthis2; reflexivity))).
    destruct (Hfinal (Fetch.set_nativeResponse d this2))
      as (this' & σ' & Hrun & Hp' & Hsubs' & Hs');
      try (rewrite Hthis2; simpl; first [assumption | reflexivity]).
    exists this', σ', response, (length (heap_streams σ)); auto 10.
  - destruct (Hfinal this2)
      as (this' & σ' & Hrun & Hp' & Hsubs' & Hs');
      try (rewrite Hthis2; simpl; first [assumption | reflexivity]).
    exists this', σ', response, (length (heap_streams σ)); auto 10.
Qed.

(** X20.  An exchange from the request to the body.  After
    [new Fetch(resource, options)] has returned, let the transport name
    the request, answer with a status and headers whose names are tokens,
    deliver a payload or none, and complete without error.  Then the
    outcome is fulfilled with a Response of that status, the subscriptions
    are gone, and [text()] on the Response yields the decoded bytes of the
    blob of the payload, as the [Uint8Array] of the drain holds them: the
    empty text when no payload came or the payload was falsy. *)
Theorem answered_exchange_delivers_payload (resource : Input)
    (options : Options) (σ0 σ : Store) (this : Fetch.t) (requestId : nat)
    (status : Z) (headers : list (string * string)) (url : string)
    (table : HeaderTable) (data : option NativeData)
    (errorMessage : option string) :
  Fetch.constructor resource options σ0 = (σ, Normal this) ->
  Headers.of_pairs headers [] = Normal table ->
  Fetch.truthy_message errorMessage = false ->
  exists this' σ' response,
    Fetch.run
      (Fetch.DidCreateRequest requestId
       :: Fetch.DidReceiveNetworkResponse requestId status headers url
       :: data_events requestId data
       ++ [Fetch.DidCompleteNetworkResponse requestId errorMessage false])
      this σ
    = (this', σ') /\
    Fetch._deferredPromise this' = Fulfilled response /\
    Response.status response = status /\
    Fetch._nativeNetworkSubscriptions this' = [] /\
    snd (Response.text response σ')
    = Fulfilled
        (TextDecoder_decode (map to_uint8 (concat (payload_chunks data)))).
Proof.
  intros Hc Htable Hmsg.
  apply Fetch_constructor_result in Hc as (r & request & _ & _ & Hthis).
  destruct (answered_exchange this σ requestId status headers url table data
              errorMessage)
    as (this' & σ' & response & s & Hrun & Hp & Hstatus & Hsubs & Hs & Hu & Hst);
    try assumption;
    try (rewrite Hthis; unfold Fetch.__doFetch; destruct (signal request);
         reflexivity).
  exists this', σ', response.
  repeat (split; [assumption|]).
  unfold Response.text, Response.on_body, Body.text, Body.__consumed.
  rewrite Hu; simpl; rewrite Hs.
  destruct (drainStream_closed_result s _ σ' Hst eq_refl eq_refl)
    as (σ'' & typedArray & Hd & Hw & _).
  rewrite Hd; simpl.
  unfold Body.readArrayAsText; rewrite Hw; reflexivity.
Qed.

End FetchAnswer.

Lemma answered_exchange_delivers_payload_witness :
  exists this σ this' σ' response,
    @Fetch.constructor latin1_platform (InputOther "/hello") no_options
      empty_store
    = (σ, Normal this) /\
    Fetch.run
      [Fetch.DidCreateRequest 7;
       Fetch.DidReceiveNetworkResponse 7 200
         [("Content-Type", "text/plain")]%string "/hello";
       @Fetch.DidReceiveNetworkData latin1_platform 7
         (NewBlob [104; 105]%N "text/plain");
       Fetch.DidCompleteNetworkResponse 7 None false]
      this σ
    = (this', σ') /\
    Fetch._deferredPromise this' = Fulfilled response /\
    snd (@Response.text latin1_platform response σ') = Fulfilled [104; 105]%N.
Proof.
  destruct (@answered_exchange_delivers_payload latin1_platform
              (InputOther "/hello") no_options empty_store _ _ 7 200%Z
              [("Content-Type", "text/plain")]%string "/hello"%string
              [("content-type", "text/plain")]%string
              (Some (NewBlob [104; 105]%N "text/plain")) None
              eq_refl eq_refl eq_refl)
    as (this' & σ' & response & Hrun & Hp & _ & _ & Ht).
  eexists _, _, this', σ', response.
  split; [reflexivity|].
  split; [exact Hrun|]. split; [exact Hp | exact Ht].
Defined.

(** ** StreamBlobResponse: the three views of a payload *)

(** A Response is constructed whenever its Body is and the header names
    are tokens; it holds that Body, and only headers are made. *)
Lemma Response_constructor_returns (body : BodyInit) (options : ResponseInit)
    (σ σb : Store) (b : Body) :
  Body.constructor body σ = (σb, Normal b) ->
  (forall pairs, init_headers options = Some (InitPairs pairs) ->
     exists t, Headers.of_pairs pairs [] = Normal t) ->
  exists σ' response,
    Response.constructor body options σ = (σ', Normal response) /\
    Response._body response = b /\
    same_but_headers σb σ'.
Proof.
  intros Hb Hvalid; unfold Response.constructor.
  rewrite (bind_step _ _ _ _ _ Hb).
  assert (Hn : exists t, new_Headers (init_headers options) σb
                 = (set_headers (heap_headers σb ++ [t]) σb,
                    Normal (length (heap_headers σb)))).
  { unfold new_Headers; destruct (init_headers options) as [[h0|pairs]|]; eauto.
    destruct (Hvalid pairs eq_refl) as (t & ->); eauto. }
  destruct Hn as (t & Hn).
  rewrite (bind_step _ _ _ _ _ Hn).
  assert (Hl : heap_headers (set_headers (heap_headers σb ++ [t]) σb)
               !! length (heap_headers σb) = Some t)
    by (apply list_lookup_middle; reflexivity).
  rewrite (bind_step _ _ _ _ _ (headers_has_lookup _ "content-type" _ _ Hl)).
  destruct (_mimeType b) as [mime|].
  - destruct (Headers.has "content-type" t) eqn:Hhas; simpl.
    + unfold bind, ret; eexists _, _; split; [reflexivity|].
      split; [reflexivity | repeat split].
    + destruct (truthy_string mime).
      * rewrite (bind_step _ _ _ _ _ (headers_set_absent _ mime _ _ Hl Hhas)).
        unfold ret; eexists _, _; split; [reflexivity|].
        split; [reflexivity | repeat split].
      * unfold bind, ret; eexists _, _; split; [reflexivity|].
        split; [reflexivity | repeat split].
  - unfold bind, ret; eexists _, _; split; [reflexivity|].
    split; [reflexivity | repeat split].
Qed.

Section StreamBlobViews.
Context {platform : Platform}.

(** X21.  The StreamBlobResponse constructor, when no buffer is passed.
    With header names that are tokens it returns a promise.  On an open
    stream the promise is fulfilled, once the blob of the payload is
    loaded into an ArrayBuffer, with an unconsumed object whose three
    views hold the same bytes: [blob()] yields the blob, [text()] its
    decoded bytes, [arrayBuffer()] a buffer with its bytes; the bytes are
    enqueued on the stream as one chunk, and the stream is left open.  On
    a stream that is closed or errored the constructor does not throw:
    the promise is rejected, as the chunk cannot be enqueued. *)
Theorem StreamBlobResponse_views (blobData : NativeData) (s : nat)
    (st : ReadableStream) (options : ResponseInit) (σ : Store) :
  heap_streams σ !! s = Some st ->
  (forall pairs, init_headers options = Some (InitPairs pairs) ->
     exists t, Headers.of_pairs pairs [] = Normal t) ->
  let blob := createFromOptions blobData in
  match status st with
  | Readable =>
    exists σ' this,
      StreamBlobResponse.constructor blobData s s options None σ
      = (σ', Normal (StreamBlobResponse.Promised (Fulfilled this))) /\
      StreamBlobResponse.bodyUsed this = false /\
      StreamBlobResponse.body this = Some s /\
      heap_streams σ' !! s
      = Some {| queue := queue st ++ [blob_bytes blob]; status := Readable;
                locked := locked st |} /\
      snd (StreamBlobResponse.blob this σ') = Fulfilled blob /\
      snd (StreamBlobResponse.text this σ')
      = Fulfilled (TextDecoder_decode (blob_bytes blob)) /\
      exists a,
        snd (StreamBlobResponse.arrayBuffer this σ') = Fulfilled a /\
        buffer_bytes (fst (fst (StreamBlobResponse.arrayBuffer this σ'))) a
        = blob_bytes blob
  | _ =>
    exists σ',
      StreamBlobResponse.constructor blobData s s options None σ
      = (σ',
         Normal
           (StreamBlobResponse.Promised
              (Rejected
                 (NewTypeError
                    "The stream is not in a state that permits enqueue"))))
  end.
Proof.
  intros Hst Hvalid blob.
  destruct (Response_constructor_returns (InitBlob blob) options σ σ _
              eq_refl Hvalid) as (σ1 & blobResponse & Hr1 & Hb1 & Hf1).
  destruct (Response_constructor_returns (InitStream s) options σ1 σ1 _
              eq_refl Hvalid) as (σ2 & streamResponse & Hr2 & Hb2 & Hf2).
  set (σ3 := set_buffers (heap_buffers σ2 ++ [blob_bytes blob]) σ2).
  set (a := length (heap_buffers σ2)).
  assert (Hbody3 : exists b3,
             Body.constructor (InitArrayBuffer a) σ3
             = (set_buffers (heap_buffers σ3 ++ [buffer_bytes σ3 a]) σ3, Normal b3)
             /\ bodyUsed b3 = false
             /\ _bodyReadableStream b3 = None
             /\ _bodyBlob b3 = None
             /\ _bodyArrayBuffer b3 = Some (IsArrayBuffer (length (heap_buffers σ3)))).
  { eexists; split; [reflexivity|]; simpl; auto. }
  destruct Hbody3 as (b3 & Hc3 & Hu3 & Hs3 & Hbl3 & Hab3).
  destruct (Response_constructor_returns (InitArrayBuffer a) options σ3 _ _
              Hc3 Hvalid) as (σ4 & arrayBufferResponse & Hr3 & Hb3 & Hf3).
  destruct Hf1 as (_ & Hs1 & _), Hf2 as (_ & Hs2 & _),
    Hf3 as (Hbuf4 & Hs4 & _).
  simpl in Hs4, Hbuf4.
  assert (Hst4 : heap_streams σ4 !! s = Some st) by congruence.
  assert (Hbytes : buffer_bytes σ3 a = blob_bytes blob)
    by (subst σ3 a; apply buffer_bytes_alloc).
  assert (Hbytes4 : buffer_bytes σ4 a = blob_bytes blob).
  { unfold buffer_bytes; rewrite Hbuf4.
    rewrite lookup_app_l
      by (subst σ3 a; simpl; rewrite length_app; simpl; lia).
    exact Hbytes. }
  assert (Hcopy : buffer_bytes σ4 (length (heap_buffers σ3)) = blob_bytes blob).
  { unfold buffer_bytes; rewrite Hbuf4.
    rewrite list_lookup_middle by reflexivity; exact Hbytes. }
  assert (Hcons :
            StreamBlobResponse.constructor blobData s s options None σ
            = (let '(σ', p) :=
                 async
                   (let* _ := enqueue s (blob_bytes blob) in
                    ret {| StreamBlobResponse._blobData := blobData;
                           StreamBlobResponse._blobResponse := blobResponse;
                           StreamBlobResponse._streamResponse := streamResponse;
                           StreamBlobResponse._blobArrayBuffer := a;
                           StreamBlobResponse._arrayBufferResponse :=
                             arrayBufferResponse |}) σ4 in
               (σ', Normal (StreamBlobResponse.Promised p)))).
  { unfold StreamBlobResponse.constructor; fold blob.
    rewrite (bind_step _ _ _ _ _ Hr1), (bind_step _ _ _ _ _ Hr2).
    unfold async, StreamBlobResponse.complete.
    unfold bind at 1, alloc_buffer at 1; fold σ3; fold a.
    rewrite (bind_step _ _ _ _ _ Hr3).
    unfold bind; rewrite Hbytes4; reflexivity. }
  rewrite Hcons; clear Hcons.
  unfold async, bind, enqueue, can_close_or_enqueue; rewrite Hst4.
  destruct (status st) eqn:Hopen; try (eexists; reflexivity).
  eexists _, _; split; [reflexivity|].
  assert (Hlt : s < length (heap_streams σ4))
    by (eapply lookup_lt_Some; exact Hst4).
  split.
  { unfold StreamBlobResponse.bodyUsed, Response.bodyUsed; simpl.
    rewrite Hb1, Hb2, Hb3, Hu3; reflexivity. }
  split.
  { unfold StreamBlobResponse.body, Response.body, Body.body; simpl.
    rewrite Hb2; reflexivity. }
  split; [simpl; apply list_lookup_insert_eq; exact Hlt|].
  split.
  { unfold StreamBlobResponse.blob, Response.blob, Response.on_body,
      Body.blob, Body.__consumed; simpl.
    rewrite Hb1; reflexivity. }
  assert (Hcopy' : forall ss,
             buffer_bytes (set_streams ss σ4) (length (heap_buffers σ3))
             = blob_bytes blob) by (intros ss; exact Hcopy).
  split.
  { unfold StreamBlobResponse.text, Response.text, Response.on_body,
      Body.text, Body.__consumed; simpl.
    rewrite Hb3, Hu3; simpl; rewrite Hs3, Hbl3, Hab3; simpl.
    unfold Body.readArrayAsText; rewrite Hcopy'; reflexivity. }
  exists (length (heap_buffers σ3)).
  unfold StreamBlobResponse.arrayBuffer, Response.arrayBuffer,
    Response.on_body, Body.arrayBuffer, Body.__consumed; simpl.
  rewrite Hb3, Hu3; simpl; rewrite Hs3, Hab3; simpl.
  split; [reflexivity | apply Hcopy'].
Qed.

End StreamBlobViews.

Lemma StreamBlobResponse_views_witness :
  let σ := set_streams [{| queue := []; status := Readable; locked := false |}]
             empty_store in
  let options := {| init_status := Some 200%Z; init_statusText := None;
                    init_headers := None; init_url := None |} in
  exists σ' this,
    @StreamBlobResponse.constructor latin1_platform
      (NewBlob [104; 105]%N "text/plain") 0 0 options None σ
    = (σ', Normal (StreamBlobResponse.Promised (Fulfilled this))) /\
    snd (StreamBlobResponse.text this σ') = Fulfilled [104; 105]%N /\
    heap_streams σ' !! 0
    = Some {| queue := [[104; 105]%N]; status := Readable; locked := false |}.
Proof.
  intros σ options.
  destruct (@StreamBlobResponse_views latin1_platform
              (NewBlob [104; 105]%N "text/plain") 0
              {| queue := []; status := Readable; locked := false |}
              options σ eq_refl)
    as (σ' & this & Hc & _ & _ & Hs & _ & Ht & _).
  - intros pairs Hp; discriminate Hp.
  - exists σ', this; split; [exact Hc|]. split; [exact Ht | exact Hs].
Defined.

(** ** Fetch: a completion that comes before any response *)

Section FetchNoResponse.
Context {platform : Platform}.

(** X22.  A completion without error before any response.  No Response was
    made and there is no stream to close: the handler drops the
    subscriptions, settles nothing and touches no stream, so the outcome
    is still pending, and stays pending whatever transport events or
    aborts follow. *)
Theorem completion_before_response_never_settles (this : Fetch.t) (σ : Store)
    (requestId : nat) (errorMessage : option string)
    (evs : list Fetch.Event) :
  Fetch.subscribed "didCompleteNetworkResponse" this = true ->
  Fetch._requestId this = Some requestId ->
  Fetch._deferredPromise this = Pending ->
  Fetch._streamController this = None ->
  Fetch.truthy_message errorMessage = false ->
  Forall (fun ev => is_Some (transport_id ev) \/ ev = Fetch.Abort) evs ->
  exists this' σ',
    Fetch.deliver
      (Fetch.DidCompleteNetworkResponse requestId errorMessage false) this σ
    = (this', σ', Normal ()) /\
    heap_streams σ' = heap_streams σ /\
    Fetch._deferredPromise (fst (Fetch.run evs this' σ')) = Pending.
Proof.
  intros Hsub Hid Hp Hc Hmsg Hall.
  destruct (Fetch.deliver
              (Fetch.DidCompleteNetworkResponse requestId errorMessage false)
              this σ) as [[this' σ'] c] eqn:Hd.
  destruct (completion_tears_down _ _ _ _ _ _ _ _ Hsub Hid Hd)
    as (Hsubs & Hl & _).
  assert (Hrun : Fetch.run evs this' σ' = (this', σ')).
  { apply unheard_events; [exact Hsubs|].
    eapply List.Forall_impl; [|exact Hall].
    intros ev [Hev | ->]; auto. }
  exists this', σ'; rewrite Hrun; simpl.
  simpl in Hd; rewrite Hsub in Hd.
  unfold Fetch.__didCompleteNetworkResponse in Hd.
  rewrite (same_request_true _ _ Hid), Hmsg in Hd; simpl in Hd.
  rewrite Hc in Hd.
  destruct (Fetch._nativeResponse this) as [d|];
    [destruct (truthy_data d)|];
    try (inversion Hd; subst; simpl; auto; fail).
  inversion Hd; subst; clear Hd; simpl.
  split; [reflexivity|]. split; [|exact Hp].
  unfold Fetch.enqueueSingleChunk, Fetch.controller_enqueue,
    Fetch.controller_close, bind, ret, throw, alloc_buffer; simpl.
  rewrite Hc.
  destruct (String.eqb (Fetch._nativeResponseType this) "base64");
    destruct (String.eqb (Fetch._nativeResponseType this) "blob");
    reflexivity.
Qed.

End FetchNoResponse.

Lemma completion_before_response_never_settles_witness :
  exists this' σ',
    Fetch.deliver (Fetch.DidCompleteNetworkResponse 1 None false)
      (fst in_flight) (snd in_flight)
    = (this', σ', Normal ()) /\
    Fetch._deferredPromise
      (fst (Fetch.run
              [Fetch.DidReceiveNetworkResponse 1 200 [] "http://localhost:8082/slow"]
              this' σ'))
    = Pending.
Proof.
  destruct (@completion_before_response_never_settles latin1_platform
              (fst in_flight) (snd in_flight) 1 None
              [Fetch.DidReceiveNetworkResponse 1 200 []
                 "http://localhost:8082/slow"]
              eq_refl eq_refl eq_refl eq_refl eq_refl)
    as (this' & σ' & Hd & _ & Hp).
  - apply List.Forall_cons; [left; eexists; reflexivity | apply List.Forall_nil].
  - exists this', σ'; split; [exact Hd | exact Hp].
Defined.
